(* ===== verification/_CoqProject ===== *)
-Q . S2P
Prelude.v
Dns.v
Upstream.v
LoadBalancer.v
PendingQuery.v
Probe.v
HandlerState.v
Handler.v
Step.v
HandlerInv.v
HandlerSpec.v
Timeouts.v
Safety.v
Refinement.v
Scenarios.v
Sends.v
Sharing.v
ProbeSpacing.v
Coalescing.v
