(* ===== verification/Prelude.v ===== *)
(** * A verification development of the client query core of edgedns

    This library models, in Rocq, the client query resolution core of the
    edgedns DNS edge proxy: the two Rust files
    [libedgedns/src/client_queries_handler.rs] ("the handler") and
    [libedgedns/src/pending_query.rs] ("the pending table").  The
    definitions are a shallow embedding of the Rust code: every function of
    the handler becomes a Rocq function over an explicit state, and the
    asynchronous parts (a timer racing a one-shot completion channel) become
    the events of a step relation.

    ** The program and how its parts interact

    - The pending table ([PendingQueries], a [HashMap<PendingQueryKey,
      PendingQuery>]) holds one [PendingQuery] per in-flight question; each
      one carries the [ClientQuery]s waiting for the same answer.
    - The upstream registry ([upstream_servers_arc], a map from socket
      address to [UpstreamServer]) holds, per upstream resolver, its
      pending-query counter, failure counter and last probe time; the live
      list ([upstream_servers_live_arc]) holds the indices of the servers in
      use.
    - The load balancer ([NormalizedQuestion::pick_upstream]) chooses an
      upstream index from the live list under the [Fallback], [Uniform]
      (jump consistent hash) or [P2] (two least loaded) policy;
      [new_pending_query] builds the query packet and draws an outbound
      socket.
    - The handler ([ClientQueriesHandler]) admits a query
      ([cap_pending_queries]: evict one entry when the waiting-client
      counter reached its limit), coalesces it with an identical in-flight
      query ([maybe_add_to_existing_pending_query]), or creates a pending
      query, probes a server ([maybe_send_probe_to_offline_servers]), sends
      the packet and arms a timer.  When the timer wins the race against the
      completion channel, the query is retried once ([fut_retry_query]);
      when the second timer wins as well, every waiting client gets a stale
      cached answer or a SERVFAIL ([maybe_respond_with_stale_entry]).

    ** Files

    - [Prelude] (this file): machine integers of 64 bits (the target's
      [usize] and [u64]) with their saturating and wrapping operations, the
      [Exec] state-and-panic monad in which the handler is written, sums
      over finite maps, the [edgedns] hint database and shared tactics.
    - [Dns]: the data the core receives from the codec and the listeners
      ([SocketAddr], [NormalizedQuestion], [NormalizedQuestionKey],
      [NormalizedQuestionMinimal], [ClientQuery]) and the interfaces of the
      external collaborators as type classes: [DnsCodec] (packet builders)
      and [JumpHasher] (the jumphash crate's [slot], with its range law).
      These live outside [src/] and are modelled from the specification.
    - [Upstream]: [UpstreamServer] and the registry (a list of servers
      with distinct addresses, looked up by address as the Rust
      [HashMap<SocketAddr, UpstreamServer>] is), the counter updates of the
      handler ([incr_pending], [decr_pending], [record_failure],
      [record_success]) and the timeout estimate.
    - [LoadBalancer]: [pick_upstream] (lines 476-511) with its three
      policies, the stable sort of [Vec::sort_by_key], and
      [new_pending_query] (lines 513-546).
    - [PendingQuery]: [PendingQueryKey], [PendingQuery], [PendingQuery::new],
      the table as a [gmap], and the number of clients it holds.
    - [Probe]: [maybe_send_probe_to_offline_servers] (lines 178-217).
    - [HandlerState]: the handler's state [HState] (table, registry, live
      list, counter, cache, armed timers, one-shot channels, clock, output
      logs, metrics) and the effects the handler performs on it.
    - [Handler]: every method of [ClientQueriesHandler] as a program of
      the [Handler] monad, the two [or_else] closures included.
    - [Step]: the reactor as a step relation over [HState] whose events
      are a client query, a timer completing, an upstream response, the
      clock advancing and the live list changing; [reachable] states.
    - [HandlerInv]: the counter invariant, preserved by every event.
    - [HandlerSpec]: the functional behaviour of the handler's paths,
      stated against relations that transcribe the specification.
    - [Timeouts]: the weight of the armed timers, and the bound on the
      timer firings of the timeout chains.
    - [Safety]: a well-formedness invariant of the state under the
      events the rest of the resolver produces, the absence of panics,
      and the draining of the timers.
    - [Refinement]: the pending table's contract (section 4.3 of the
      specification) as the moves each event allows on the clients of
      each key, and the handler's refinement of it, event by event.
    - [Scenarios]: the seven end-to-end scenarios of the specification
      (section 8), run on the model and checked by evaluation; they are
      tests of the model, kept as [Example]s.
    - [Sends]: labelled runs ([trace], and [run_trace] that evaluates
      one), and the bound on the datagrams sent upstream per client query.
    - [Sharing]: the struct [ClientQueriesHandler] (lines 41-54) as a
      record of handles into a [Store] of shared objects (one map of
      locations per type of object, the socket descriptors included),
      [Clone::clone] (lines 56-73) and [ClientQueriesHandler::new]
      (lines 75-94) over that store, and what a handle sees ([view]) and
      writes back ([write]).
    - [ProbeSpacing]: the probe stamps of the registry along a run.
    - [Coalescing]: a stream of identical client queries and the
      response that answers them: the answers of the dispatcher, and the
      pending query once the later clients joined it.

    ** What the theorems show

    - [HandlerInv]: in every reachable state the waiting-client counter is
      the number of clients attached to pending queries, every pending
      query has a client, the counter never exceeds [max(M, 1)] for the
      limit [M] and never wraps, and the registry keeps distinct addresses
      and in-range counters ([reachable_handler_inv]).
    - [Safety]: from every state reached by well-formed events (client
      queries naming the [n] configured servers, live lists of valid
      indices), with a codec that builds every packet and at least one
      outbound socket, no event panics ([handle_event_never_panics]);
      every index the handler reads is in range
      ([wf_reachable_indices_in_range]); and ticking the clock and
      firing timers runs every timeout out ([timers_eventually_drain]).
    - [Refinement]: from any state, each event moves the table (seen as
      the clients waiting on each key) only as the contract allows for that
      event: a client query evicts at most one whole entry, then appends
      its own client to its key's entry or inserts it alone there; a timer
      removes at most one whole entry, a retry keeping the clients; a
      response removes exactly its key's entry; the clock and the live
      list leave the table alone ([step_refines_contract]).
    - [HandlerSpec]: each path of the handler against the specification's
      description of it: the degradation after the second timeout, the
      all-down shortcut, coalescing, the new query sent upstream, the
      retry re-targeting the entry, the retry that finds every server down
      and abandons the entry, the eviction whose dropped sender fires the
      evicted query's timer at once.
    - [Timeouts]: at most twice the first-attempt timers plus the retry
      timers fire in a row, so the timeout chains end
      ([timer_firings_bounded]).
    - [LoadBalancer]: the choice is a live index or the all-down error,
      never a panic; [Fallback] is deterministic; a [Uniform] or [P2] retry
      goes to a different server; [P2] picks one of the two least loaded
      (the insertion sort modelling [Vec::sort_by_key] is shown to be a
      stable sort by the lemmas it rests on).
    - [Probe]: rate limiting per server and absence of panics.
    - [Scenarios] (tests, not theorems of the code): the specification's
      scenarios hold on the model, with two departures shown by runs: the
      happy path also sends a probe, and a retry that finds every server
      down leaves a query targeting a server whose pending counter no
      longer counts it.
    - [Sends]: from start-up, the datagrams sent upstream are at most
      three per client query (primary, probe, retry), and one query
      reaches three ([upstream_sends_per_query]).
    - [Sharing]: the handler and its clones behave as one state: any
      sequence of clonings and of events run through any clones panics
      when the same events on one [HState] panic, and otherwise leaves
      every clone seeing the state they give ([clones_run_as_one]); at
      start-up, [new] sees [ClientQueriesHandler_new] of the core's
      values ([new_view]).  This is what justifies modelling the handler
      by one [HState].
    - [ProbeSpacing]: along any run, the time of the last probe to a
      server only moves forward, by [UPSTREAM_PROBES_DELAY_MS] at least
      ([probes_spaced]).
    - [Coalescing]: the specification's coalescing law for any number of
      identical queries: below the admission limit they cause exactly one
      upstream attempt (after at most one probe), and the response to it
      reaches every client, in order of arrival, with the same packet,
      leaving the table and the counter as they were ([coalescing_law]).

    Every theorem with hypotheses is applied by a witness to a concrete
    run, computed by [vm_compute] from start-up.

    ** Bounds and widths

    [usize] and [u64] are 64 bits wide: values are [Z] in [0, 2^64 - 1];
    [saturating_add]/[saturating_sub] clamp, [wrapping_add]/[wrapping_sub]
    reduce modulo [2^64] (the semantics of [AtomicUsize::fetch_add] and
    [fetch_sub]).  No fuel is needed: every modelled function is
    structurally recursive, and the termination of the timeout chains is
    proved with a measure (2 per first-attempt timer, 1 per retry timer);
    the bound on upstream sends weighs a first-attempt timer 1, for the
    retry it may still send.
    The live list is assumed shorter than [2^32]: the jump hash takes its
    count as a [u32].

    ** Not modelled

    Socket I/O (sends are recorded in an output log), logging, metrics
    other than the four counters of the core, the DNS wire codec and the
    jump hash (interfaces only), the upstream response dispatcher (modelled
    from the specification as one event of the step relation), the cache's
    expiry (the stale path reads entries whatever their age), the health
    logic that changes the live list (an event with any list, or any list
    of valid indices for the safety theorems), several handlers made by
    [new] from one resolver core (they share the table, the registry and
    the counter but each has a wheel of its own, so the step relation over
    one [HState] models one handler and its clones, not a pool of
    reactors), and the interleaving of the handler with other threads:
    the reactor runs one future at a time, so each event runs
    atomically.  In the two modelled files, the one call left out is
    [upstream_server.prepare_send(&self.config)] (line 284): it is a
    method of [upstream_server.rs], outside the modelled sources, and the
    specification does not describe it, so the model assumes it changes
    none of the fields the handler reads.  The other methods of the
    registry ([upstream_server.rs]), the dispatcher ([resolver.rs]), the
    cache ([cache.rs]) and the codec ([dns.rs]) are outside the modelled
    sources too and appear only through the interfaces the specification
    gives them.  Sends: the primary and retry sends discard their result
    ([let _ =]) and are recorded as datagrams; the probe's [send_to] can
    fail, and its outcome is an input of the run ([rnd_probe_ok]): on
    [Err] no datagram leaves and [probed_socket_addr] stays unset.

    ** Not yet proved

    The per-server pending counters as a quantified invariant (a run
    shows the specification's version of it fails).  The consistency of
    the one-shot channels (every pending query holds the sender of an open
    channel of its own, fresh channels are new) is what Rust's ownership of
    [oneshot::Sender] guarantees; the model's bookkeeping of it is not
    proved, and the path lemmas of [HandlerSpec] that need it take it as
    a hypothesis ([done_tx pq < next_chan st]).  The
    bound on upstream sends is stated for a whole run (three per client
    query received), not query by query: the datagram log does not record
    the query a datagram belongs to. *)

From Stdlib Require Import ZArith Lia.
From stdpp Require Import base gmap list strings fin_maps.

Declare Scope edgedns_scope.
Delimit Scope edgedns_scope with edns.
Open Scope Z_scope.

(** ** Machine integers of 64 bits *)

Definition U64_MODULUS : Z := 2 ^ 64.
Definition U64_MAX : Z := U64_MODULUS - 1.

(** [x] is a value of a [u64] or of a 64-bit [usize]. *)
Definition in_u64 (x : Z) : Prop := 0 <= x <= U64_MAX.
#[export] Instance in_u64_dec x : Decision (in_u64 x) := _.

(** [u64::saturating_add], [u64::saturating_sub]. *)
Definition saturating_add (a b : Z) : Z := Z.min (a + b) U64_MAX.
Definition saturating_sub (a b : Z) : Z := Z.max (a - b) 0.

(** [AtomicUsize::fetch_add] / [fetch_sub]: wrap around modulo 2^64. *)
Definition wrapping_add (a b : Z) : Z := (a + b) mod U64_MODULUS.
Definition wrapping_sub (a b : Z) : Z := (a - b) mod U64_MODULUS.

Notation "a +sat b" := (saturating_add a b) (at level 50, left associativity) : edgedns_scope.
Notation "a -sat b" := (saturating_sub a b) (at level 50, left associativity) : edgedns_scope.
Notation "a +w b" := (wrapping_add a b) (at level 50, left associativity) : edgedns_scope.
Notation "a -w b" := (wrapping_sub a b) (at level 50, left associativity) : edgedns_scope.

(** ** The [Exec] monad: state passing with Rust panics *)

(** A handler step either returns a value and the new state, or panics
    (index out of bounds, [expect] on an error, an empty random range). *)
Inductive Outcome (S A : Type) : Type :=
| Done (a : A) (s : S)
| Panicked (msg : string).
Arguments Done {S A} a s.
Arguments Panicked {S A} msg.

Definition Exec (S A : Type) : Type := S → Outcome S A.

#[export] Instance exec_ret {S} : MRet (Exec S) := λ A a s, Done a s.
#[export] Instance exec_bind {S} : MBind (Exec S) :=
  λ A B f m s, match m s with Done a s' => f a s' | Panicked msg => Panicked msg end.

Definition get_st {S} : Exec S S := λ s, Done s s.
Definition put_st {S} (s : S) : Exec S unit := λ _, Done tt s.
Definition modify_st {S} (f : S → S) : Exec S unit := λ s, Done tt (f s).
Definition panic {S A} (msg : string) : Exec S A := λ _, Panicked msg.

(** Pure code that may panic. *)
Inductive Fallible (A : Type) : Type :=
| Value (a : A)
| Panics (msg : string).
Arguments Value {A} a.
Arguments Panics {A} msg.

#[export] Instance fallible_ret : MRet Fallible := λ A a, Value a.
#[export] Instance fallible_bind : MBind Fallible :=
  λ A B f m, match m with Value a => f a | Panics msg => Panics msg end.

(** Rust's [v[i]]: the element, or a panic out of range. *)
Definition findex {A} (l : list A) (i : nat) : Fallible A :=
  match l !! i with
  | Some x => Value x
  | None => Panics "index out of bounds"
  end.

(** Run pure code inside a handler. *)
Definition lift {S A} (p : Fallible A) : Exec S A :=
  λ s, match p with Value a => Done a s | Panics msg => Panicked msg end.

Definition index_or_panic {S A} (l : list A) (i : nat) : Exec S A := lift (findex l i).

(** The final state of a run, when it does not panic. *)
Definition exec_state {S A} (m : Exec S A) (s : S) : option S :=
  match m s with Done _ s' => Some s' | Panicked _ => None end.

(** ** Weakest preconditions of [Exec] programs *)

(** [wp m Q s]: run from [s], [m] panics or returns [a] in a state [s']
    with [Q a s'].  Invariants of the handler are [wp] statements: they
    say nothing of panicking runs, which are no steps of the handler. *)
Definition wp {S A} (m : Exec S A) (Q : A → S → Prop) (s : S) : Prop :=
  match m s with Done a s' => Q a s' | Panicked _ => True end.

Section Wp.
Context {S : Type}.

Lemma wp_ret {A} (a : A) (Q : A → S → Prop) s : Q a s → wp (mret a) Q s.
Proof. done. Qed.

Lemma wp_bind {A B} (m : Exec S A) (k : A → Exec S B) Q s :
  wp m (λ a s', wp (k a) Q s') s → wp (m ≫= k) Q s.
Proof. unfold wp, mbind, exec_bind. cbn. by destruct (m s). Qed.

Lemma wp_get (Q : S → S → Prop) s : Q s s → wp get_st Q s.
Proof. done. Qed.

Lemma wp_put s' (Q : unit → S → Prop) s : Q tt s' → wp (put_st s') Q s.
Proof. done. Qed.

Lemma wp_modify f (Q : unit → S → Prop) s : Q tt (f s) → wp (modify_st f) Q s.
Proof. done. Qed.

Lemma wp_panic {A} msg (Q : A → S → Prop) s : wp (panic msg) Q s.
Proof. done. Qed.

Lemma wp_lift {A} (p : Fallible A) (Q : A → S → Prop) s :
  (∀ a, p = Value a → Q a s) → wp (lift p) Q s.
Proof. unfold wp, lift. destruct p; [auto|done]. Qed.

Lemma wp_mono {A} (m : Exec S A) (Q Q' : A → S → Prop) s :
  wp m Q s → (∀ a s', Q a s' → Q' a s') → wp m Q' s.
Proof. unfold wp. destruct (m s); auto. Qed.

Lemma wp_run {A} (m : Exec S A) Q s a s' : wp m Q s → m s = Done a s' → Q a s'.
Proof. unfold wp. intros Hw Hm. by rewrite Hm in Hw. Qed.
End Wp.

(** One step of a [wp] goal: a primitive, or a case split on the
    [match] the program branches on. *)
Ltac wp_step :=
  match goal with
  | |- wp (mbind _ _) _ _ => apply wp_bind
  | |- wp (mret _) _ _ => apply wp_ret
  | |- wp get_st _ _ => apply wp_get
  | |- wp (put_st _) _ _ => apply wp_put
  | |- wp (modify_st _) _ _ => apply wp_modify
  | |- wp (panic _) _ _ => apply wp_panic
  | |- wp (lift _) _ _ => apply wp_lift; intros ? ?
  | |- wp (index_or_panic _ _) _ _ => unfold index_or_panic
  | |- wp (match ?x with _ => _ end) _ _ => let E := fresh "E" in destruct x eqn:E
  end.

(** [wpt m Q s]: run from [s], [m] returns, without panicking, some [a]
    in a state [s'] with [Q a s']. *)
Definition wpt {S A} (m : Exec S A) (Q : A → S → Prop) (s : S) : Prop :=
  ∃ a s', m s = Done a s' ∧ Q a s'.

Section Wpt.
Context {S : Type}.

Lemma wpt_ret {A} (a : A) (Q : A → S → Prop) s : Q a s → wpt (mret a) Q s.
Proof. intros HQ. by exists a, s. Qed.

Lemma wpt_bind {A B} (m : Exec S A) (k : A → Exec S B) Q s :
  wpt m (λ a s', wpt (k a) Q s') s → wpt (m ≫= k) Q s.
Proof.
  intros (a & s' & Hm & b & s'' & Hk & HQ). exists b, s''.
  unfold mbind, exec_bind. cbn. by rewrite Hm.
Qed.

Lemma wpt_get (Q : S → S → Prop) s : Q s s → wpt get_st Q s.
Proof. intros HQ. by exists s, s. Qed.

Lemma wpt_put s' (Q : unit → S → Prop) s : Q tt s' → wpt (put_st s') Q s.
Proof. intros HQ. by exists tt, s'. Qed.

Lemma wpt_modify f (Q : unit → S → Prop) s : Q tt (f s) → wpt (modify_st f) Q s.
Proof. intros HQ. by exists tt, (f s). Qed.

Lemma wpt_lift {A} (a : A) (p : Fallible A) (Q : A → S → Prop) s :
  p = Value a → Q a s → wpt (lift p) Q s.
Proof. intros -> HQ. by exists a, s. Qed.

Lemma wpt_mono {A} (m : Exec S A) (Q Q' : A → S → Prop) s :
  wpt m Q s → (∀ a s', Q a s' → Q' a s') → wpt m Q' s.
Proof. intros (a & s' & Hm & HQ) HQQ. exists a, s'. auto. Qed.
Lemma wpt_wp {A} (m : Exec S A) (Q P : A → S → Prop) s :
  wpt m Q s → wp m P s → wpt m (λ a s', Q a s' ∧ P a s') s.
Proof. intros (a & s' & Hm & HQ) HP. exists a, s'. split; [done|]. split; [done|]. by eapply wp_run. Qed.
Lemma wpt_run {A} (m : Exec S A) Q s a s' : wpt m Q s → m s = Done a s' → Q a s'.
Proof. intros (b & s'' & Hm & HQ) Hm'. rewrite Hm in Hm'. by simplify_eq. Qed.
End Wpt.

(** One step of a [wpt] goal; a [lift] is left to the caller, who knows
    its value. *)
Ltac wpt_step :=
  match goal with
  | |- wpt (mbind _ _) _ _ => apply wpt_bind
  | |- wpt (mret _) _ _ => apply wpt_ret
  | |- wpt get_st _ _ => apply wpt_get
  | |- wpt (put_st _) _ _ => apply wpt_put
  | |- wpt (modify_st _) _ _ => apply wpt_modify
  | |- wpt (index_or_panic _ _) _ _ => unfold index_or_panic
  | |- wpt (match ?x with _ => _ end) _ _ => let E := fresh "E" in destruct x eqn:E
  end.

(** ** Sums over finite maps *)

Section MapSum.
Context {K V : Type} `{Countable K}.
Variable f : V → nat.

Definition map_sum (m : gmap K V) : nat :=
  sum_list_with (λ kv, f kv.2) (map_to_list m).

Lemma map_sum_empty : map_sum ∅ = 0%nat.
Proof. unfold map_sum. by rewrite map_to_list_empty. Qed.

Lemma map_sum_insert_new (m : gmap K V) k v :
  m !! k = None → map_sum (<[k:=v]> m) = (f v + map_sum m)%nat.
Proof. intros Hk. unfold map_sum. by rewrite map_to_list_insert. Qed.

Lemma map_sum_delete (m : gmap K V) k v :
  m !! k = Some v → map_sum m = (f v + map_sum (delete k m))%nat.
Proof. intros Hk. unfold map_sum. by rewrite <- (map_to_list_delete m k v). Qed.

Lemma map_sum_insert_replace (m : gmap K V) k v v' :
  m !! k = Some v → (map_sum (<[k:=v']> m) + f v = map_sum m + f v')%nat.
Proof.
  intros Hk. rewrite <- insert_delete_eq.
  rewrite map_sum_insert_new by apply lookup_delete_eq.
  rewrite (map_sum_delete m k v Hk). lia.
Qed.

Lemma map_sum_lookup_le (m : gmap K V) k v :
  m !! k = Some v → (f v <= map_sum m)%nat.
Proof. intros Hk. rewrite (map_sum_delete m k v Hk). lia. Qed.
End MapSum.

(** ** Lists *)

Lemma filter_Forall_not {A} (P : A → Prop) `{∀ x, Decision (P x)} (l : list A) :
  Forall (λ x, ¬ P x) l → filter P l = [].
Proof. induction 1; [done|]. by rewrite filter_cons_False. Qed.

Lemma filter_Forall_all {A} (P : A → Prop) `{∀ x, Decision (P x)} (l : list A) :
  Forall P l → filter P l = l.
Proof. induction 1; [done|]. rewrite filter_cons_True by done. by f_equal. Qed.

Lemma length_filter_map {A B} (P : B → Prop) `{∀ x, Decision (P x)} (f : A → B) (l : list A) :
  length (filter P (map f l)) = length (filter (λ x, P (f x)) l).
Proof.
  induction l as [|x l IH]; [done|]. simpl. rewrite !filter_cons.
  destruct (decide (P (f x))); simpl; lia.
Qed.

Lemma findex_Value {A} (l : list A) i x : findex l i = Value x ↔ l !! i = Some x.
Proof. unfold findex. destruct (l !! i); split; congruence. Qed.

Lemma findex_lt {A} (l : list A) i : (i < length l)%nat → ∃ x, findex l i = Value x ∧ l !! i = Some x.
Proof.
  intros Hi. apply lookup_lt_is_Some_2 in Hi as [x Hx]. exists x.
  unfold findex. by rewrite Hx.
Qed.

(** An index in range does not panic. *)
Lemma wpt_index {S A} (l : list A) i (Q : A → S → Prop) s :
  (i < length l)%nat → (∀ x, l !! i = Some x → Q x s) → wpt (index_or_panic l i) Q s.
Proof.
  intros Hi HQ. destruct (findex_lt l i Hi) as (x & Hx & Hl).
  apply (wpt_lift x); [done|]. by apply HQ.
Qed.

(** [x & 1] is [x mod 2]. *)
Lemma land_1_mod2 x : Z.land x 1 = x mod 2.
Proof. change 1 with (Z.ones 1). rewrite Z.land_ones by lia. reflexivity. Qed.

Lemma mod2_succ_ne t : t mod 2 ≠ (t + 1) mod 2.
Proof.
  rewrite Zplus_mod. pose proof (Z.mod_pos_bound t 2 ltac:(lia)).
  assert (t mod 2 = 0 ∨ t mod 2 = 1) as [E|E] by lia; rewrite E; discriminate.
Qed.

(** ** Arithmetic facts on the 64-bit operations *)

Lemma saturating_add_bounds a b : 0 <= a → 0 <= b → in_u64 (a +sat b)%edns.
Proof. unfold in_u64, saturating_add, U64_MAX, U64_MODULUS. lia. Qed.

Lemma saturating_sub_bounds a b : in_u64 a → 0 <= b → in_u64 (a -sat b)%edns.
Proof. unfold in_u64, saturating_sub. lia. Qed.

Lemma saturating_add_exact a b : a + b <= U64_MAX → (a +sat b)%edns = a + b.
Proof. unfold saturating_add. lia. Qed.

Lemma saturating_sub_exact a b : b <= a → (a -sat b)%edns = a - b.
Proof. unfold saturating_sub. lia. Qed.

Lemma wrapping_add_exact a b : 0 <= a + b <= U64_MAX → (a +w b)%edns = a + b.
Proof. unfold wrapping_add, U64_MAX. intros. apply Z.mod_small. lia. Qed.

Lemma wrapping_sub_exact a b : 0 <= a - b <= U64_MAX → (a -w b)%edns = a - b.
Proof. unfold wrapping_sub, U64_MAX. intros. apply Z.mod_small. lia. Qed.

Lemma wrapping_add_bounds a b : in_u64 (a +w b)%edns.
Proof.
  unfold in_u64, wrapping_add, U64_MAX.
  pose proof (Z.mod_pos_bound (a + b) U64_MODULUS). unfold U64_MODULUS in *. lia.
Qed.

Lemma wrapping_sub_bounds a b : in_u64 (a -w b)%edns.
Proof.
  unfold in_u64, wrapping_sub, U64_MAX.
  pose proof (Z.mod_pos_bound (a - b) U64_MODULUS). unfold U64_MODULUS in *. lia.
Qed.

Lemma u64_max_value : U64_MAX = 18446744073709551615.
Proof. reflexivity. Qed.

Create HintDb edgedns.
#[export] Hint Resolve saturating_add_bounds saturating_sub_bounds
  wrapping_add_bounds wrapping_sub_bounds : edgedns.

(** ** Shared tactics *)

(** Invert a hypothesis and forget it. *)
Ltac invc H := inversion H; subst; clear H.

(** Reduce a monadic run one [bind] at a time. *)
Ltac exec_simpl :=
  repeat (unfold mbind, mret, exec_bind, exec_ret, get_st, put_st, modify_st,
            panic, index_or_panic, lift, findex, fallible_bind, fallible_ret in *;
            simpl in * ).

(** Split the [match]es of the goal, keeping the equations. *)
Ltac case_goal :=
  match goal with
  | |- context [match ?x with _ => _ end] =>
      let E := fresh "E" in destruct x eqn:E
  end.

(** Arithmetic on 64-bit values. *)
Ltac u64_lia := unfold in_u64, U64_MAX, U64_MODULUS in *; lia.
