(* ===== verification/Dns.v ===== *)
(** * Data exchanged with the codec, the listeners and the cache

    The handler receives [ClientQuery]s (client_query.rs), asks the DNS
    codec (dns.rs) for query and SERVFAIL packets, hashes names with the
    jumphash crate and reads the cache (cache.rs).  None of these files is
    part of the modelled sources: their data and operations are modelled
    from the specification, and the codec and the hasher are interfaces
    (type classes) whose laws the core's theorems assume. *)

From S2P Require Import Prelude.
From stdpp Require Import base gmap list strings.
Open Scope Z_scope.

(** ** Addresses and questions *)

(** [std::net::SocketAddr]. *)
Record SocketAddr := mkSocketAddr { sa_ip : Z; sa_port : Z }.

#[export] Instance SocketAddr_eq_dec : EqDecision SocketAddr.
Proof. solve_decision. Defined.

(** [UpstreamServerForQuery]: the servers a client query may be sent to. *)
Record UpstreamServerForQuery := { socket_addr : SocketAddr }.

(** [dns::NormalizedQuestion]: a client question after normalisation. *)
Record NormalizedQuestion := {
  qname : string;
  tid : Z;
  flags : Z;
  payload_size : Z;
  qtype : Z;
  qclass : Z;
  dnssec : bool
}.

(** [dns::NormalizedQuestionKey]: what identifies equal questions. *)
Record NormalizedQuestionKey := {
  qname_lc : string;
  key_qtype : Z;
  key_qclass : Z;
  key_dnssec : bool
}.

#[export] Instance NormalizedQuestionKey_eq_dec : EqDecision NormalizedQuestionKey.
Proof. solve_decision. Defined.

#[export] Program Instance NormalizedQuestionKey_countable : Countable NormalizedQuestionKey :=
  inj_countable'
    (λ k, (qname_lc k, key_qtype k, key_qclass k, key_dnssec k))
    (λ '(n, t, c, d), {| qname_lc := n; key_qtype := t; key_qclass := c; key_dnssec := d |}) _.
Next Obligation. by intros []. Qed.

(** ASCII lower case, as [NormalizedQuestion::key] compares names
    case-insensitively. *)
Definition ascii_lower (c : Ascii.ascii) : Ascii.ascii :=
  let n := Ascii.nat_of_ascii c in
  if (65 <=? n)%nat && (n <=? 90)%nat then Ascii.ascii_of_nat (n + 32) else c.

Fixpoint lowercase (s : string) : string :=
  match s with
  | EmptyString => EmptyString
  | String c s' => String (ascii_lower c) (lowercase s')
  end.

(** [NormalizedQuestion::key]. *)
Definition key (nq : NormalizedQuestion) : NormalizedQuestionKey :=
  {| qname_lc := lowercase (qname nq); key_qtype := qtype nq;
     key_qclass := qclass nq; key_dnssec := dnssec nq |}.

(** [dns::NormalizedQuestionMinimal]: the question as sent upstream, with
    the upstream transaction id used to match the response. *)
Record NormalizedQuestionMinimal := {
  min_qname : string;
  min_tid : Z;
  min_qtype : Z;
  min_qclass : Z
}.

(** A wire packet: a list of bytes. *)
Definition Packet := list Z.

(** ** Client queries *)

(** [ClientQuery]: [cq_id] stands for the reply channel that
    [response_send] writes to. *)
Record ClientQuery := {
  cq_id : nat;
  normalized_question : NormalizedQuestion;
  upstream_servers_for_query : list UpstreamServerForQuery;
  cq_custom_hash : Z * Z
}.

(** ** The codec and the jump hash, as interfaces *)

(** [dns::build_query_packet] draws a random upstream transaction id: the
    draw is the argument [rnd_tid].  Both builders may fail. *)
Class DnsCodec := {
  build_query_packet : NormalizedQuestion → bool → Z → option (Packet * NormalizedQuestionMinimal);
  build_servfail_packet : NormalizedQuestion → option Packet
}.

(** [JumpHasher::slot]: a slot in [0, n) for any [n > 0]. *)
Class JumpHasher := {
  slot : string → Z → Z;
  slot_range : ∀ name n, 0 < n → 0 <= slot name n < n
}.

(** ** The cache *)

(** [Cache::get2] looks an entry up by question key and custom hash; it
    returns expired entries too. *)
Definition CacheKey := (NormalizedQuestionKey * (Z * Z))%type.
Definition Cache := gmap CacheKey Packet.

Definition cache_get2 (c : Cache) (nq : NormalizedQuestion) (custom_hash : Z * Z) : option Packet :=
  c !! (key nq, custom_hash).

(** ** Datagrams *)

(** A datagram sent from the local [port] of an outbound socket to [to]. *)
Record Datagram := { dg_port : Z; dg_to : SocketAddr; dg_packet : Packet }.

(** ** Stand-ins for concrete runs *)

(** A codec whose query packet is the drawn transaction id, and whose
    SERVFAIL packet is [[2]]; it never fails. *)
Definition example_codec : DnsCodec :=
  {| build_query_packet nq _ rnd_tid :=
       Some ([rnd_tid], {| min_qname := qname nq; min_tid := rnd_tid;
                           min_qtype := qtype nq; min_qclass := qclass nq |});
     build_servfail_packet _ := Some [2] |}.

(** A hash standing in for the jump hash: the name's length modulo [n]. *)
Definition name_length_slot (name : string) (n : Z) : Z :=
  Z.of_nat (String.length name) mod n.

Lemma name_length_slot_range name n : 0 < n → 0 <= name_length_slot name n < n.
Proof. intros Hn. apply Z.mod_pos_bound, Hn. Qed.

Definition example_hasher : JumpHasher :=
  {| slot := name_length_slot; slot_range := name_length_slot_range |}.
