(* ===== verification/Upstream.v ===== *)
(** * The upstream registry

    [upstream_servers_arc] maps a socket address to its [UpstreamServer];
    the handler reads it by address ([upstream_servers.get(&addr)], and
    mutates the entry found), and the load balancer reads it by index
    ([upstream_servers[i]] in [pick_upstream]).  Both uses are consistent
    with a vector of servers with pairwise distinct addresses, which is how
    it is modelled here: [Registry] is a list, [registry_get] finds a
    server by address and [registry_alter] updates it in place.

    The mutations of the handler on a server are the saturating increment
    and decrement of [pending_queries_count]; [record_failure],
    [record_success] and [timeout_ms_est] belong to upstream_server.rs,
    which is not among the modelled sources, and are modelled from the
    specification. *)

From S2P Require Import Prelude Dns.
From stdpp Require Import base gmap list strings.
Open Scope Z_scope.

(** ** Constants of lib.rs *)

Definition UPSTREAM_QUERY_MAX_TIMEOUT_MS : Z := 5000.
Definition UPSTREAM_PROBES_DELAY_MS : Z := 1000.

(** ** Servers *)

(** [UpstreamServer]: [us_socket_addr] is its [socket_addr] field (the
    name is taken by [UpstreamServerForQuery]); times are milliseconds. *)
Record UpstreamServer := {
  us_socket_addr : SocketAddr;
  pending_queries_count : Z;
  failures : Z;
  offline : bool;
  last_probe_ts : option Z;
  rtt_est_ms : Z
}.

Definition set_pending_queries_count (n : Z) (s : UpstreamServer) : UpstreamServer :=
  {| us_socket_addr := us_socket_addr s; pending_queries_count := n;
     failures := failures s; offline := offline s;
     last_probe_ts := last_probe_ts s; rtt_est_ms := rtt_est_ms s |}.

Definition set_last_probe_ts (ts : Z) (s : UpstreamServer) : UpstreamServer :=
  {| us_socket_addr := us_socket_addr s; pending_queries_count := pending_queries_count s;
     failures := failures s; offline := offline s;
     last_probe_ts := Some ts; rtt_est_ms := rtt_est_ms s |}.

(** [upstream_server.pending_queries_count =
      upstream_server.pending_queries_count.saturating_add(1)]. *)
Definition incr_pending (s : UpstreamServer) : UpstreamServer :=
  set_pending_queries_count (pending_queries_count s +sat 1)%edns s.

(** [... .saturating_sub(1)], assigned back. *)
Definition decr_pending (s : UpstreamServer) : UpstreamServer :=
  set_pending_queries_count (pending_queries_count s -sat 1)%edns s.

(** [UpstreamServer::record_failure]: one more consecutive failure; the
    server goes offline once [max_failures] is reached. *)
Definition record_failure (max_failures : Z) (s : UpstreamServer) : UpstreamServer :=
  let n := (failures s +sat 1)%edns in
  {| us_socket_addr := us_socket_addr s; pending_queries_count := pending_queries_count s;
     failures := n; offline := offline s || bool_decide (max_failures <= n);
     last_probe_ts := last_probe_ts s; rtt_est_ms := rtt_est_ms s |}.

(** [UpstreamServer::record_success]: failures reset, back online, RTT
    estimate moved by an eighth of the error (EWMA). *)
Definition record_success (rtt_ms : Z) (s : UpstreamServer) : UpstreamServer :=
  {| us_socket_addr := us_socket_addr s; pending_queries_count := pending_queries_count s;
     failures := 0; offline := false; last_probe_ts := last_probe_ts s;
     rtt_est_ms := rtt_est_ms s + (rtt_ms - rtt_est_ms s) / 8 |}.

(** [UpstreamServer::timeout_ms_est]: the RTT estimate, bounded by the
    absolute ceiling. *)
Definition timeout_ms_est (s : UpstreamServer) : Z :=
  Z.max 0 (Z.min (rtt_est_ms s) UPSTREAM_QUERY_MAX_TIMEOUT_MS).

(** ** The registry *)

Abbreviation Registry := (list UpstreamServer) (only parsing).

Definition addr_is (a : SocketAddr) (s : UpstreamServer) : bool :=
  bool_decide (us_socket_addr s = a).

(** [upstream_servers.get(&addr)]. *)
Fixpoint registry_get (r : Registry) (a : SocketAddr) : option UpstreamServer :=
  match r with
  | [] => None
  | s :: r' => if addr_is a s then Some s else registry_get r' a
  end.

(** [if let Some(s) = upstream_servers.get_mut(&addr) { f(s) }]. *)
Definition registry_alter (f : UpstreamServer → UpstreamServer) (a : SocketAddr)
    (r : Registry) : Registry :=
  map (λ s, if addr_is a s then f s else s) r.

(** A well-formed registry: a map (addresses pairwise distinct) whose
    counters are [u64] values. *)
Definition registry_wf (r : Registry) : Prop :=
  NoDup (map us_socket_addr r) ∧ Forall (λ s, in_u64 (pending_queries_count s)) r.

(** An update that keeps the server's address. *)
Definition keeps_addr (f : UpstreamServer → UpstreamServer) : Prop :=
  ∀ s, us_socket_addr (f s) = us_socket_addr s.

(** An update that keeps the counter a [u64]. *)
Definition keeps_u64 (f : UpstreamServer → UpstreamServer) : Prop :=
  ∀ s, in_u64 (pending_queries_count s) → in_u64 (pending_queries_count (f s)).

(** An update that keeps the time of the last probe. *)
Definition keeps_probe (f : UpstreamServer → UpstreamServer) : Prop :=
  ∀ s, last_probe_ts (f s) = last_probe_ts s.

(** The time of the last probe to the server at [a], if configured and
    probed. *)
Definition stamp (r : Registry) (a : SocketAddr) : option Z :=
  registry_get r a ≫= last_probe_ts.

(** ** Lemmas on servers *)

Lemma incr_pending_keeps_addr : keeps_addr incr_pending.
Proof. done. Qed.
Lemma decr_pending_keeps_addr : keeps_addr decr_pending.
Proof. done. Qed.
Lemma record_failure_keeps_addr m : keeps_addr (record_failure m).
Proof. done. Qed.
Lemma record_success_keeps_addr rtt : keeps_addr (record_success rtt).
Proof. done. Qed.
Lemma set_last_probe_ts_keeps_addr ts : keeps_addr (set_last_probe_ts ts).
Proof. done. Qed.
Lemma compose_keeps_addr f g : keeps_addr f → keeps_addr g → keeps_addr (f ∘ g).
Proof. intros Hf Hg s. simpl. by rewrite Hf, Hg. Qed.

Lemma incr_pending_keeps_u64 : keeps_u64 incr_pending.
Proof. intros s Hs. apply saturating_add_bounds; u64_lia. Qed.
Lemma decr_pending_keeps_u64 : keeps_u64 decr_pending.
Proof. intros s Hs. apply saturating_sub_bounds; u64_lia. Qed.
Lemma record_failure_keeps_u64 m : keeps_u64 (record_failure m).
Proof. intros s Hs. exact Hs. Qed.
Lemma record_success_keeps_u64 rtt : keeps_u64 (record_success rtt).
Proof. intros s Hs. exact Hs. Qed.
Lemma set_last_probe_ts_keeps_u64 ts : keeps_u64 (set_last_probe_ts ts).
Proof. intros s Hs. exact Hs. Qed.
Lemma compose_keeps_u64 f g : keeps_u64 f → keeps_u64 g → keeps_u64 (f ∘ g).
Proof. intros Hf Hg s Hs. simpl. auto. Qed.

Lemma incr_pending_keeps_probe : keeps_probe incr_pending.
Proof. done. Qed.
Lemma decr_pending_keeps_probe : keeps_probe decr_pending.
Proof. done. Qed.
Lemma record_failure_keeps_probe m : keeps_probe (record_failure m).
Proof. done. Qed.
Lemma record_success_keeps_probe rtt : keeps_probe (record_success rtt).
Proof. done. Qed.
Lemma compose_keeps_probe f g : keeps_probe f → keeps_probe g → keeps_probe (f ∘ g).
Proof. intros Hf Hg s. simpl. by rewrite Hf, Hg. Qed.

#[export] Hint Resolve incr_pending_keeps_probe decr_pending_keeps_probe
  record_failure_keeps_probe record_success_keeps_probe compose_keeps_probe : edgedns.

#[export] Hint Resolve incr_pending_keeps_addr decr_pending_keeps_addr
  record_failure_keeps_addr record_success_keeps_addr set_last_probe_ts_keeps_addr
  compose_keeps_addr incr_pending_keeps_u64 decr_pending_keeps_u64
  record_failure_keeps_u64 record_success_keeps_u64 set_last_probe_ts_keeps_u64
  compose_keeps_u64 : edgedns.

(** ** Lemmas on the registry *)

Section RegistryLemmas.
Context (f : UpstreamServer → UpstreamServer) (Hf : keeps_addr f).

Lemma registry_alter_addrs a r :
  map us_socket_addr (registry_alter f a r) = map us_socket_addr r.
Proof.
  unfold registry_alter. rewrite map_map. apply map_ext. intros s.
  by destruct (addr_is a s).
Qed.

Lemma length_registry_alter a r : length (registry_alter f a r) = length r.
Proof. apply length_map. Qed.

Lemma registry_alter_lookup a r i :
  registry_alter f a r !! i = (λ s, if addr_is a s then f s else s) <$> r !! i.
Proof. apply list_lookup_fmap. Qed.

Lemma registry_get_alter_eq a r :
  registry_get (registry_alter f a r) a = f <$> registry_get r a.
Proof.
  induction r as [|s r IH]; [done|]. simpl.
  destruct (addr_is a s) eqn:E; simpl.
  - unfold addr_is in *. rewrite Hf, E. done.
  - rewrite E. exact IH.
Qed.

Lemma registry_get_alter_ne a b r :
  a ≠ b → registry_get (registry_alter f a r) b = registry_get r b.
Proof.
  intros Hab. induction r as [|s r IH]; [done|]. simpl.
  destruct (addr_is a s) eqn:E; simpl; [|by rewrite IH].
  unfold addr_is in *. rewrite Hf.
  apply bool_decide_eq_true in E. subst.
  rewrite bool_decide_eq_false_2 by done. exact IH.
Qed.

Lemma registry_alter_wf (Hu : keeps_u64 f) a r :
  registry_wf r → registry_wf (registry_alter f a r).
Proof.
  intros [Hnd Hc]. split; [by rewrite registry_alter_addrs|].
  unfold registry_alter. apply Forall_map, (Forall_impl _ _ _ Hc). intros s Hs.
  destruct (addr_is a s); auto.
Qed.
End RegistryLemmas.

Lemma registry_get_Some r a s :
  registry_get r a = Some s → s ∈ r ∧ us_socket_addr s = a.
Proof.
  induction r as [|s' r IH]; [done|]. simpl. destruct (addr_is a s') eqn:E.
  - intros [= <-]. unfold addr_is in E. apply bool_decide_eq_true in E.
    split; [left|done].
  - intros H. destruct (IH H). split; [by right|done].
Qed.

Lemma registry_get_None_alter f a r :
  registry_get r a = None → registry_alter f a r = r.
Proof.
  unfold registry_alter. induction r as [|s r IH]; [done|]. simpl.
  destruct (addr_is a s); [done|]. intros H. by rewrite IH.
Qed.

(** An update that keeps addresses never removes a server. *)
Lemma registry_get_alter_is_Some f a b r :
  keeps_addr f → is_Some (registry_get r b) → is_Some (registry_get (registry_alter f a r) b).
Proof.
  intros Hf [s Hs]. destruct (decide (a = b)) as [->|Hab].
  - rewrite registry_get_alter_eq, Hs by done. by exists (f s).
  - rewrite registry_get_alter_ne by done. by exists s.
Qed.

(** An update that keeps the address and the probe time keeps every
    server's stamp. *)
Lemma stamp_alter f a r b :
  keeps_addr f → keeps_probe f → stamp (registry_alter f a r) b = stamp r b.
Proof.
  intros Hf Hp. unfold stamp. destruct (decide (a = b)) as [->|Hab].
  - rewrite registry_get_alter_eq by done. destruct (registry_get r b); simpl; [apply Hp|done].
  - by rewrite registry_get_alter_ne.
Qed.

Lemma registry_wf_get_u64 r a s :
  registry_wf r → registry_get r a = Some s → in_u64 (pending_queries_count s).
Proof.
  intros [_ Hc] Hg. apply registry_get_Some in Hg as [Hin _].
  rewrite Forall_forall in Hc. by apply Hc.
Qed.

#[export] Hint Resolve registry_alter_wf : edgedns.
