(* ===== verification/LoadBalancer.v ===== *)
(** * The load balancer

    [NormalizedQuestion::pick_upstream] (client_queries_handler.rs, lines
    476-511) chooses the upstream server of an attempt from the live list,
    and [NormalizedQuestion::new_pending_query] (lines 513-546) builds the
    query packet, calls it, and draws an outbound socket.  Both are pure
    code that may panic (an index out of range, [expect] on a codec error,
    a random range over no socket): they return a [Fallible] value, whose
    payload is Rust's [Result<_, &'static str>] as a sum.

    The free identifier [upstream_servers_live] of the source is the live
    list [upstream_servers_live_arc] read by the handler: it is a parameter
    here.  [Vec::sort_by_key] is a stable sort; every stable sort has the
    same result, and [sort_by_key] below (an insertion sort) is proved to be
    one: sorted by the key, a permutation, and order-preserving among equal
    keys.  The random draws are parameters: [rnd_tid] for the codec's
    transaction id, [rnd_socket] for [Range::new(0, n).ind_sample], taken
    modulo [n] so that every socket can be drawn. *)

From S2P Require Import Prelude Dns Upstream.
From stdpp Require Import base gmap list strings sorting.
Open Scope Z_scope.

(** [resolver::LoadBalancingMode]. *)
Inductive LoadBalancingMode := Fallback | Uniform | P2.

#[export] Instance LoadBalancingMode_eq_dec : EqDecision LoadBalancingMode.
Proof. solve_decision. Defined.

(** ** [Vec::sort_by_key(|x| x.1)] *)

Fixpoint insert_by_load (x : nat * Z) (l : list (nat * Z)) : list (nat * Z) :=
  match l with
  | [] => [x]
  | y :: l' => if bool_decide (x.2 <= y.2) then x :: l else y :: insert_by_load x l'
  end.

Fixpoint sort_by_key (l : list (nat * Z)) : list (nat * Z) :=
  match l with
  | [] => []
  | x :: l' => insert_by_load x (sort_by_key l')
  end.

(** ** [pick_upstream] *)

(** [upstream_servers_live.iter().map(|&i| (i,
      upstream_servers[i].pending_queries_count)).collect()]. *)
Fixpoint busy_map_of (upstream_servers : Registry) (live : list nat) : Fallible (list (nat * Z)) :=
  match live with
  | [] => mret []
  | i :: live' =>
      s ← findex upstream_servers i;
      rest ← busy_map_of upstream_servers live';
      mret ((i, pending_queries_count s) :: rest)
  end.

Definition ALL_DOWN : string := "All upstream servers are down".

(** [Uniform]: [jumphasher.slot(&self.qname, live_count as u32) as usize],
    moved to the next slot on a retry. *)
Definition uniform_index `{JumpHasher} (name : string) (live_count : nat) (is_retry : bool) : nat :=
  let i := Z.to_nat (slot name (Z.of_nat live_count mod 2 ^ 32)) in
  if is_retry then ((i + 1) mod live_count)%nat else i.

(** [P2]: [if busy_map.len() == 1 { 0 } else
      ((self.tid as usize) + (is_retry as usize & 1)) & 1]. *)
Definition p2_index (tid : Z) (is_retry : bool) (busy_len : nat) : nat :=
  if decide (busy_len = 1%nat) then 0%nat
  else Z.to_nat (Z.land (tid + Z.land (Z.b2z is_retry) 1) 1).

Definition pick_upstream `{JumpHasher} (nq : NormalizedQuestion) (upstream_servers : Registry)
    (upstream_servers_live : list nat) (is_retry : bool) (lbmode : LoadBalancingMode)
    : Fallible (string + nat) :=
  let live_count := length upstream_servers_live in
  if decide (live_count = 0%nat) then mret (inl ALL_DOWN) else
  match lbmode with
  | Fallback =>
      i ← findex upstream_servers_live 0; mret (inr i)
  | Uniform =>
      r ← findex upstream_servers_live (uniform_index (qname nq) live_count is_retry);
      mret (inr r)
  | P2 =>
      busy_map ← busy_map_of upstream_servers upstream_servers_live;
      let busy_map := sort_by_key busy_map in
      p ← findex busy_map (p2_index (tid nq) is_retry (length busy_map));
      mret (inr p.1)
  end.

(** ** [new_pending_query] *)

(** The packet, its minimal question, the upstream index and the local
    port of the drawn outbound socket ([net_ext_udp_sockets] is modelled
    by the local ports of the sockets). *)
Definition NewAttempt := (Packet * NormalizedQuestionMinimal * nat * Z)%type.

Definition new_pending_query `{DnsCodec} `{JumpHasher} (nq : NormalizedQuestion)
    (upstream_servers : Registry) (upstream_servers_live : list nat)
    (net_ext_udp_sockets : list Z) (is_retry : bool) (lbmode : LoadBalancingMode)
    (rnd_tid : Z) (rnd_socket : nat) : Fallible (string + NewAttempt) :=
  match build_query_packet nq false rnd_tid with
  | None => Panics "Unable to build a new query packet"
  | Some (query_packet, normalized_question_minimal) =>
      picked ← pick_upstream nq upstream_servers upstream_servers_live is_retry lbmode;
      match picked with
      | inl e => mret (inl e)
      | inr upstream_server_idx =>
          if decide (length net_ext_udp_sockets = 0%nat)
          then Panics "Range::new called with `low >= high`"
          else
            let random_token := (rnd_socket mod length net_ext_udp_sockets)%nat in
            net_ext_udp_socket ← findex net_ext_udp_sockets random_token;
            mret (inr (query_packet, normalized_question_minimal, upstream_server_idx,
                       net_ext_udp_socket))
      end
  end.

(** ** The stable sort *)

Definition by_load (x y : nat * Z) : Prop := x.2 <= y.2.

Lemma insert_by_load_perm x l : insert_by_load x l ≡ₚ x :: l.
Proof.
  induction l as [|y l IH]; simpl; [done|].
  case_bool_decide; [done|]. rewrite IH. apply Permutation_swap.
Qed.

Lemma sort_by_key_perm l : sort_by_key l ≡ₚ l.
Proof.
  induction l as [|x l IH]; simpl; [done|]. by rewrite insert_by_load_perm, IH.
Qed.

Lemma insert_by_load_sorted x l : Sorted by_load l → Sorted by_load (insert_by_load x l).
Proof.
  unfold by_load. induction 1 as [|y l Hs IH Hhd]; simpl; [by repeat constructor|].
  case_bool_decide; [by repeat constructor|].
  constructor; [done|].
  destruct l as [|z l]; simpl; [constructor; lia|].
  invc Hhd. case_bool_decide; constructor; lia.
Qed.

Lemma sort_by_key_sorted l : Sorted by_load (sort_by_key l).
Proof. induction l; simpl; [constructor|by apply insert_by_load_sorted]. Qed.

(** Inserting moves [x] only past elements of smaller key. *)
Lemma filter_insert_by_load (k : Z) x l :
  filter (λ y, y.2 = k) (insert_by_load x l) = filter (λ y, y.2 = k) (x :: l).
Proof.
  induction l as [|y l IH]; simpl; [done|].
  case_bool_decide as Hxy; [done|].
  rewrite !filter_cons, IH, filter_cons.
  destruct (decide (y.2 = k)), (decide (x.2 = k)); try done; lia.
Qed.

Lemma sort_by_key_stable (k : Z) l :
  filter (λ y, y.2 = k) (sort_by_key l) = filter (λ y, y.2 = k) l.
Proof.
  induction l as [|x l IH]; simpl; [done|].
  by rewrite filter_insert_by_load, !filter_cons, IH.
Qed.

(** In a list sorted by load, at most [p] elements are lighter than the
    one at position [p]. *)
Lemma sorted_lighter_than_position (bs : list (nat * Z)) (p : nat) (e : nat * Z) :
  Sorted by_load bs → bs !! p = Some e →
  (length (filter (λ y : nat * Z, (y.2 < e.2)%Z) bs) ≤ p)%nat.
Proof.
  unfold by_load. intros Hs. apply Sorted_StronglySorted in Hs; [|intros ???; lia].
  revert p. induction Hs as [|y bs Hs IH Hall]; intros p Hp; [done|].
  destruct p as [|p]; simpl in Hp.
  - invc Hp. rewrite filter_cons_False by lia.
    rewrite filter_Forall_not; [done|].
    apply (Forall_impl _ _ _ Hall). simpl. lia.
  - specialize (IH p Hp). rewrite filter_cons. case_decide; simpl; lia.
Qed.

(** ** The busy map *)

(** The pending count of server [j], 0 when there is none. *)
Definition load_of (r : Registry) (j : nat) : Z :=
  default 0 (pending_queries_count <$> r !! j).

(** Every live index names a server of the registry. *)
Definition live_in_range (r : Registry) (live : list nat) : Prop :=
  Forall (λ j, (j < length r)%nat) live.

Lemma busy_map_of_spec r live :
  live_in_range r live →
  busy_map_of r live = Value (map (λ j, (j, load_of r j)) live).
Proof.
  unfold live_in_range. induction 1 as [|j live Hj Hl IH]; [reflexivity|]. simpl.
  unfold findex. apply lookup_lt_is_Some_2 in Hj as [s Hs]. simpl.
  assert (load_of r j = pending_queries_count s) as -> by (unfold load_of; by rewrite Hs).
  rewrite Hs, IH. reflexivity.
Qed.

Lemma busy_map_of_Value r live bm :
  busy_map_of r live = Value bm → live_in_range r live.
Proof.
  unfold live_in_range. revert bm. induction live as [|j live IH]; intros bm; simpl; [done|].
  unfold findex. destruct (r !! j) eqn:E; simpl; [|done].
  destruct (busy_map_of r live) eqn:E'; simpl; [|done].
  intros _. constructor; [by apply lookup_lt_Some in E|]. by eapply IH.
Qed.

(** ** The index computations *)

Lemma uniform_index_lt `{JumpHasher} name n b :
  (0 < n)%nat → Z.of_nat n < 2 ^ 32 → (uniform_index name n b < n)%nat.
Proof.
  intros Hn Hlt. unfold uniform_index.
  rewrite Z.mod_small by lia.
  pose proof (slot_range name (Z.of_nat n) ltac:(lia)).
  destruct b; [apply Nat.mod_upper_bound; lia|lia].
Qed.

Lemma uniform_index_retry `{JumpHasher} name n :
  uniform_index name n true = ((uniform_index name n false + 1) mod n)%nat.
Proof. reflexivity. Qed.

Lemma p2_index_le_1 t b n : (p2_index t b n ≤ 1)%nat.
Proof.
  unfold p2_index. case_decide; [lia|].
  rewrite land_1_mod2. pose proof (Z.mod_pos_bound (t + Z.land (Z.b2z b) 1) 2). lia.
Qed.

Lemma p2_index_lt t b n : (1 ≤ n)%nat → (p2_index t b n < n)%nat.
Proof.
  intros Hn. destruct (decide (n = 1%nat)) as [->|Hne].
  - unfold p2_index. simpl. lia.
  - pose proof (p2_index_le_1 t b n). lia.
Qed.

Lemma p2_index_retry_ne t n : (2 ≤ n)%nat → p2_index t false n ≠ p2_index t true n.
Proof.
  intros Hn. unfold p2_index. rewrite !decide_False by lia.
  rewrite !land_1_mod2. simpl. rewrite Z.add_0_r. intros Heq.
  apply (f_equal Z.of_nat) in Heq.
  rewrite !Z2Nat.id in Heq by (apply Z.mod_pos_bound; lia).
  by apply (mod2_succ_ne t).
Qed.

(** ** Shape of the result *)

Lemma pick_upstream_nonempty `{JumpHasher} nq r live b m :
  live ≠ [] →
  pick_upstream nq r live b m =
    match m with
    | Fallback => i ← findex live 0; mret (inr i)
    | Uniform => i ← findex live (uniform_index (qname nq) (length live) b); mret (inr i)
    | P2 =>
        bm ← busy_map_of r live;
        p ← findex (sort_by_key bm) (p2_index (tid nq) b (length (sort_by_key bm)));
        mret (inr p.1)
    end.
Proof.
  intros Hne. unfold pick_upstream. rewrite decide_False; [done|].
  intros Hl. apply Hne. by apply nil_length_inv.
Qed.

(** The P2 branch, when it returns: the chosen pair is at [p2_index] of
    the sorted busy map of the live list. *)
Lemma pick_upstream_p2_inv `{JumpHasher} nq r live b i :
  live ≠ [] →
  pick_upstream nq r live b P2 = Value (inr i) →
  live_in_range r live ∧
  ∃ p, sort_by_key (map (λ j, (j, load_of r j)) live)
         !! p2_index (tid nq) b (length live) = Some p ∧ i = p.1.
Proof.
  intros Hne. rewrite pick_upstream_nonempty by done.
  destruct (busy_map_of r live) as [bm|] eqn:Hbm; simpl; [|done].
  pose proof (busy_map_of_Value _ _ _ Hbm) as Hr.
  rewrite busy_map_of_spec in Hbm by done. injection Hbm as <-.
  rewrite (Permutation_length (sort_by_key_perm _)), length_map.
  destruct (findex _ _) as [p|] eqn:Hp; simpl; [|done].
  intros [= <-]. apply findex_Value in Hp. eauto.
Qed.

Lemma elem_of_sorted_busy r live p :
  p ∈ sort_by_key (map (λ j, (j, load_of r j)) live) → p.1 ∈ live ∧ p.2 = load_of r p.1.
Proof.
  rewrite sort_by_key_perm, list_elem_of_fmap. intros (j & -> & Hj). done.
Qed.

(** ** Properties of [pick_upstream] *)

(** The index [pick_upstream] returns is live. *)
Lemma pick_upstream_member `{JumpHasher} nq r live b m i :
  pick_upstream nq r live b m = Value (inr i) → i ∈ live.
Proof.
  destruct (decide (live = [])) as [->|Hne]; [done|].
  destruct m.
  - rewrite pick_upstream_nonempty by done. simpl.
    destruct (findex live 0) eqn:E; simpl; [|done]. intros [= <-].
    apply findex_Value in E. by eapply list_elem_of_lookup_2.
  - rewrite pick_upstream_nonempty by done. simpl.
    destruct (findex live _) eqn:E; simpl; [|done]. intros [= <-].
    apply findex_Value in E. by eapply list_elem_of_lookup_2.
  - intros Hp. apply pick_upstream_p2_inv in Hp as (_ & p & Hp & ->); [|done].
    apply list_elem_of_lookup_2, elem_of_sorted_busy in Hp. apply Hp.
Qed.

(** [pick_upstream] returns an index when some server is live. *)
Lemma pick_upstream_Value `{JumpHasher} nq r live b m :
  live ≠ [] → Z.of_nat (length live) < 2 ^ 32 → live_in_range r live →
  ∃ i, pick_upstream nq r live b m = Value (inr i).
Proof.
  intros Hne Hlen Hr. rewrite pick_upstream_nonempty by done.
  assert (0 < length live)%nat by (destruct live; simpl; [done|lia]).
  destruct m.
  - destruct (findex_lt live 0) as (i & -> & _); [lia|]. by exists i.
  - destruct (findex_lt live (uniform_index (qname nq) (length live) b)) as (i & -> & _).
    { by apply uniform_index_lt. }
    by exists i.
  - rewrite busy_map_of_spec by done. simpl.
    destruct (findex_lt (sort_by_key (map (λ j, (j, load_of r j)) live))
                (p2_index (tid nq) b (length (sort_by_key (map (λ j, (j, load_of r j)) live)))))
      as (p & -> & _).
    { rewrite (Permutation_length (sort_by_key_perm _)), length_map.
      apply p2_index_lt. lia. }
    by exists p.1.
Qed.

(** With a packet for the question and an outbound socket, a new attempt
    never panics on a live list of valid indices, and its upstream index
    is live. *)
Lemma new_pending_query_Value `{DnsCodec} `{JumpHasher} nq r live socks b m tid sock pkt :
  build_query_packet nq false tid = Some pkt → socks ≠ [] →
  Z.of_nat (length live) < 2 ^ 32 → live_in_range r live →
  ∃ res, new_pending_query nq r live socks b m tid sock = Value res ∧
    match res with inl _ => True | inr (_, _, i, _) => i ∈ live end.
Proof.
  intros Hp Hs Hlen Hr. unfold new_pending_query. rewrite Hp. destruct pkt as [p q].
  destruct (decide (live = [])) as [->|Hne]; [by eexists|].
  destruct (pick_upstream_Value nq r live b m) as [i Hi]; [done..|].
  pose proof (pick_upstream_member _ _ _ _ _ _ Hi) as Hin. rewrite Hi. simpl.
  rewrite decide_False by (intros Hl; by apply Hs, nil_length_inv).
  destruct (findex_lt socks (sock mod length socks)) as (x & -> & _).
  { apply Nat.mod_upper_bound. intros Hl. by apply Hs, nil_length_inv. }
  by eexists.
Qed.

Section Policies.
Context `{JumpHasher}.

(** C15: [pick_upstream] returns the error "All upstream
    servers are down" exactly when the live list is empty, whatever the
    policy; it never reports that error otherwise. *)
Theorem pick_upstream_all_down nq r live b m :
  pick_upstream nq r live b m = Value (inl ALL_DOWN) ↔ live = [].
Proof.
  split; [|intros ->; reflexivity].
  intros Hp. destruct live as [|j live]; [done|exfalso].
  rewrite pick_upstream_nonempty in Hp by done. destruct m.
  - done.
  - destruct (findex _ _); done.
  - destruct (busy_map_of r _); simpl in Hp; [|done].
    destruct (findex _ _); done.
Qed.

(** C14: every index [pick_upstream] returns, under every
    policy and on a first attempt or a retry, is a member of the live
    list. *)
Theorem pick_upstream_in_live nq r live b m i :
  pick_upstream nq r live b m = Value (inr i) → i ∈ live.
Proof. apply pick_upstream_member. Qed.

(** C20: on a non-empty live list of fewer than 2^32 indices
    that all name registered servers, [pick_upstream] never panics and
    returns an index, under every policy. *)
Theorem pick_upstream_total nq r live b m :
  live ≠ [] → Z.of_nat (length live) < 2 ^ 32 → live_in_range r live →
  ∃ i, pick_upstream nq r live b m = Value (inr i).
Proof. apply pick_upstream_Value. Qed.

(** C24: under [Fallback], the first attempt and the retry
    both go to the head of the live list, whatever the question and the
    loads; on an empty live list the error is returned. *)
Theorem pick_upstream_fallback nq r live b :
  pick_upstream nq r live b Fallback =
    match live with [] => Value (inl ALL_DOWN) | i :: _ => Value (inr i) end.
Proof. by destruct live. Qed.

(** C21: under [Uniform], with at least two distinct
    live servers (and fewer than 2^32), the retry goes to a server other
    than the one of the first attempt: the next slot of the live list. *)
Theorem pick_upstream_uniform_retry_differs nq r live a a' :
  NoDup live → (2 ≤ length live)%nat → Z.of_nat (length live) < 2 ^ 32 →
  pick_upstream nq r live false Uniform = Value (inr a) →
  pick_upstream nq r live true Uniform = Value (inr a') →
  a ≠ a'.
Proof.
  intros Hnd Hlen Hlt.
  assert (live ≠ []) by (intros ->; simpl in Hlen; lia).
  rewrite !pick_upstream_nonempty by done.
  rewrite uniform_index_retry.
  pose proof (uniform_index_lt (qname nq) (length live) false ltac:(lia) Hlt) as Hj.
  set (j := uniform_index (qname nq) (length live) false) in *.
  intros H1 H2 <-.
  destruct (findex live j) as [x|] eqn:E1; simpl in H1; [|done]. injection H1 as <-.
  destruct (findex live ((j + 1) mod length live)) eqn:E2; simpl in H2; [|done].
  injection H2 as ->.
  apply findex_Value in E1, E2.
  pose proof (NoDup_lookup _ _ _ _ Hnd E1 E2) as Hjj.
  destruct (decide (j + 1 = length live)%nat) as [Heq|Hne'].
  - rewrite Heq, Nat.Div0.mod_same in Hjj. lia.
  - rewrite Nat.mod_small in Hjj by lia. lia.
Qed.

(** C22: under [P2], the chosen server is live and at most
    one live server has strictly fewer pending queries: it is one of the
    two least loaded. *)
Theorem pick_upstream_p2_least_loaded nq r live b i :
  pick_upstream nq r live b P2 = Value (inr i) →
  i ∈ live ∧ (length (filter (λ j, (load_of r j < load_of r i)%Z) live) ≤ 1)%nat.
Proof.
  intros Hp. apply pick_upstream_p2_inv in Hp as (_ & p & Hp & ->); [|by intros ->].
  pose proof (elem_of_sorted_busy r live p ltac:(by eapply list_elem_of_lookup_2)) as [Hin Hload].
  split; [done|].
  pose proof (sorted_lighter_than_position _ _ _ (sort_by_key_sorted _) Hp) as Hle.
  rewrite (Permutation_length (filter_Permutation _ _ _ (sort_by_key_perm _))) in Hle.
  rewrite length_filter_map, Hload in Hle. simpl in Hle.
  pose proof (p2_index_le_1 (tid nq) b (length live)). lia.
Qed.

(** C23: under [P2], with at least two distinct live
    servers and unchanged loads, the retry goes to the other of the two
    least loaded servers, never to the server of the first attempt. *)
Theorem pick_upstream_p2_retry_alternate nq r live a a' :
  NoDup live → (2 ≤ length live)%nat →
  pick_upstream nq r live false P2 = Value (inr a) →
  pick_upstream nq r live true P2 = Value (inr a') →
  a ≠ a'.
Proof.
  intros Hnd Hlen H1 H2.
  assert (live ≠ []) as Hne by (intros ->; simpl in Hlen; lia).
  apply pick_upstream_p2_inv in H1 as (_ & p & Hp & ->); [|done].
  apply pick_upstream_p2_inv in H2 as (_ & p' & Hp' & ->); [|done].
  set (bs := sort_by_key (map (λ j, (j, load_of r j)) live)) in *.
  assert (NoDup (bs.*1)) as Hnd'.
  { unfold bs. rewrite (sort_by_key_perm _), <- list_fmap_compose.
    by rewrite list_fmap_id. }
  intros Heq. apply (p2_index_retry_ne (tid nq) (length live) Hlen).
  apply (NoDup_lookup _ _ _ p.1 Hnd'); rewrite list_lookup_fmap.
  - by rewrite Hp.
  - by rewrite Hp', Heq.
Qed.
End Policies.

(** ** Concrete runs *)

#[local] Existing Instance example_hasher.

Definition ex_server (ip load : Z) : UpstreamServer :=
  {| us_socket_addr := mkSocketAddr ip 53; pending_queries_count := load;
     failures := 0; offline := false; last_probe_ts := None; rtt_est_ms := 100 |}.

(** Three servers with loads 3, 0 and 1. *)
Definition ex_registry : Registry := [ex_server 1 3; ex_server 2 0; ex_server 3 1].

Definition ex_question : NormalizedQuestion :=
  {| qname := "example.com"; tid := 7; flags := 0; payload_size := 512;
     qtype := 1; qclass := 1; dnssec := false |}.

Example pick_p2_first : pick_upstream ex_question ex_registry [0; 1; 2]%nat false P2 = Value (inr 2%nat).
Proof. reflexivity. Qed.

Example pick_p2_retry : pick_upstream ex_question ex_registry [0; 1; 2]%nat true P2 = Value (inr 1%nat).
Proof. reflexivity. Qed.

Example pick_uniform_first : pick_upstream ex_question ex_registry [0; 1; 2]%nat false Uniform = Value (inr 2%nat).
Proof. reflexivity. Qed.

Example pick_uniform_retry : pick_upstream ex_question ex_registry [0; 1; 2]%nat true Uniform = Value (inr 0%nat).
Proof. reflexivity. Qed.

Lemma pick_upstream_in_live_witness :
  pick_upstream ex_question ex_registry [0; 1; 2]%nat false P2 = Value (inr 2%nat) ∧
  (2 ∈ [0; 1; 2])%nat.
Proof.
  split; [reflexivity|].
  apply (pick_upstream_in_live ex_question ex_registry [0; 1; 2]%nat false P2 2%nat).
  reflexivity.
Defined.

Lemma pick_upstream_total_witness :
  ∃ i, pick_upstream ex_question ex_registry [0; 1; 2]%nat true Uniform = Value (inr i).
Proof.
  apply pick_upstream_total.
  - discriminate.
  - simpl. lia.
  - repeat constructor; simpl; lia.
Defined.

Lemma pick_upstream_uniform_retry_differs_witness : (2 ≠ 0)%nat.
Proof.
  apply (pick_upstream_uniform_retry_differs ex_question ex_registry [0; 1; 2]%nat).
  - apply NoDup_ListNoDup. repeat constructor; simpl; lia.
  - simpl. lia.
  - simpl. lia.
  - reflexivity.
  - reflexivity.
Defined.

Lemma pick_upstream_p2_least_loaded_witness :
  (2 ∈ [0; 1; 2])%nat ∧
  (length (filter (λ j, (load_of ex_registry j < load_of ex_registry 2)%Z) [0; 1; 2]%nat) ≤ 1)%nat.
Proof.
  apply (pick_upstream_p2_least_loaded ex_question ex_registry [0; 1; 2]%nat false).
  reflexivity.
Defined.

Lemma pick_upstream_p2_retry_alternate_witness : (2 ≠ 1)%nat.
Proof.
  apply (pick_upstream_p2_retry_alternate ex_question ex_registry [0; 1; 2]%nat).
  - apply NoDup_ListNoDup. repeat constructor; simpl; lia.
  - simpl. lia.
  - reflexivity.
  - reflexivity.
Defined.
