(* ===== verification/PendingQuery.v ===== *)
(** * Pending queries and the pending table

    pending_query.rs: [PendingQueryKey] identifies a question (its
    normalised key and a custom hash, always [(0, 0)] in this version),
    [PendingQuery] is one upstream attempt shared by the [ClientQuery]s
    waiting for its answer, and [PendingQueries] is the table, a
    [HashMap<PendingQueryKey, PendingQuery>] behind a lock, modelled as a
    [gmap].  The one-shot sender [done_tx] is modelled by the identifier of
    its channel; the [Arc<Varz>] it holds is the handler's metrics.

    The lemmas relate the number of waiting clients of a table
    ([clients_total]) to its updates; the handler's invariant is stated
    with them. *)

From S2P Require Import Prelude Dns.
From stdpp Require Import base gmap list strings.
Open Scope Z_scope.

(** [PendingQueryKey]. *)
Record PendingQueryKey := {
  normalized_question_key : NormalizedQuestionKey;
  custom_hash : Z * Z
}.

#[export] Instance PendingQueryKey_eq_dec : EqDecision PendingQueryKey.
Proof. solve_decision. Defined.

#[export] Program Instance PendingQueryKey_countable : Countable PendingQueryKey :=
  inj_countable'
    (λ k, (normalized_question_key k, custom_hash k))
    (λ '(q, h), {| normalized_question_key := q; custom_hash := h |}) _.
Next Obligation. by intros []. Qed.

(** [PendingQueryKey::new]. *)
Definition PendingQueryKey_new (nqk : NormalizedQuestionKey) : PendingQueryKey :=
  {| normalized_question_key := nqk; custom_hash := (0, 0) |}.

(** A one-shot channel, by its identifier. *)
Definition Chan := nat.

(** [PendingQuery]: [pq_custom_hash] is its [custom_hash] field. *)
Record PendingQuery := {
  normalized_question_minimal : NormalizedQuestionMinimal;
  local_port : Z;
  client_queries : list ClientQuery;
  ts : Z;
  upstream_server_idx : nat;
  probed_socket_addr : option SocketAddr;
  done_tx : Chan;
  pq_custom_hash : Z * Z
}.

(** [PendingQuery::new]: one client, created now, nothing probed;
    [local_port] is [net_ext_udp_socket.local_addr().unwrap().port()]. *)
Definition PendingQuery_new (nqm : NormalizedQuestionMinimal) (upstream_server_idx : nat)
    (local_port : Z) (client_query : ClientQuery) (done_tx : Chan) (now : Z) : PendingQuery :=
  {| normalized_question_minimal := nqm;
     local_port := local_port;
     client_queries := [client_query];
     ts := now;
     upstream_server_idx := upstream_server_idx;
     probed_socket_addr := None;
     done_tx := done_tx;
     pq_custom_hash := (0, 0) |}.

(** [PendingQueries]. *)
Abbreviation PendingQueries := (gmap PendingQueryKey PendingQuery) (only parsing).

(** [PendingQueries::new]: an empty table. *)
Definition PendingQueries_new : PendingQueries := ∅.

(** ** Updates of a pending query *)

(** [pending_query.client_queries.push(client_query.clone())]. *)
Definition push_client (cq : ClientQuery) (pq : PendingQuery) : PendingQuery :=
  {| normalized_question_minimal := normalized_question_minimal pq;
     local_port := local_port pq;
     client_queries := client_queries pq ++ [cq];
     ts := ts pq;
     upstream_server_idx := upstream_server_idx pq;
     probed_socket_addr := probed_socket_addr pq;
     done_tx := done_tx pq;
     pq_custom_hash := pq_custom_hash pq |}.

(** [pending_query.probed_socket_addr = Some(addr)]. *)
Definition set_probed (addr : SocketAddr) (pq : PendingQuery) : PendingQuery :=
  {| normalized_question_minimal := normalized_question_minimal pq;
     local_port := local_port pq;
     client_queries := client_queries pq;
     ts := ts pq;
     upstream_server_idx := upstream_server_idx pq;
     probed_socket_addr := Some addr;
     done_tx := done_tx pq;
     pq_custom_hash := pq_custom_hash pq |}.

(** The five assignments of a retry ([fut_retry_query], lines 408-412):
    new minimal question, local port, timestamp, upstream and sender. *)
Definition retarget (nqm : NormalizedQuestionMinimal) (port : Z) (now : Z)
    (idx : nat) (tx : Chan) (pq : PendingQuery) : PendingQuery :=
  {| normalized_question_minimal := nqm;
     local_port := port;
     client_queries := client_queries pq;
     ts := now;
     upstream_server_idx := idx;
     probed_socket_addr := probed_socket_addr pq;
     done_tx := tx;
     pq_custom_hash := pq_custom_hash pq |}.

(** ** Clients of a table *)

(** The number of clients waiting on the table. *)
Definition clients_total (m : PendingQueries) : nat :=
  map_sum (λ pq, length (client_queries pq)) m.

(** Every pending query has at least one client. *)
Definition entries_nonempty (m : PendingQueries) : Prop :=
  map_Forall (λ _ pq, client_queries pq ≠ []) m.

Lemma clients_total_empty : clients_total ∅ = 0%nat.
Proof. apply (map_sum_empty (λ pq, length (client_queries pq))). Qed.

Lemma clients_total_insert_new m k pq :
  m !! k = None → clients_total (<[k:=pq]> m) = (length (client_queries pq) + clients_total m)%nat.
Proof. apply (map_sum_insert_new (λ pq, length (client_queries pq))). Qed.

Lemma clients_total_delete m k pq :
  m !! k = Some pq → clients_total m = (length (client_queries pq) + clients_total (delete k m))%nat.
Proof. apply (map_sum_delete (λ pq, length (client_queries pq))). Qed.

Lemma clients_total_push m k pq cq :
  m !! k = Some pq → clients_total (<[k:=push_client cq pq]> m) = S (clients_total m).
Proof.
  intros Hk. pose proof (map_sum_insert_replace (λ pq, length (client_queries pq))
                           m k pq (push_client cq pq) Hk) as E.
  simpl in E. rewrite length_app in E. simpl in E. unfold clients_total. lia.
Qed.

(** An update that keeps the clients keeps the total. *)
Lemma clients_total_replace m k pq pq' :
  m !! k = Some pq → client_queries pq' = client_queries pq →
  clients_total (<[k:=pq']> m) = clients_total m.
Proof.
  intros Hk Hc. pose proof (map_sum_insert_replace (λ pq, length (client_queries pq))
                              m k pq pq' Hk) as E.
  simpl in E. rewrite Hc in E. unfold clients_total. lia.
Qed.

Lemma clients_total_lookup_le m k pq :
  m !! k = Some pq → (length (client_queries pq) ≤ clients_total m)%nat.
Proof. apply (map_sum_lookup_le (λ pq, length (client_queries pq))). Qed.

(** A non-empty table has at least one client per entry. *)
Lemma clients_total_pos m k pq :
  entries_nonempty m → m !! k = Some pq → (1 ≤ length (client_queries pq))%nat.
Proof.
  intros Hne Hk. specialize (Hne k pq Hk). simpl in Hne.
  destruct (client_queries pq); simpl; [done|lia].
Qed.

Lemma entries_nonempty_insert m k pq :
  entries_nonempty m → client_queries pq ≠ [] → entries_nonempty (<[k:=pq]> m).
Proof. intros Hm Hpq. by apply map_Forall_insert_2. Qed.

Lemma entries_nonempty_delete m k :
  entries_nonempty m → entries_nonempty (delete k m).
Proof. intros Hm. by apply map_Forall_delete. Qed.

Lemma push_client_nonempty cq pq : client_queries (push_client cq pq) ≠ [].
Proof. simpl. by destruct (client_queries pq). Qed.

Lemma PendingQuery_new_clients nqm idx port cq tx now :
  client_queries (PendingQuery_new nqm idx port cq tx now) = [cq].
Proof. reflexivity. Qed.

#[export] Hint Resolve entries_nonempty_insert entries_nonempty_delete
  push_client_nonempty : edgedns.
