(* ===== verification/Probe.v ===== *)
(** * The probe sender

    [ClientQueriesHandler::maybe_send_probe_to_offline_servers]
    (client_queries_handler.rs, lines 178-217): when a new pending query is
    created, one server of the query's candidate list is drawn at random
    and, unless it was probed less than [UPSTREAM_PROBES_DELAY_MS] ago, it
    is stamped with the current time and sent the query packet on the same
    outbound socket.

    The candidates are the servers of [upstream_servers_for_query] found in
    the registry: the [filter_map] keeps every configured server, whether
    it is offline or not.  The stamp is written to the registry entry
    (through the [&mut HashMap] the function receives); the source's
    [Some(&upstream_server)] pattern takes a copy of the entry, which does
    not compile with the mutation that follows, and the evident intent is
    modelled.  The random draw is [rnd_probe], taken modulo the number of
    candidates.  The outcome of [send_to] (lines 214-216) is the input
    [send_ok]: on [Ok] the probe is recorded as a datagram and the probed
    address is returned; on [Err] nothing leaves the socket and the
    function returns the error, so the caller (line 276) leaves
    [probed_socket_addr] unset; the stamp of line 213 is written before the
    send and stays in both cases. *)

From S2P Require Import Prelude Dns Upstream.
From stdpp Require Import base gmap list strings.
Open Scope Z_scope.

(** The [filter_map] of lines 188-197. *)
Fixpoint configured_candidates (r : Registry) (usfq : list UpstreamServerForQuery)
    : list UpstreamServer :=
  match usfq with
  | [] => []
  | u :: usfq' =>
      match registry_get r (socket_addr u) with
      | Some s => s :: configured_candidates r usfq'
      | None => configured_candidates r usfq'
      end
  end.

(** The registry after the call, the probe sent, and the probed address. *)
Definition ProbeResult := (Registry * option Datagram * option SocketAddr)%type.

Definition maybe_send_probe_to_offline_servers (now : Z) (rnd_probe : nat) (send_ok : bool)
    (query_packet : Packet) (upstream_servers_for_query : list UpstreamServerForQuery)
    (upstream_servers : Registry) (local_port : Z) : Fallible ProbeResult :=
  if decide (upstream_servers_for_query = []) then mret (upstream_servers, None, None) else
  let offline_servers := configured_candidates upstream_servers upstream_servers_for_query in
  if decide (offline_servers = []) then mret (upstream_servers, None, None) else
  random_offline_server ← findex offline_servers (rnd_probe mod length offline_servers)%nat;
  let rate_limited :=
    match last_probe_ts random_offline_server with
    | Some last => bool_decide (now - last < UPSTREAM_PROBES_DELAY_MS)
    | None => false
    end in
  if rate_limited then mret (upstream_servers, None, None) else
  let a := us_socket_addr random_offline_server in
  let upstream_servers' := registry_alter (set_last_probe_ts now) a upstream_servers in
  if send_ok then
    mret (upstream_servers', Some {| dg_port := local_port; dg_to := a; dg_packet := query_packet |},
          Some a)
  else mret (upstream_servers', None, None).

(** The stamp [o'] comes after [o]: the same, a first one, or one at
    least [UPSTREAM_PROBES_DELAY_MS] later; a stamp is never removed. *)
Definition stamp_after (o o' : option Z) : Prop :=
  match o, o' with
  | None, _ => True
  | Some _, None => False
  | Some t, Some t' => t' = t ∨ t + UPSTREAM_PROBES_DELAY_MS ≤ t'
  end.

Definition stamps_after (r r' : Registry) : Prop := ∀ a, stamp_after (stamp r a) (stamp r' a).

(** ** Lemmas *)

#[export] Instance stamps_after_preorder : PreOrder stamps_after.
Proof.
  split.
  - intros r a. destruct (stamp r a); simpl; auto.
  - intros r1 r2 r3 H12 H23 a. specialize (H12 a). specialize (H23 a).
    destruct (stamp r1 a), (stamp r2 a), (stamp r3 a); simpl in *; try done.
    unfold UPSTREAM_PROBES_DELAY_MS in *. lia.
Qed.

Lemma stamps_after_alter f a r r' :
  keeps_addr f → keeps_probe f → stamps_after r r' → stamps_after r (registry_alter f a r').
Proof. intros Hf Hp Hr b. by rewrite stamp_alter. Qed.

Lemma configured_candidates_get r usfq s :
  s ∈ configured_candidates r usfq → registry_get r (us_socket_addr s) = Some s.
Proof.
  induction usfq as [|u usfq IH]; simpl; [by intros ?%elem_of_nil|].
  destruct (registry_get r (socket_addr u)) as [s'|] eqn:E; [|done].
  intros [->|Hin]%elem_of_cons; [|by apply IH].
  by destruct (registry_get_Some _ _ _ E) as [_ ->].
Qed.

Lemma configured_candidates_in_query r usfq s :
  s ∈ configured_candidates r usfq → ∃ u, u ∈ usfq ∧ socket_addr u = us_socket_addr s.
Proof.
  induction usfq as [|u usfq IH]; simpl; [by intros ?%elem_of_nil|].
  destruct (registry_get r (socket_addr u)) as [s'|] eqn:E.
  - intros [->|Hin]%elem_of_cons.
    + exists u. split; [left|]. by destruct (registry_get_Some _ _ _ E) as [_ ->].
    + destruct (IH Hin) as (u' & ? & ?). exists u'. split; [by right|done].
  - intros Hin. destruct (IH Hin) as (u' & ? & ?). exists u'. split; [by right|done].
Qed.

(** The shape of every run: either nothing happens, or one configured
    candidate [s] is stamped and, when the send succeeds, probed. *)
Lemma maybe_send_probe_cases now rnd ok pkt usfq r port res :
  maybe_send_probe_to_offline_servers now rnd ok pkt usfq r port = Value res →
  res = (r, None, None) ∨
  ∃ s, s ∈ configured_candidates r usfq ∧
       (∀ t, last_probe_ts s = Some t → UPSTREAM_PROBES_DELAY_MS ≤ now - t) ∧
       res = (registry_alter (set_last_probe_ts now) (us_socket_addr s) r,
              if ok then Some {| dg_port := port; dg_to := us_socket_addr s; dg_packet := pkt |}
              else None,
              if ok then Some (us_socket_addr s) else None).
Proof.
  unfold maybe_send_probe_to_offline_servers.
  case_decide; [intros [= <-]; by left|].
  case_decide; [intros [= <-]; by left|].
  destruct (findex _ _) as [s|] eqn:Hs; simpl; [|done].
  apply findex_Value, list_elem_of_lookup_2 in Hs.
  destruct (last_probe_ts s) as [t|] eqn:Ht.
  - case_bool_decide; [intros [= <-]; by left|].
    intros Hres. right. exists s. split; [done|].
    split; [|by destruct ok; injection Hres as <-].
    intros t' Ht'. rewrite Ht in Ht'. injection Ht' as <-. lia.
  - intros Hres. right. exists s. split; [done|].
    split; [|by destruct ok; injection Hres as <-]. intros t' Ht'. congruence.
Qed.

Lemma maybe_send_probe_wf now rnd ok pkt usfq r port r' dg a :
  registry_wf r →
  maybe_send_probe_to_offline_servers now rnd ok pkt usfq r port = Value (r', dg, a) →
  registry_wf r'.
Proof.
  intros Hwf Hp. apply maybe_send_probe_cases in Hp as [[= -> _ _]|(s & _ & _ & [= -> _ _])];
    [done|]. apply registry_alter_wf; auto with edgedns.
Qed.

(** The probe moves at most one stamp, to a time at least the delay
    after the previous one. *)
Lemma maybe_send_probe_stamps now rnd ok pkt usfq r port r' dg a :
  maybe_send_probe_to_offline_servers now rnd ok pkt usfq r port = Value (r', dg, a) →
  stamps_after r r'.
Proof.
  intros Hp. apply maybe_send_probe_cases in Hp as [[= -> _ _]|(s & Hin & Hrate & [= -> _ _])];
    [reflexivity|]. intros b. unfold stamp.
  destruct (decide (us_socket_addr s = b)) as [<-|Hne].
  - rewrite registry_get_alter_eq, (configured_candidates_get _ _ _ Hin) by auto with edgedns.
    simpl. destruct (last_probe_ts s) as [t|] eqn:Ht; simpl; [|done]. right. specialize (Hrate t eq_refl). lia.
  - rewrite registry_get_alter_ne by auto with edgedns. destruct (registry_get r b ≫= _); simpl; auto.
Qed.

(** ** Properties *)

(** The probe sender returns a result. *)
Lemma maybe_send_probe_Value now rnd ok pkt usfq r port :
  ∃ res, maybe_send_probe_to_offline_servers now rnd ok pkt usfq r port = Value res.
Proof.
  unfold maybe_send_probe_to_offline_servers.
  case_decide; [by eexists|]. case_decide as Hne; [by eexists|].
  destruct (findex_lt (configured_candidates r usfq)
              (rnd mod length (configured_candidates r usfq))) as (s & -> & _).
  { apply Nat.mod_upper_bound. intros Hl. by apply Hne, nil_length_inv. }
  simpl. destruct (last_probe_ts s); [case_bool_decide|]; destruct ok; by eexists.
Qed.

(** C26: the probe sender never panics: the random draw always
    falls among the candidates. *)
Theorem maybe_send_probe_total now rnd ok pkt usfq r port :
  ∃ res, maybe_send_probe_to_offline_servers now rnd ok pkt usfq r port = Value res.
Proof. apply maybe_send_probe_Value. Qed.

(** C25: a probe goes to a configured server of the query that
    was not probed in the last [UPSTREAM_PROBES_DELAY_MS]; the server is
    stamped with the current time, the probe carries the query packet from
    the attempt's socket, and no other server of the registry changes. *)
Theorem maybe_send_probe_rate_limited now rnd ok pkt usfq r port r' dg a :
  maybe_send_probe_to_offline_servers now rnd ok pkt usfq r port = Value (r', Some dg, Some a) →
  ∃ s, registry_get r a = Some s ∧ (∃ u, u ∈ usfq ∧ socket_addr u = a) ∧
       (∀ t, last_probe_ts s = Some t → UPSTREAM_PROBES_DELAY_MS ≤ now - t) ∧
       registry_get r' a = Some (set_last_probe_ts now s) ∧
       dg = {| dg_port := port; dg_to := a; dg_packet := pkt |} ∧
       (∀ b, b ≠ a → registry_get r' b = registry_get r b).
Proof.
  intros Hp. apply maybe_send_probe_cases in Hp as [[=]|(s & Hin & Hdel & Hres)].
  destruct ok; [|discriminate Hres]. injection Hres as -> -> ->.
  exists s. pose proof (configured_candidates_get _ _ _ Hin) as Hget.
  split; [done|]. split; [by apply (configured_candidates_in_query r)|].
  split; [done|]. split; [|split; [done|]].
  - rewrite registry_get_alter_eq, Hget by auto with edgedns. done.
  - intros b Hb. apply registry_get_alter_ne; [auto with edgedns|done].
Qed.

(** ** Concrete runs *)

Definition ex_probe_server (ip : Z) (off : bool) (probed : option Z) : UpstreamServer :=
  {| us_socket_addr := mkSocketAddr ip 53; pending_queries_count := 0; failures := 0;
     offline := off; last_probe_ts := probed; rtt_est_ms := 100 |}.

(** Server 1 is online, server 2 is offline and was probed at time 0. *)
Definition ex_probe_registry : Registry :=
  [ex_probe_server 1 false None; ex_probe_server 2 true (Some 0)].

Definition ex_candidates : list UpstreamServerForQuery :=
  [{| socket_addr := mkSocketAddr 1 53 |}; {| socket_addr := mkSocketAddr 2 53 |}].

(** 500 ms after its last probe, the offline server is not probed again. *)
Example probe_too_early :
  maybe_send_probe_to_offline_servers 500 1 true [1; 2] ex_candidates ex_probe_registry 4000
  = Value (ex_probe_registry, None, None).
Proof. reflexivity. Qed.

(** The draw may also land on the online server 1, which is probed. *)
Example probe_online_server :
  maybe_send_probe_to_offline_servers 500 0 true [1; 2] ex_candidates ex_probe_registry 4000
  = Value ([set_last_probe_ts 500 (ex_probe_server 1 false None); ex_probe_server 2 true (Some 0)],
           Some {| dg_port := 4000; dg_to := mkSocketAddr 1 53; dg_packet := [1; 2] |},
           Some (mkSocketAddr 1 53)).
Proof. reflexivity. Qed.

(** When the send fails the server is stamped all the same, but no probe
    leaves and no address is returned. *)
Example probe_send_fails :
  maybe_send_probe_to_offline_servers 500 0 false [1; 2] ex_candidates ex_probe_registry 4000
  = Value ([set_last_probe_ts 500 (ex_probe_server 1 false None); ex_probe_server 2 true (Some 0)],
           None, None).
Proof. reflexivity. Qed.

Lemma maybe_send_probe_rate_limited_witness :
  ∃ s, registry_get ex_probe_registry (mkSocketAddr 2 53) = Some s ∧
       (∃ u, u ∈ ex_candidates ∧ socket_addr u = mkSocketAddr 2 53) ∧
       (∀ t, last_probe_ts s = Some t → UPSTREAM_PROBES_DELAY_MS ≤ 1500 - t) ∧
       registry_get (registry_alter (set_last_probe_ts 1500) (mkSocketAddr 2 53) ex_probe_registry)
         (mkSocketAddr 2 53) = Some (set_last_probe_ts 1500 s) ∧
       {| dg_port := 4000; dg_to := mkSocketAddr 2 53; dg_packet := [1; 2] |} =
         {| dg_port := 4000; dg_to := mkSocketAddr 2 53; dg_packet := [1; 2] |} ∧
       (∀ b, b ≠ mkSocketAddr 2 53 →
          registry_get (registry_alter (set_last_probe_ts 1500) (mkSocketAddr 2 53) ex_probe_registry) b
          = registry_get ex_probe_registry b).
Proof.
  apply (maybe_send_probe_rate_limited 1500 1 true [1; 2] ex_candidates ex_probe_registry 4000).
  vm_compute. reflexivity.
Defined.
