(* ===== verification/HandlerState.v ===== *)
(** * The state of the client queries handler

    [ClientQueriesHandler] (client_queries_handler.rs, lines 41-54) holds
    shared handles: the pending table, the registry and its live list, the
    waiting-client counter, the cache, the timer wheel, the sockets and the
    metrics.  [HState] gathers what those handles point to, with the
    asynchronous machinery made explicit:
    - [timers]: the armed [timer.timeout(done_rx, d)] futures, each with
      the data its [or_else] closure captured;
    - [chans]: the state of each one-shot channel ([done_tx]/[done_rx]):
      open, sent, or dropped (its sender was dropped without sending, which
      the timeout future reports as an error, as it does a timeout);
    - [now]: the coarse clock, in milliseconds;
    - [upstream_out], [client_out]: the datagrams sent upstream and the
      responses sent to clients, oldest first.
    The configuration and the outbound sockets do not change: they are
    parameters of the handler's functions. *)

From S2P Require Import Prelude Dns Upstream LoadBalancer PendingQuery.
From stdpp Require Import base gmap list strings.
Open Scope Z_scope.

(** [config::Config]: the options the core reads. *)
Record Config := {
  max_waiting_clients : Z;
  max_active_queries : Z;
  lbmode : LoadBalancingMode;
  upstream_max_failures : Z
}.

(** [varz::Varz]: the counters of the core. *)
Record Varz := {
  inflight_queries : Z;
  upstream_sent : Z;
  upstream_timeout : Z;
  client_queries_offline : Z
}.

(** Which closure a timer runs: the one of [fut_process_client_query]
    (lines 314-331) or the one of [fut_retry_query] (lines 434-467). *)
Inductive Stage := FirstAttempt | RetryAttempt.

#[export] Instance Stage_eq_dec : EqDecision Stage.
Proof. solve_decision. Defined.

(** An armed timeout: the receiver it races, its deadline, and what its
    closure captured (the key, the upstream address, the question and the
    candidate list). *)
Record Timer := {
  tm_rx : Chan;
  tm_deadline : Z;
  tm_stage : Stage;
  tm_key : PendingQueryKey;
  tm_addr : SocketAddr;
  tm_question : NormalizedQuestion;
  tm_servers_for_query : list UpstreamServerForQuery
}.

Inductive ChanState := ChanOpen | ChanSent | ChanDropped.

#[export] Instance ChanState_eq_dec : EqDecision ChanState.
Proof. solve_decision. Defined.

Record HState := {
  pending_queries : PendingQueries;
  upstream_servers : Registry;
  upstream_servers_live : list nat;
  waiting_clients_count : Z;
  cache : Cache;
  timers : list Timer;
  chans : gmap Chan ChanState;
  next_chan : Chan;
  now : Z;
  upstream_out : list Datagram;
  client_out : list (nat * Packet);
  varz : Varz
}.

(** The fields of [ResolverCore] (resolver.rs) that [ClientQueriesHandler::new]
    takes over: the handler shares them with the resolver ([Rc]/[Arc]
    clones), so the handler's state is the resolver's. *)
Record ResolverCore := {
  core_cache : Cache;
  core_pending_queries : PendingQueries;
  core_upstream_servers : Registry;
  core_upstream_servers_live : list nat;
  core_waiting_clients_count : Z;
  core_varz : Varz
}.

(** [ClientQueriesHandler::new] (lines 74-94): the shared state of the
    core, a new timer wheel (no timer armed; its capacity is
    [max_active_queries], used by [arm_timer]) and nothing sent yet. *)
Definition ClientQueriesHandler_new (resolver_core : ResolverCore) : HState :=
  {| pending_queries := core_pending_queries resolver_core;
     upstream_servers := core_upstream_servers resolver_core;
     upstream_servers_live := core_upstream_servers_live resolver_core;
     waiting_clients_count := core_waiting_clients_count resolver_core;
     cache := core_cache resolver_core;
     timers := []; chans := ∅; next_chan := 0%nat; now := 0;
     upstream_out := []; client_out := [];
     varz := core_varz resolver_core |}.

(** ** Field updates *)

Definition set_pending_queries (x : PendingQueries) (st : HState) : HState :=
  {| pending_queries := x; upstream_servers := upstream_servers st; upstream_servers_live := upstream_servers_live st; waiting_clients_count := waiting_clients_count st; cache := cache st; timers := timers st; chans := chans st; next_chan := next_chan st; now := now st; upstream_out := upstream_out st; client_out := client_out st; varz := varz st |}.

Definition set_upstream_servers (x : Registry) (st : HState) : HState :=
  {| pending_queries := pending_queries st; upstream_servers := x; upstream_servers_live := upstream_servers_live st; waiting_clients_count := waiting_clients_count st; cache := cache st; timers := timers st; chans := chans st; next_chan := next_chan st; now := now st; upstream_out := upstream_out st; client_out := client_out st; varz := varz st |}.

Definition set_upstream_servers_live (x : list nat) (st : HState) : HState :=
  {| pending_queries := pending_queries st; upstream_servers := upstream_servers st; upstream_servers_live := x; waiting_clients_count := waiting_clients_count st; cache := cache st; timers := timers st; chans := chans st; next_chan := next_chan st; now := now st; upstream_out := upstream_out st; client_out := client_out st; varz := varz st |}.

Definition set_waiting_clients_count (x : Z) (st : HState) : HState :=
  {| pending_queries := pending_queries st; upstream_servers := upstream_servers st; upstream_servers_live := upstream_servers_live st; waiting_clients_count := x; cache := cache st; timers := timers st; chans := chans st; next_chan := next_chan st; now := now st; upstream_out := upstream_out st; client_out := client_out st; varz := varz st |}.

Definition set_cache (x : Cache) (st : HState) : HState :=
  {| pending_queries := pending_queries st; upstream_servers := upstream_servers st; upstream_servers_live := upstream_servers_live st; waiting_clients_count := waiting_clients_count st; cache := x; timers := timers st; chans := chans st; next_chan := next_chan st; now := now st; upstream_out := upstream_out st; client_out := client_out st; varz := varz st |}.

Definition set_timers (x : list Timer) (st : HState) : HState :=
  {| pending_queries := pending_queries st; upstream_servers := upstream_servers st; upstream_servers_live := upstream_servers_live st; waiting_clients_count := waiting_clients_count st; cache := cache st; timers := x; chans := chans st; next_chan := next_chan st; now := now st; upstream_out := upstream_out st; client_out := client_out st; varz := varz st |}.

Definition set_chans (x : gmap Chan ChanState) (st : HState) : HState :=
  {| pending_queries := pending_queries st; upstream_servers := upstream_servers st; upstream_servers_live := upstream_servers_live st; waiting_clients_count := waiting_clients_count st; cache := cache st; timers := timers st; chans := x; next_chan := next_chan st; now := now st; upstream_out := upstream_out st; client_out := client_out st; varz := varz st |}.

Definition set_next_chan (x : Chan) (st : HState) : HState :=
  {| pending_queries := pending_queries st; upstream_servers := upstream_servers st; upstream_servers_live := upstream_servers_live st; waiting_clients_count := waiting_clients_count st; cache := cache st; timers := timers st; chans := chans st; next_chan := x; now := now st; upstream_out := upstream_out st; client_out := client_out st; varz := varz st |}.

Definition set_now (x : Z) (st : HState) : HState :=
  {| pending_queries := pending_queries st; upstream_servers := upstream_servers st; upstream_servers_live := upstream_servers_live st; waiting_clients_count := waiting_clients_count st; cache := cache st; timers := timers st; chans := chans st; next_chan := next_chan st; now := x; upstream_out := upstream_out st; client_out := client_out st; varz := varz st |}.

Definition set_upstream_out (x : list Datagram) (st : HState) : HState :=
  {| pending_queries := pending_queries st; upstream_servers := upstream_servers st; upstream_servers_live := upstream_servers_live st; waiting_clients_count := waiting_clients_count st; cache := cache st; timers := timers st; chans := chans st; next_chan := next_chan st; now := now st; upstream_out := x; client_out := client_out st; varz := varz st |}.

Definition set_client_out (x : list (nat * Packet)) (st : HState) : HState :=
  {| pending_queries := pending_queries st; upstream_servers := upstream_servers st; upstream_servers_live := upstream_servers_live st; waiting_clients_count := waiting_clients_count st; cache := cache st; timers := timers st; chans := chans st; next_chan := next_chan st; now := now st; upstream_out := upstream_out st; client_out := x; varz := varz st |}.

Definition set_varz (x : Varz) (st : HState) : HState :=
  {| pending_queries := pending_queries st; upstream_servers := upstream_servers st; upstream_servers_live := upstream_servers_live st; waiting_clients_count := waiting_clients_count st; cache := cache st; timers := timers st; chans := chans st; next_chan := next_chan st; now := now st; upstream_out := upstream_out st; client_out := client_out st; varz := x |}.

Definition incr_inflight (v : Varz) : Varz :=
  {| inflight_queries := inflight_queries v + 1; upstream_sent := upstream_sent v;
     upstream_timeout := upstream_timeout v; client_queries_offline := client_queries_offline v |}.
Definition decr_inflight (v : Varz) : Varz :=
  {| inflight_queries := inflight_queries v - 1; upstream_sent := upstream_sent v;
     upstream_timeout := upstream_timeout v; client_queries_offline := client_queries_offline v |}.
Definition incr_upstream_sent (v : Varz) : Varz :=
  {| inflight_queries := inflight_queries v; upstream_sent := upstream_sent v + 1;
     upstream_timeout := upstream_timeout v; client_queries_offline := client_queries_offline v |}.
Definition incr_upstream_timeout (v : Varz) : Varz :=
  {| inflight_queries := inflight_queries v; upstream_sent := upstream_sent v;
     upstream_timeout := upstream_timeout v + 1; client_queries_offline := client_queries_offline v |}.
Definition incr_offline (v : Varz) : Varz :=
  {| inflight_queries := inflight_queries v; upstream_sent := upstream_sent v;
     upstream_timeout := upstream_timeout v; client_queries_offline := client_queries_offline v + 1 |}.

(** ** Primitive effects *)

Abbreviation Handler := (Exec HState) (only parsing).

Definition modify_varz (f : Varz → Varz) : Handler unit :=
  modify_st (λ st, set_varz (f (varz st)) st).

Definition modify_registry (f : Registry → Registry) : Handler unit :=
  modify_st (λ st, set_upstream_servers (f (upstream_servers st)) st).

Definition modify_pending (f : PendingQueries → PendingQueries) : Handler unit :=
  modify_st (λ st, set_pending_queries (f (pending_queries st)) st).

(** [waiting_clients_count.fetch_add(n, Relaxed)] / [fetch_sub]. *)
Definition fetch_add_waiting (n : Z) : Handler unit :=
  modify_st (λ st, set_waiting_clients_count (waiting_clients_count st +w n)%edns st).
Definition fetch_sub_waiting (n : Z) : Handler unit :=
  modify_st (λ st, set_waiting_clients_count (waiting_clients_count st -w n)%edns st).

(** [oneshot::channel()]: a fresh open channel. *)
Definition fresh_chan : Handler Chan :=
  st ← get_st;
  let c := next_chan st in
  put_st (set_next_chan (S c) (set_chans (<[c:=ChanOpen]> (chans st)) st));;
  mret c.

(** [done_tx.send(())]. *)
Definition send_done (c : Chan) : Handler unit :=
  modify_st (λ st, set_chans (<[c:=ChanSent]> (chans st)) st).

(** Dropping an unsent [done_tx]. *)
Definition drop_in (m : gmap Chan ChanState) (c : Chan) : gmap Chan ChanState :=
  match m !! c with
  | Some ChanOpen => <[c:=ChanDropped]> m
  | _ => m
  end.

Definition drop_sender (c : Chan) : Handler unit :=
  modify_st (λ st, set_chans (drop_in (chans st) c) st).

(** [net_ext_udp_socket.send_to(packet, addr)]; errors are ignored by the
    code and sends are modelled as delivered to the socket. *)
Definition send_upstream (dg : Datagram) : Handler unit :=
  modify_st (λ st, set_upstream_out (upstream_out st ++ [dg]) st).

(** [client_query.response_send(packet, ...)]. *)
Definition response_send (cq : ClientQuery) (packet : Packet) : Handler unit :=
  modify_st (λ st, set_client_out (client_out st ++ [(cq_id cq, packet)]) st).

(** [self.timer.timeout(done_rx, Duration::from_millis(d))]: a wheel at
    capacity ([max_active_queries]) makes the timeout fail at once, which
    the closure handles as a timeout. *)
Definition arm_timer (config : Config) (stage : Stage) (rx : Chan) (d : Z) (key : PendingQueryKey)
    (addr : SocketAddr) (nq : NormalizedQuestion) (usfq : list UpstreamServerForQuery) : Handler unit :=
  modify_st (λ st,
    let deadline :=
      if bool_decide (max_active_queries config <= Z.of_nat (length (timers st)))
      then now st else now st + d in
    set_timers (timers st ++ [{| tm_rx := rx; tm_deadline := deadline; tm_stage := stage;
                                 tm_key := key; tm_addr := addr; tm_question := nq;
                                 tm_servers_for_query := usfq |}]) st).

(** Run a [wp] goal through the handler's effects. *)
Ltac unfold_effects :=
  progress unfold modify_pending, modify_varz, modify_registry, fetch_add_waiting,
    fetch_sub_waiting, fresh_chan, send_done, drop_sender, send_upstream,
    response_send, arm_timer.

Ltac hwp := repeat (wp_step || unfold_effects).

Ltac hwpt := repeat (wpt_step || unfold_effects).
