(* ===== verification/Handler.v ===== *)
(** * The client queries handler

    The methods of [ClientQueriesHandler] (client_queries_handler.rs),
    each a program of the [Handler] monad ([Exec HState]): it reads and
    writes the handler's state, and panics where the Rust code panics.
    The two [or_else] closures, which run when a timeout future fails
    (the deadline passed, or the sender of its channel was dropped), are
    [on_first_timeout] and [on_retry_timeout].  The random draws of a run
    (the upstream transaction id, the outbound socket, the probed server)
    are the fields of [Rand].

    [dispatch_upstream_response] is the success path: the dispatcher of
    upstream responses (resolver.rs) is not among the modelled sources and
    is modelled from the specification. *)

From S2P Require Import Prelude Dns Upstream LoadBalancer PendingQuery Probe HandlerState.
From stdpp Require Import base gmap list strings.
Open Scope Z_scope.

(** The key of a question ([PendingQueryKey] built at lines 226-229 and
    342-345): its normalised key, with no custom hash. *)
Definition query_key (nq : NormalizedQuestion) : PendingQueryKey :=
  {| normalized_question_key := key nq; custom_hash := (0, 0) |}.

(** The random draws of one run of the handler, and the outcome of the
    probe's [send_to] ([true] for [Ok]). *)
Record Rand := { rnd_tid : Z; rnd_socket : nat; rnd_probe : nat; rnd_probe_ok : bool }.

Section Handler.
Context `{DnsCodec} `{JumpHasher}.
(** The configuration and the local ports of [net_ext_udp_sockets]. *)
Context (config : Config) (net_ext_udp_sockets : list Z).

(** [cap_pending_queries] (lines 113-130): at the admission limit, the
    first entry in the table's iteration order is evicted; its sender
    is dropped with it. *)
Definition cap_pending_queries : Handler bool :=
  st ← get_st;
  if bool_decide (waiting_clients_count st < max_waiting_clients config) then mret false else
  match map_to_list (pending_queries st) with
  | [] => mret false
  | (key, _) :: _ =>
      match pending_queries st !! key with
      | None => mret true
      | Some pending_query =>
          modify_pending (delete key);;
          modify_varz decr_inflight;;
          let clients_count := Z.of_nat (length (client_queries pending_query)) in
          let prev_count := waiting_clients_count st in
          fetch_sub_waiting clients_count;;
          if bool_decide (clients_count <= prev_count) then
            drop_sender (done_tx pending_query);; mret true
          else panic "assertion failed: prev_count >= clients_count"
      end
  end.

(** [maybe_add_to_existing_pending_query] (lines 132-146). *)
Definition maybe_add_to_existing_pending_query (pending_query_key : PendingQueryKey)
    (client_query : ClientQuery) : Handler bool :=
  st ← get_st;
  match pending_queries st !! pending_query_key with
  | None => mret false
  | Some pending_query =>
      modify_pending <[pending_query_key := push_client client_query pending_query]>;;
      fetch_add_waiting 1;;
      mret true
  end.

(** [maybe_respond_with_stale_entry] (lines 148-165): the cached packet,
    even expired; else a SERVFAIL; else nothing. *)
Definition maybe_respond_with_stale_entry (client_query : ClientQuery) : Handler unit :=
  st ← get_st;
  let nq := normalized_question client_query in
  match cache_get2 (cache st) nq (cq_custom_hash client_query) with
  | Some packet => modify_varz incr_offline;; response_send client_query packet
  | None =>
      match build_servfail_packet nq with
      | Some packet => response_send client_query packet
      | None => mret tt
      end
  end.

(** The loop of [maybe_respond_to_all_clients_with_stale_entry]
    (lines 167-176). *)
Fixpoint respond_all_with_stale_entry (client_queries : list ClientQuery) : Handler unit :=
  match client_queries with
  | [] => mret tt
  | cq :: cqs => maybe_respond_with_stale_entry cq;; respond_all_with_stale_entry cqs
  end.

Definition maybe_respond_to_all_clients_with_stale_entry (pending_query : PendingQuery)
    : Handler unit :=
  respond_all_with_stale_entry (client_queries pending_query).

(** [fut_process_client_query] (lines 219-333), up to the arming of the
    timer; the [or_else] closure is [on_first_timeout].  The call
    [upstream_server.prepare_send(&self.config)] of line 284 is not
    modelled: it is a method of [upstream_server.rs], which is not part of
    the sources, and the specification does not describe it; the model
    assumes it changes none of the fields read here (the address, the
    counters, the probe stamp and [timeout_ms_est]). *)
Definition fut_process_client_query (client_query : ClientQuery) (rnd : Rand) : Handler unit :=
  st ← get_st;
  if decide (upstream_servers_live st = []) then maybe_respond_with_stale_entry client_query else
  let normalized_question := normalized_question client_query in
  let pkey := query_key normalized_question in
  _ ← cap_pending_queries;
  attached ← maybe_add_to_existing_pending_query pkey client_query;
  if (attached : bool) then mret tt else
  st ← get_st;
  res ← lift (new_pending_query normalized_question (upstream_servers st)
                (upstream_servers_live st) net_ext_udp_sockets false (lbmode config)
                (rnd_tid rnd) (rnd_socket rnd));
  match res with
  | inl _ => mret tt
  | inr (query_packet, normalized_question_minimal, upstream_server_idx, net_ext_udp_socket) =>
      probe ← lift (maybe_send_probe_to_offline_servers (now st) (rnd_probe rnd) (rnd_probe_ok rnd)
                query_packet
                (upstream_servers_for_query client_query) (upstream_servers st) net_ext_udp_socket);
      let '(servers, probe_dg, probe_socket_addr) := probe in
      modify_registry (λ _, servers);;
      (match probe_dg with Some dg => send_upstream dg | None => mret tt end);;
      upstream_server_for_query ←
        index_or_panic (upstream_servers_for_query client_query) upstream_server_idx;
      st ← get_st;
      let addr := socket_addr upstream_server_for_query in
      match registry_get (upstream_servers st) addr with
      | None => mret tt
      | Some upstream_server =>
          done_tx ← fresh_chan;
          let pending_query :=
            PendingQuery_new normalized_question_minimal upstream_server_idx
              net_ext_udp_socket client_query done_tx (now st) in
          fetch_add_waiting 1;;
          let pending_query :=
            match probe_socket_addr with
            | Some a => set_probed a pending_query
            | None => pending_query
            end in
          modify_varz incr_inflight;;
          modify_registry (registry_alter incr_pending addr);;
          modify_pending <[pkey := pending_query]>;;
          send_upstream {| dg_port := net_ext_udp_socket; dg_to := us_socket_addr upstream_server;
                           dg_packet := query_packet |};;
          modify_varz incr_upstream_sent;;
          arm_timer config FirstAttempt done_tx (timeout_ms_est (incr_pending upstream_server))
            pkey addr normalized_question (upstream_servers_for_query client_query)
      end
  end.

(** [fut_process_stream] (lines 96-111): the client queries of the
    listeners' channel, in order; [fut_process_client_query] runs its
    synchronous part when called, and the errors of the spawned futures
    are discarded ([map_err(|_| {})]); a panic stops the reactor. *)
Fixpoint fut_process_stream (client_queries : list (ClientQuery * Rand)) : Handler unit :=
  match client_queries with
  | [] => mret tt
  | (client_query, rnd) :: rest =>
      fut_process_client_query client_query rnd;; fut_process_stream rest
  end.

(** [fut_retry_query] (lines 335-471), up to the arming of the second
    timer; its [or_else] closure is [on_retry_timeout].  The statement
    [upstream_server.pending_queries_count.saturating_sub(1);] of line
    365 discards its result and changes nothing. *)
Definition fut_retry_query (normalized_question : NormalizedQuestion)
    (upstream_servers_for_query : list UpstreamServerForQuery) (rnd : Rand) : Handler unit :=
  st ← get_st;
  let pkey := query_key normalized_question in
  match pending_queries st !! pkey with
  | None => mret tt
  | Some pending_query =>
      upstream_server_for_query ←
        index_or_panic upstream_servers_for_query (upstream_server_idx pending_query);
      match registry_get (upstream_servers st) (socket_addr upstream_server_for_query) with
      | None => mret tt
      | Some _ =>
          nq ← lift (new_pending_query normalized_question (upstream_servers st)
                       (upstream_servers_live st) net_ext_udp_sockets true (lbmode config)
                       (rnd_tid rnd) (rnd_socket rnd));
          match nq with
          | inl _ => mret tt
          | inr (query_packet, normalized_question_minimal, upstream_server_idx,
                 net_ext_udp_socket) =>
              upstream_server_for_query ←
                index_or_panic upstream_servers_for_query upstream_server_idx;
              let addr := socket_addr upstream_server_for_query in
              match registry_get (upstream_servers st) addr with
              | None => mret tt
              | Some _ =>
                  modify_registry (registry_alter incr_pending addr);;
                  new_done_tx ← fresh_chan;
                  modify_pending <[pkey := retarget normalized_question_minimal net_ext_udp_socket
                                             (now st) upstream_server_idx new_done_tx pending_query]>;;
                  drop_sender (done_tx pending_query);;
                  send_upstream {| dg_port := net_ext_udp_socket; dg_to := addr;
                                   dg_packet := query_packet |};;
                  arm_timer config RetryAttempt new_done_tx UPSTREAM_QUERY_MAX_TIMEOUT_MS pkey addr
                    normalized_question upstream_servers_for_query
              end
          end
      end
  end.

(** The [or_else] closure of the first attempt (lines 314-331): one
    pending query less and one failure more for the server that timed
    out (when it is still configured), then the retry. *)
Definition on_first_timeout (t : Timer) (rnd : Rand) : Handler unit :=
  modify_registry (registry_alter (record_failure (upstream_max_failures config) ∘ decr_pending)
                     (tm_addr t));;
  fut_retry_query (tm_question t) (tm_servers_for_query t) rnd.

(** The [or_else] closure of the retry (lines 434-467): a timeout more;
    the server of the retry is charged a failure; the entry is removed
    and every waiting client gets a stale answer or a SERVFAIL. *)
Definition on_retry_timeout (t : Timer) : Handler unit :=
  modify_varz incr_upstream_timeout;;
  st ← get_st;
  match registry_get (upstream_servers st) (tm_addr t) with
  | None => mret tt
  | Some _ =>
      modify_registry (registry_alter (record_failure (upstream_max_failures config) ∘ decr_pending)
                         (tm_addr t));;
      st ← get_st;
      match pending_queries st !! tm_key t with
      | None => mret tt
      | Some pending_query =>
          modify_pending (delete (tm_key t));;
          modify_varz decr_inflight;;
          maybe_respond_to_all_clients_with_stale_entry pending_query;;
          send_done (done_tx pending_query);;
          fetch_sub_waiting (Z.of_nat (length (client_queries pending_query)))
      end
  end.

(** The response dispatcher: the answer goes to every waiting client,
    the entry is removed, its sender fired, the counters updated, the
    responding server credited, and the answer cached. *)
Fixpoint respond_all (client_queries : list ClientQuery) (packet : Packet) : Handler unit :=
  match client_queries with
  | [] => mret tt
  | cq :: cqs => response_send cq packet;; respond_all cqs packet
  end.

Definition dispatch_upstream_response (pkey : PendingQueryKey) (from : SocketAddr)
    (packet : Packet) (rtt_ms : Z) : Handler unit :=
  st ← get_st;
  match pending_queries st !! pkey with
  | None => mret tt
  | Some pending_query =>
      modify_pending (delete pkey);;
      modify_varz decr_inflight;;
      respond_all (client_queries pending_query) packet;;
      send_done (done_tx pending_query);;
      fetch_sub_waiting (Z.of_nat (length (client_queries pending_query)));;
      modify_registry (registry_alter (record_success rtt_ms ∘ decr_pending) from);;
      modify_st (λ st, set_cache (<[(normalized_question_key pkey, custom_hash pkey) := packet]>
                                    (cache st)) st)
  end.
End Handler.
