(* ===== verification/Step.v ===== *)
(** * The handler as a transition system

    The reactor runs the handler's futures one at a time: a client query
    arriving on the channel of [fut_process_stream] (lines 96-111), a
    timeout future completing, an upstream response being dispatched, the
    clock advancing, or the health logic changing the live list.  Each is
    an [Event]; [handle_event] runs the code it triggers, and [step]
    relates two states when an enabled event leads from one to the other
    without a panic.

    A timeout future completes when its deadline has passed, or at once
    when its channel is settled: fired ([done_tx.send(())]: the future
    resolves with no effect) or dropped (its sender was dropped unsent:
    the future fails and its [or_else] closure runs, as for a timeout). *)

From S2P Require Import Prelude Dns Upstream LoadBalancer PendingQuery Probe HandlerState Handler.
From stdpp Require Import base gmap list strings.
Open Scope Z_scope.

Inductive Event :=
| ClientQueryIn (cq : ClientQuery) (rnd : Rand)
| TimerFires (i : nat) (rnd : Rand)
| UpstreamResponse (pkey : PendingQueryKey) (from : SocketAddr) (packet : Packet) (rtt_ms : Z)
| ClockTick (d : Z)
| LiveSetChange (live : list nat).

Section Step.
Context `{DnsCodec} `{JumpHasher}.
Context (config : Config) (net_ext_udp_sockets : list Z).

(** Whether the timeout future of [t] can complete now. *)
Definition timer_ready (st : HState) (t : Timer) : bool :=
  match chans st !! tm_rx t with
  | Some ChanSent | Some ChanDropped => true
  | _ => bool_decide (tm_deadline t <= now st)
  end.

(** The completion of a timeout future: nothing when [done_rx] won,
    else the [or_else] closure of its stage. *)
Definition fire_timer (t : Timer) (rnd : Rand) : Handler unit :=
  st ← get_st;
  match chans st !! tm_rx t with
  | Some ChanSent => mret tt
  | _ =>
      match tm_stage t with
      | FirstAttempt => on_first_timeout config net_ext_udp_sockets t rnd
      | RetryAttempt => on_retry_timeout config t
      end
  end.

Definition handle_event (ev : Event) : Handler unit :=
  match ev with
  | ClientQueryIn cq rnd => fut_process_client_query config net_ext_udp_sockets cq rnd
  | TimerFires i rnd =>
      st ← get_st;
      match timers st !! i with
      | None => mret tt
      | Some t => put_st (set_timers (delete i (timers st)) st);; fire_timer t rnd
      end
  | UpstreamResponse pkey from packet rtt_ms =>
      dispatch_upstream_response pkey from packet rtt_ms
  | ClockTick d => modify_st (λ st, set_now (now st + d) st)
  | LiveSetChange live => modify_st (set_upstream_servers_live live)
  end.

Definition event_enabled (st : HState) (ev : Event) : Prop :=
  match ev with
  | TimerFires i _ => ∃ t, timers st !! i = Some t ∧ timer_ready st t = true
  | ClockTick d => 0 <= d
  | _ => True
  end.

Inductive step : HState → HState → Prop :=
| step_event st ev st' :
    event_enabled st ev → handle_event ev st = Done tt st' → step st st'.

(** The state at start-up: a resolver core with the configured servers,
    all of them live, an empty table, a zero counter and zero metrics. *)
Definition initial_state (servers : Registry) (c : Cache) : HState :=
  ClientQueriesHandler_new
    {| core_cache := c; core_pending_queries := PendingQueries_new;
       core_upstream_servers := servers;
       core_upstream_servers_live := seq 0 (length servers);
       core_waiting_clients_count := 0;
       core_varz := {| inflight_queries := 0; upstream_sent := 0; upstream_timeout := 0;
                       client_queries_offline := 0 |} |}.

Definition reachable (servers : Registry) (c : Cache) (st : HState) : Prop :=
  rtc step (initial_state servers c) st.
End Step.
