(* ===== verification/HandlerInv.v ===== *)
(** * The handler's invariant

    The invariant [handler_inv] of the handler's state: the waiting-client
    counter equals the number of clients attached to pending queries, every
    pending query has a client, the counter stays within the admission
    bound [max(max_waiting_clients, 1)] (hence never wraps around), and the
    registry is a map whose counters are [u64] values.  Each operation of
    the handler is given a [wp] specification from which the preservation
    of the invariant by every event follows. *)

From S2P Require Import Prelude Dns Upstream LoadBalancer PendingQuery Probe HandlerState Handler Step.
From stdpp Require Import base gmap list strings.
Open Scope Z_scope.

(** Split [counters_ok] into its four parts. *)
Ltac split_ok := split; [|split; [|split]].

Section Invariant.
Context `{DnsCodec} `{JumpHasher}.
Context (config : Config) (net_ext_udp_sockets : list Z).

(** [max_waiting_clients] is a [usize]. *)
Hypothesis max_waiting_clients_u64 : in_u64 (max_waiting_clients config).

Definition admission_bound : Z := Z.max (max_waiting_clients config) 1.

(** The counter, the table and the registry agree; [slack] is the room
    left below the admission bound. *)
Definition counters_ok (slack : Z) (st : HState) : Prop :=
  waiting_clients_count st = Z.of_nat (clients_total (pending_queries st)) ∧
  entries_nonempty (pending_queries st) ∧
  waiting_clients_count st + slack ≤ admission_bound ∧
  registry_wf (upstream_servers st).

Definition handler_inv (st : HState) : Prop := counters_ok 0 st.

Lemma counters_ok_weaken slack slack' st :
  slack' ≤ slack → counters_ok slack st → counters_ok slack' st.
Proof. intros Hs (Hw & Hne & Hb & Hr). split; [done|]. split; [done|]. split; [lia|done]. Qed.

Lemma admission_bound_u64 : 1 ≤ admission_bound ≤ U64_MAX.
Proof. unfold admission_bound. unfold in_u64 in *. unfold U64_MAX, U64_MODULUS in *. lia. Qed.

(** Effects that touch neither the table, the counter nor the registry
    keep [counters_ok]. *)
Lemma counters_ok_frame slack st st' :
  pending_queries st' = pending_queries st →
  waiting_clients_count st' = waiting_clients_count st →
  upstream_servers st' = upstream_servers st →
  counters_ok slack st → counters_ok slack st'.
Proof. unfold counters_ok. intros -> -> ->. done. Qed.

(** Admission: after [cap_pending_queries] there is room for one more
    client. *)
Lemma cap_pending_queries_spec st :
  handler_inv st → wp (cap_pending_queries config) (λ _ st', counters_ok 1 st') st.
Proof.
  intros Hinv. pose proof admission_bound_u64.
  destruct Hinv as (Hw & Hne & Hb & Hr). unfold counters_ok.
  unfold admission_bound in *.
  unfold cap_pending_queries. hwp; simpl.
  - apply bool_decide_eq_true in E. split_ok; auto; lia.
  - apply bool_decide_eq_false in E.
    assert (pending_queries st = ∅) as Hemp by (by apply map_to_list_empty_iff).
    pose proof Hw as Hw0. rewrite Hemp, clients_total_empty in Hw0. split_ok; auto; lia.
  - match goal with Hk : pending_queries st !! _ = Some _ |- _ =>
      pose proof (clients_total_pos _ _ _ Hne Hk); pose proof (clients_total_delete _ _ _ Hk) end.
    split_ok; [| by apply entries_nonempty_delete | | done];
      rewrite wrapping_sub_exact; u64_lia.
  - exfalso.
    match goal with
    | Hl : map_to_list _ = (?k, ?v) :: _, Hk : pending_queries st !! ?k = None |- _ =>
        assert ((k, v) ∈ map_to_list (pending_queries st)) as Hin by (rewrite Hl; by left);
        apply elem_of_map_to_list in Hin; congruence
    end.
Qed.
(** Coalescing: a client joins the pending query of its key, when
    there is one; otherwise nothing changes. *)
Lemma maybe_add_to_existing_pending_query_spec pkey cq st :
  counters_ok 1 st →
  wp (maybe_add_to_existing_pending_query pkey cq)
     (λ attached st', if attached then handler_inv st'
                      else st' = st ∧ pending_queries st !! pkey = None) st.
Proof.
  intros (Hw & Hne & Hb & Hr). pose proof admission_bound_u64.
  unfold maybe_add_to_existing_pending_query. hwp; simpl; [|done].
  pose proof (clients_total_push _ _ _ cq E) as Hp.
  unfold handler_inv, counters_ok. simpl.
  split_ok; [| by apply entries_nonempty_insert, push_client_nonempty | |done];
    rewrite wrapping_add_exact; u64_lia.
Qed.

(** The answers to clients touch neither the table, the counter nor the
    registry. *)
Definition same_core (st st' : HState) : Prop :=
  pending_queries st' = pending_queries st ∧
  waiting_clients_count st' = waiting_clients_count st ∧
  upstream_servers st' = upstream_servers st.

Lemma same_core_refl st : same_core st st.
Proof. done. Qed.

Lemma same_core_trans st1 st2 st3 : same_core st1 st2 → same_core st2 st3 → same_core st1 st3.
Proof. intros (? & ? & ?) (? & ? & ?). repeat split; congruence. Qed.

Lemma counters_ok_same_core slack st st' :
  same_core st st' → counters_ok slack st → counters_ok slack st'.
Proof. intros (? & ? & ?). by apply counters_ok_frame. Qed.

Lemma maybe_respond_with_stale_entry_core cq st :
  wp (maybe_respond_with_stale_entry cq) (λ _ st', same_core st st') st.
Proof. unfold maybe_respond_with_stale_entry. hwp; done. Qed.

Lemma respond_all_with_stale_entry_core cqs st :
  wp (respond_all_with_stale_entry cqs) (λ _ st', same_core st st') st.
Proof.
  revert st. induction cqs as [|cq cqs IH]; intros st; simpl; [apply wp_ret, same_core_refl|].
  apply wp_bind. eapply wp_mono; [apply maybe_respond_with_stale_entry_core|].
  intros ? st1 H1. eapply wp_mono; [apply IH|]. intros ? st2 H2. simpl in *. by eapply same_core_trans.
Qed.

Lemma respond_all_core cqs packet st :
  wp (respond_all cqs packet) (λ _ st', same_core st st') st.
Proof.
  revert st. induction cqs as [|cq cqs IH]; intros st; simpl; [apply wp_ret, same_core_refl|].
  unfold response_send. hwp. eapply wp_mono; [apply IH|]. intros ? st2 H2. done.
Qed.
(** A new pending query with one client, registered against an
    upstream server. *)
Lemma new_entry_ok (m : PendingQueries) (w : Z) (r : Registry) pkey pq a :
  w = Z.of_nat (clients_total m) → entries_nonempty m → w + 1 ≤ admission_bound →
  registry_wf r → m !! pkey = None → length (client_queries pq) = 1%nat →
  (w +w 1)%edns = Z.of_nat (clients_total (<[pkey:=pq]> m)) ∧
  entries_nonempty (<[pkey:=pq]> m) ∧ (w +w 1)%edns + 0 ≤ admission_bound ∧
  registry_wf (registry_alter incr_pending a r).
Proof.
  intros Hw Hne Hb Hr Hk Hl. pose proof admission_bound_u64.
  rewrite clients_total_insert_new, Hl by done.
  split_ok; [| | |by apply registry_alter_wf; auto with edgedns];
    try (rewrite wrapping_add_exact; u64_lia).
  apply entries_nonempty_insert; [done|]. intros Hc. rewrite Hc in Hl. done.
Qed.

(** A new client query keeps the invariant, on every path: stale answer
    when all servers are down, coalescing, or a new pending query. *)
Lemma fut_process_client_query_spec cq rnd st :
  handler_inv st →
  wp (fut_process_client_query config net_ext_udp_sockets cq rnd) (λ _ st', handler_inv st') st.
Proof.
  intros Hinv. unfold fut_process_client_query.
  apply wp_bind, wp_get. case_decide.
  - eapply wp_mono; [apply maybe_respond_with_stale_entry_core|].
    intros ? st' Hc. exact (counters_ok_same_core 0 st st' Hc Hinv).
  - apply wp_bind. eapply wp_mono; [apply cap_pending_queries_spec; exact Hinv|].
    intros ? st1 Hs1. apply wp_bind.
    eapply wp_mono; [apply maybe_add_to_existing_pending_query_spec; exact Hs1|].
    intros [] st2 Hs2; simpl; [by apply wp_ret|]. destruct Hs2 as [-> Hnone].
    simpl in Hs1. destruct Hs1 as (Hw & Hne & Hb & Hr).
    hwp; simpl; subst; unfold handler_inv, counters_ok; simpl;
      try (split_ok; auto; lia).
    all: match goal with
         | Hp : maybe_send_probe_to_offline_servers _ _ _ _ _ _ _ = Value (?l, _, _) |- _ =>
             pose proof (maybe_send_probe_wf _ _ _ _ _ _ _ _ _ _ Hr Hp)
         end.
    all: try (split_ok; auto; lia).
    all: apply new_entry_ok; auto; destruct o; reflexivity.
Qed.
(** Sequencing a program that keeps the core. *)
Lemma wp_bind_core {A B} (m : Handler A) (k : A → Handler B) Q st :
  wp m (λ _ st', same_core st st') st →
  (∀ a st', same_core st st' → wp (k a) Q st') →
  wp (m ≫= k) Q st.
Proof. intros Hm Hk. apply wp_bind. eapply wp_mono; [exact Hm|]. auto. Qed.

(** Removing a pending query and its clients from the counter. *)
Lemma remove_entry_ok (m : PendingQueries) (w : Z) (r : Registry) pkey pq :
  w = Z.of_nat (clients_total m) → entries_nonempty m → w ≤ admission_bound →
  registry_wf r → m !! pkey = Some pq →
  (w -w Z.of_nat (length (client_queries pq)))%edns = Z.of_nat (clients_total (delete pkey m)) ∧
  entries_nonempty (delete pkey m) ∧
  (w -w Z.of_nat (length (client_queries pq)))%edns + 0 ≤ admission_bound ∧
  registry_wf r.
Proof.
  intros Hw Hne Hb Hr Hk. pose proof admission_bound_u64.
  pose proof (clients_total_delete _ _ _ Hk).
  split_ok; [| by apply entries_nonempty_delete | | done];
    rewrite wrapping_sub_exact; u64_lia.
Qed.

(** The retry keeps the clients of the entry it retargets. *)
Lemma fut_retry_query_spec nq usfq rnd st :
  handler_inv st →
  wp (fut_retry_query config net_ext_udp_sockets nq usfq rnd) (λ _ st', handler_inv st') st.
Proof.
  intros (Hw & Hne & Hb & Hr). unfold fut_retry_query.
  hwp; simpl; subst; unfold handler_inv, counters_ok; simpl; try (split_ok; auto; lia).
  erewrite clients_total_replace; [| eassumption | reflexivity].
  split_ok; [done| |done|by apply registry_alter_wf; auto with edgedns].
  apply entries_nonempty_insert; [done|]. simpl. by apply (Hne _ _ E).
Qed.

Lemma on_first_timeout_spec t rnd st :
  handler_inv st →
  wp (on_first_timeout config net_ext_udp_sockets t rnd) (λ _ st', handler_inv st') st.
Proof.
  intros (Hw & Hne & Hb & Hr). unfold on_first_timeout.
  hwp. apply fut_retry_query_spec.
  split_ok; simpl; [done|done|done|]. apply registry_alter_wf; auto with edgedns.
Qed.

Lemma on_retry_timeout_spec t st :
  handler_inv st → wp (on_retry_timeout config t) (λ _ st', handler_inv st') st.
Proof.
  intros (Hw & Hne & Hb & Hr). unfold on_retry_timeout.
  hwp.
  all: lazymatch goal with
       | |- wp (maybe_respond_to_all_clients_with_stale_entry _) _ _ => idtac
       | _ => simpl; split_ok; auto; by apply registry_alter_wf; auto with edgedns
       end.
  eapply wp_mono; [apply respond_all_with_stale_entry_core|].
  intros ? st' (Hp' & Hw' & Hr'). hwp. simpl in *.
  unfold handler_inv, counters_ok. simpl. rewrite Hp', Hw', Hr'. simpl.
  apply remove_entry_ok; [done|done|lia| |done]. apply registry_alter_wf; auto with edgedns.
Qed.

Lemma dispatch_upstream_response_spec pkey from packet rtt st :
  handler_inv st →
  wp (dispatch_upstream_response pkey from packet rtt) (λ _ st', handler_inv st') st.
Proof.
  intros (Hw & Hne & Hb & Hr). unfold dispatch_upstream_response.
  hwp; [|simpl; split_ok; auto].
  eapply wp_mono; [apply respond_all_core|].
  intros ? st' (Hp' & Hw' & Hr'). hwp. simpl in *.
  unfold handler_inv, counters_ok. simpl. rewrite Hp', Hw', Hr'. simpl.
  destruct (remove_entry_ok _ _ _ _ _ Hw Hne ltac:(lia) Hr E) as (? & ? & ? & _).
  split_ok; auto. apply registry_alter_wf; auto with edgedns.
Qed.
Lemma fire_timer_spec t rnd st :
  handler_inv st → wp (fire_timer config net_ext_udp_sockets t rnd) (λ _ st', handler_inv st') st.
Proof.
  intros Hinv. unfold fire_timer. hwp; try done;
    destruct (tm_stage t); auto using on_first_timeout_spec, on_retry_timeout_spec.
Qed.

Lemma handle_event_spec ev st :
  handler_inv st → wp (handle_event config net_ext_udp_sockets ev) (λ _ st', handler_inv st') st.
Proof.
  intros Hinv. destruct ev; simpl.
  - by apply fut_process_client_query_spec.
  - hwp; [|done]. apply fire_timer_spec. by eapply counters_ok_frame.
  - by apply dispatch_upstream_response_spec.
  - hwp. by eapply counters_ok_frame.
  - hwp. by eapply counters_ok_frame.
Qed.

Lemma step_handler_inv st st' :
  handler_inv st → step config net_ext_udp_sockets st st' → handler_inv st'.
Proof.
  intros Hinv Hstep. destruct Hstep as [st ev st' _ Hrun].
  exact (wp_run _ _ _ _ _ (handle_event_spec ev st Hinv) Hrun).
Qed.

Lemma initial_state_inv servers c :
  registry_wf servers → handler_inv (initial_state servers c).
Proof.
  intros Hr. pose proof admission_bound_u64. unfold handler_inv, counters_ok, initial_state, ClientQueriesHandler_new, PendingQueries_new. simpl.
  rewrite clients_total_empty. split_ok; [done| |lia|done]. apply map_Forall_empty.
Qed.

Lemma reachable_inv servers c st :
  registry_wf servers → reachable config net_ext_udp_sockets servers c st → handler_inv st.
Proof.
  intros Hr Hreach. revert st Hreach. unfold reachable.
  apply rtc_ind_r; [by apply initial_state_inv|].
  intros st1 st2 _ Hs IH. by eapply step_handler_inv.
Qed.

(** C1: in every state the handler reaches from start-up (with
    a well-formed registry), by any sequence of client queries, timeouts,
    responses, clock ticks and live-list changes: the waiting-client
    counter equals the number of clients attached to pending queries, no
    pending query is empty, the counter is within the admission bound,
    and the registry is a map of [u64] counters. *)
Theorem reachable_handler_inv servers c st :
  registry_wf servers → reachable config net_ext_udp_sockets servers c st → handler_inv st.
Proof. apply reachable_inv. Qed.

End Invariant.

(** ** Concrete runs *)

#[local] Existing Instance example_codec.
#[local] Existing Instance example_hasher.

Definition ex_config : Config :=
  {| max_waiting_clients := 2; max_active_queries := 128; lbmode := Uniform;
     upstream_max_failures := 3 |}.

Definition ex_query (id : nat) (name : string) : ClientQuery :=
  {| cq_id := id;
     normalized_question :=
       {| qname := name; tid := 7; flags := 0; payload_size := 512; qtype := 1; qclass := 1;
          dnssec := false |};
     upstream_servers_for_query := map (λ s, {| socket_addr := us_socket_addr s |}) ex_registry;
     cq_custom_hash := (0, 0) |}.

Definition ex_rand : Rand := {| rnd_tid := 77; rnd_socket := 0; rnd_probe := 1; rnd_probe_ok := true |}.

(** The state after one client query from start-up. *)
Definition ex_state1 : HState :=
  match handle_event ex_config [4000] (ClientQueryIn (ex_query 1 "example.com") ex_rand)
          (initial_state ex_registry ∅) with
  | Done _ st => st
  | Panicked _ => initial_state ex_registry ∅
  end.

Lemma ex_registry_wf : registry_wf ex_registry.
Proof.
  split.
  - apply NoDup_ListNoDup. repeat constructor; simpl; intuition discriminate.
  - repeat constructor; vm_compute; discriminate.
Qed.

Lemma reachable_handler_inv_witness : handler_inv ex_config ex_state1.
Proof.
  apply (reachable_handler_inv ex_config [4000] ltac:(split; vm_compute; discriminate)
           ex_registry ∅).
  - exact ex_registry_wf.
  - eapply rtc_l; [|apply rtc_refl].
    apply (step_event _ _ _ (ClientQueryIn (ex_query 1 "example.com") ex_rand)); [exact I|].
    vm_compute. reflexivity.
Defined.
