(* ===== verification/HandlerSpec.v ===== *)
(** * Functional behaviour of the handler

    What each path of the handler does, as total-correctness statements
    ([wpt]: the run returns without panicking, in a state described by the
    postcondition): the degraded answer of a client ([stale_answer]: the
    cached packet, else a SERVFAIL), the all-down shortcut, coalescing,
    the new query sent upstream, the retry re-targeting its entry, the
    degradation after the second timeout, the retry that finds every
    server down, and the eviction that fires the evicted query's timer.
    Each path is stated against a relation between the states before and
    after it ([answered], [coalesced], [sent_new], [retried], [evicts],
    [abandoned]) that transcribes the specification's description. *)

From S2P Require Import Prelude Dns Upstream LoadBalancer PendingQuery Probe HandlerState Handler Step HandlerInv.
From stdpp Require Import base gmap list strings.
Open Scope Z_scope.

Section HandlerSpec.
Context `{DnsCodec} `{JumpHasher}.
Context (config : Config) (net_ext_udp_sockets : list Z).

(** The answer a client gets when no upstream answered: the cached packet
    (even expired), else a SERVFAIL, else none. *)
Definition stale_answer (c : Cache) (cq : ClientQuery) : option Packet :=
  match cache_get2 c (normalized_question cq) (cq_custom_hash cq) with
  | Some packet => Some packet
  | None => build_servfail_packet (normalized_question cq)
  end.

(** The responses, in order, to clients answered that way. *)
Definition stale_responses (c : Cache) (cqs : list ClientQuery) : list (nat * Packet) :=
  omap (λ cq, pair (cq_id cq) <$> stale_answer c cq) cqs.

(** [st'] is [st] with the responses [out] sent and the counters moved. *)
Definition answered (st st' : HState) (out : list (nat * Packet)) : Prop :=
  ∃ v, st' = set_varz v (set_client_out (client_out st ++ out) st).

(** The specification's coalescing: the client joins the pending query
    of key [k] and the waiting-client counter grows by one; nothing else
    changes. *)
Definition coalesced (k : PendingQueryKey) (cq : ClientQuery) (st st' : HState) : Prop :=
  ∃ pq, pending_queries st !! k = Some pq ∧
    st' = set_waiting_clients_count (waiting_clients_count st +w 1)%edns
            (set_pending_queries (<[k := push_client cq pq]> (pending_queries st)) st).

(** The contract of the table's [evict_one] for the entry [k]: it is
    removed and the counter drops by its number of clients. *)
Definition evicts (k : PendingQueryKey) (st st' : HState) : Prop :=
  ∃ pq, pending_queries st !! k = Some pq ∧
    pending_queries st' = delete k (pending_queries st) ∧
    waiting_clients_count st' =
      (waiting_clients_count st -w Z.of_nat (length (client_queries pq)))%edns.

(** A pending query of key [k] that no armed timer will complete: only an
    upstream response or an eviction removes it, and every client that
    coalesces with it waits as long. *)
Definition abandoned (st : HState) (k : PendingQueryKey) : Prop :=
  is_Some (pending_queries st !! k) ∧ Forall (λ t, tm_key t ≠ k) (timers st).

(** The specification's retry of the entry [k] on the upstream [addr] of
    index [idx]: the entry keeps its clients and gets a new sender, upstream
    index and timestamp; the old sender is no longer open; the query is
    sent to [addr]; a retry timer of at most
    [UPSTREAM_QUERY_MAX_TIMEOUT_MS] races the new sender; no client is
    answered and the counter is unchanged. *)
Definition retried (k : PendingQueryKey) (idx : nat) (addr : SocketAddr) (st st' : HState)
    : Prop :=
  ∃ pq pq', pending_queries st !! k = Some pq ∧ pending_queries st' !! k = Some pq' ∧
    client_queries pq' = client_queries pq ∧ upstream_server_idx pq' = idx ∧
    ts pq' = now st ∧ chans st' !! done_tx pq' = Some ChanOpen ∧
    chans st' !! done_tx pq ≠ Some ChanOpen ∧
    (∃ dg, upstream_out st' = upstream_out st ++ [dg] ∧ dg_to dg = addr) ∧
    (∃ t, timers st' = timers st ++ [t] ∧ tm_rx t = done_tx pq' ∧ tm_stage t = RetryAttempt ∧
          tm_key t = k ∧ tm_addr t = addr ∧
          tm_deadline t <= now st + UPSTREAM_QUERY_MAX_TIMEOUT_MS) ∧
    client_out st' = client_out st ∧ waiting_clients_count st' = waiting_clients_count st.

(** The specification's new-query path for the client [cq] under the key
    [k], sent to the upstream [addr]: a pending query with [cq] as its only
    client is added under [k] with a new open sender, the counter grows by
    one, the query goes to [addr] (after at most one probe), a first
    timer races the sender, the live list is unchanged, and no client is
    answered. *)
Definition sent_new (k : PendingQueryKey) (cq : ClientQuery) (addr : SocketAddr) (st st' : HState)
    : Prop :=
  ∃ pq, pending_queries st' = <[k := pq]> (pending_queries st) ∧
    client_queries pq = [cq] ∧ ts pq = now st ∧ chans st' !! done_tx pq = Some ChanOpen ∧
    waiting_clients_count st' = (waiting_clients_count st +w 1)%edns ∧
    (∃ probes dg, upstream_out st' = upstream_out st ++ probes ++ [dg] ∧
                  (length probes ≤ 1)%nat ∧ dg_to dg = addr) ∧
    (∃ t, timers st' = timers st ++ [t] ∧ tm_rx t = done_tx pq ∧ tm_stage t = FirstAttempt ∧
          tm_key t = k ∧ tm_addr t = addr) ∧
    upstream_servers_live st' = upstream_servers_live st ∧
    client_out st' = client_out st.

Lemma answered_trans st1 st2 st3 o1 o2 :
  answered st1 st2 o1 → answered st2 st3 o2 → answered st1 st3 (o1 ++ o2).
Proof. intros [v1 ->] [v2 ->]. exists v2. simpl. by rewrite app_assoc. Qed.

Lemma maybe_respond_with_stale_entry_spec cq st :
  wpt (maybe_respond_with_stale_entry cq)
      (λ _ st', answered st st' (stale_responses (cache st) [cq])) st.
Proof.
  unfold maybe_respond_with_stale_entry, stale_responses, stale_answer. hwpt; simpl; rewrite E.
  - eexists. reflexivity.
  - rewrite E0. eexists. reflexivity.
  - rewrite E0. exists (varz st). rewrite app_nil_r. by destruct st.
Qed.

Lemma respond_all_with_stale_entry_spec cqs st :
  wpt (respond_all_with_stale_entry cqs)
      (λ _ st', answered st st' (stale_responses (cache st) cqs)) st.
Proof.
  revert st. induction cqs as [|cq cqs IH]; intros st; simpl.
  - apply wpt_ret. exists (varz st). rewrite app_nil_r. by destruct st.
  - apply wpt_bind. eapply wpt_mono; [apply maybe_respond_with_stale_entry_spec|].
    intros ? st1 Hst1. eapply wpt_mono; [apply IH|]. intros ? st2 Hst2.
    destruct Hst1 as [v1 ->]. simpl in Hst2.
    pose proof (answered_trans st _ st2 _ _ (ex_intro _ v1 eq_refl) Hst2) as Ha.
    unfold stale_responses in *. simpl in *. destruct (stale_answer (cache st) cq); exact Ha.
Qed.
(** The retry finds every server down: it returns at once. *)
Lemma fut_retry_query_all_down nq usfq rnd st pq u s p :
  upstream_servers_live st = [] →
  pending_queries st !! query_key nq = Some pq →
  usfq !! upstream_server_idx pq = Some u →
  registry_get (upstream_servers st) (socket_addr u) = Some s →
  build_query_packet nq false (rnd_tid rnd) = Some p →
  fut_retry_query config net_ext_udp_sockets nq usfq rnd st = Done tt st.
Proof.
  intros Hl Hpq Hu Hs Hp. unfold fut_retry_query, new_pending_query. exec_simpl.
  rewrite Hpq. exec_simpl. rewrite Hu. exec_simpl. rewrite Hs, Hp. destruct p as [pkt nqm].
  unfold pick_upstream. rewrite Hl. reflexivity.
Qed.

(** A first-attempt timer whose channel was not fired runs the first
    [or_else] closure. *)
Lemma fire_timer_first t rnd st :
  chans st !! tm_rx t ≠ Some ChanSent → tm_stage t = FirstAttempt →
  fire_timer config net_ext_udp_sockets t rnd st =
    on_first_timeout config net_ext_udp_sockets t rnd st.
Proof.
  intros Hc Hs. unfold fire_timer. exec_simpl. rewrite Hs.
  by destruct (chans st !! tm_rx t) as [[]|].
Qed.

(** The new-query path, as [sent_new]. *)
Lemma fut_process_client_query_sent_new cq rnd st pkt nqm idx port servers probe_dg probe_addr u s :
  upstream_servers_live st ≠ [] →
  waiting_clients_count st < max_waiting_clients config →
  pending_queries st !! query_key (normalized_question cq) = None →
  new_pending_query (normalized_question cq) (upstream_servers st) (upstream_servers_live st)
    net_ext_udp_sockets false (lbmode config) (rnd_tid rnd) (rnd_socket rnd)
    = Value (inr (pkt, nqm, idx, port)) →
  maybe_send_probe_to_offline_servers (now st) (rnd_probe rnd) (rnd_probe_ok rnd) pkt
    (upstream_servers_for_query cq) (upstream_servers st) port
    = Value (servers, probe_dg, probe_addr) →
  upstream_servers_for_query cq !! idx = Some u →
  registry_get servers (socket_addr u) = Some s →
  ∃ st', fut_process_client_query config net_ext_udp_sockets cq rnd st = Done tt st' ∧
         sent_new (query_key (normalized_question cq)) cq (socket_addr u) st st'.
Proof.
  intros Hl Hw Hk Hn Hp Hu Hs. destruct (registry_get_Some _ _ _ Hs) as [_ Ha].
  unfold fut_process_client_query, cap_pending_queries,
    maybe_add_to_existing_pending_query. exec_simpl.
  rewrite decide_False by done. exec_simpl.
  rewrite bool_decide_eq_true_2 by done. exec_simpl.
  rewrite Hk. exec_simpl. rewrite Hn. exec_simpl. rewrite Hp. exec_simpl.
  destruct probe_dg as [dg|]; exec_simpl; rewrite Hu; exec_simpl; rewrite Hs;
    (eexists; split; [reflexivity|]); (eexists; split_and!; [reflexivity|..]).
  all: destruct probe_addr; simpl; try done; try apply lookup_insert_eq.
  all: try (by eexists; split_and!).
  all: first [ exists []; eexists; split_and!; [reflexivity|simpl; lia|exact Ha]
             | exists [dg]; eexists; split_and!; [by rewrite <- app_assoc|simpl; lia|exact Ha] ].
Qed.

(** The response to a query sent by the new-query path removes what that
    path added: the entry, and the client from the counter. *)
Lemma dispatch_after_sent_new k cq addr st st' from packet rtt :
  sent_new k cq addr st st' → pending_queries st !! k = None →
  0 <= waiting_clients_count st < U64_MAX →
  ∃ st'', dispatch_upstream_response k from packet rtt st' = Done tt st'' ∧
    pending_queries st'' = pending_queries st ∧
    waiting_clients_count st'' = waiting_clients_count st ∧
    client_out st'' = client_out st ++ [(cq_id cq, packet)] ∧
    cache st'' !! (normalized_question_key k, custom_hash k) = Some packet.
Proof.
  intros (pq & Hpend & Hcl & _ & _ & Hw & _ & _ & _ & Hout) Hk Hb.
  unfold dispatch_upstream_response. exec_simpl. rewrite Hpend, lookup_insert_eq. exec_simpl.
  rewrite Hcl. exec_simpl. eexists. split; [reflexivity|]. simpl.
  rewrite Hw, Hout. split_and!; try done.
  - rewrite Hpend. by apply delete_insert_id.
  - simpl. rewrite wrapping_sub_exact; rewrite ?wrapping_add_exact; unfold U64_MAX in *; lia.
  - apply lookup_insert_eq.
Qed.

(** C5: when the retry's timer fires and its server is still
    configured, the pending query is removed, every client waiting on it
    receives the cached packet or a SERVFAIL (in order), the counter drops
    by the number of clients, the completion channel is fired, and the
    server is charged one pending query less and one failure more. *)
Theorem on_retry_timeout_degrades t st s pq :
  registry_get (upstream_servers st) (tm_addr t) = Some s →
  pending_queries st !! tm_key t = Some pq →
  wpt (on_retry_timeout config t)
    (λ _ st',
       pending_queries st' = delete (tm_key t) (pending_queries st) ∧
       client_out st' = client_out st ++ stale_responses (cache st) (client_queries pq) ∧
       waiting_clients_count st' =
         (waiting_clients_count st -w Z.of_nat (length (client_queries pq)))%edns ∧
       chans st' !! done_tx pq = Some ChanSent ∧
       upstream_servers st' =
         registry_alter (record_failure (upstream_max_failures config) ∘ decr_pending)
           (tm_addr t) (upstream_servers st)) st.
Proof.
  intros Hs Hpq. unfold on_retry_timeout. hwpt; simpl in *; try congruence.
  eapply wpt_mono; [apply respond_all_with_stale_entry_spec|].
  intros ? st' [v ->]. hwpt. simpl. rewrite Hpq in E0. injection E0 as <-.
  split_and!; try done. apply lookup_insert_eq.
Qed.

(** C6: when the live list is empty, a client query creates no
    pending query and sends nothing upstream: the client is answered at
    once with the cached packet or a SERVFAIL. *)
Theorem fut_process_client_query_all_down cq rnd st :
  upstream_servers_live st = [] →
  wpt (fut_process_client_query config net_ext_udp_sockets cq rnd)
      (λ _ st', answered st st' (stale_responses (cache st) [cq])) st.
Proof.
  intros Hl. unfold fut_process_client_query. apply wpt_bind, wpt_get.
  rewrite decide_True by done. apply maybe_respond_with_stale_entry_spec.
Qed.

(** The coalescing path, as [coalesced]. *)
Lemma fut_process_client_query_coalesced cq rnd st :
  upstream_servers_live st ≠ [] →
  waiting_clients_count st < max_waiting_clients config →
  is_Some (pending_queries st !! query_key (normalized_question cq)) →
  ∃ st', fut_process_client_query config net_ext_udp_sockets cq rnd st = Done tt st' ∧
         coalesced (query_key (normalized_question cq)) cq st st'.
Proof.
  intros Hl Hw [pq Hpq]. eexists. split; [|exists pq; split; [exact Hpq|reflexivity]].
  unfold fut_process_client_query, cap_pending_queries,
    maybe_add_to_existing_pending_query. exec_simpl.
  rewrite decide_False by done. exec_simpl.
  rewrite bool_decide_eq_true_2 by done. exec_simpl.
  rewrite Hpq. reflexivity.
Qed.

(** C7: below the admission limit, a query whose key has a
    pending query joins it: the client is appended to that query's
    clients and the counter grows by one; nothing is sent upstream, no
    timer is armed, nothing else changes. *)
Theorem fut_process_client_query_coalesces cq rnd st :
  upstream_servers_live st ≠ [] →
  waiting_clients_count st < max_waiting_clients config →
  is_Some (pending_queries st !! query_key (normalized_question cq)) →
  ∃ st', fut_process_client_query config net_ext_udp_sockets cq rnd st = Done tt st' ∧
         coalesced (query_key (normalized_question cq)) cq st st'.
Proof. apply fut_process_client_query_coalesced. Qed.

(** C16: when the first timer of a query fires while every
    server is down, the retry gives up without any effect: the pending
    query stays in the table with its clients, none of them is answered,
    and no timer is left to complete it (the query is abandoned). *)
Theorem first_timeout_all_down_abandons st i t rnd pq u s p :
  timers st !! i = Some t → tm_stage t = FirstAttempt →
  chans st !! tm_rx t ≠ Some ChanSent →
  upstream_servers_live st = [] →
  pending_queries st !! query_key (tm_question t) = Some pq →
  tm_servers_for_query t !! upstream_server_idx pq = Some u →
  registry_get (upstream_servers st) (socket_addr u) = Some s →
  build_query_packet (tm_question t) false (rnd_tid rnd) = Some p →
  Forall (λ t', tm_key t' ≠ query_key (tm_question t)) (delete i (timers st)) →
  ∃ st', handle_event config net_ext_udp_sockets (TimerFires i rnd) st = Done tt st' ∧
    abandoned st' (query_key (tm_question t)) ∧
    pending_queries st' = pending_queries st ∧ client_out st' = client_out st.
Proof.
  intros Hi Hst Hc Hl Hpq Hu Hs Hp Hrest.
  set (f := record_failure (upstream_max_failures config) ∘ decr_pending).
  set (st1 := set_upstream_servers (registry_alter f (tm_addr t) (upstream_servers st))
                (set_timers (delete i (timers st)) st)).
  destruct (registry_get_alter_is_Some f (tm_addr t) (socket_addr u) (upstream_servers st))
    as [s1 Hs1]; [unfold f; auto with edgedns|by exists s|].
  exists st1. split.
  - unfold handle_event. exec_simpl. rewrite Hi. exec_simpl.
    rewrite fire_timer_first by done. unfold on_first_timeout. exec_simpl.
    by eapply fut_retry_query_all_down.
  - unfold st1, abandoned. simpl. split_and!; [by exists pq|done..].
Qed.

(** C17: at the admission limit, [cap_pending_queries] fulfils the
    table's eviction contract on the first entry of the table, and drops
    that entry's completion sender: the timer racing its channel becomes
    ready at once, whatever its deadline, so the first [or_else] closure
    runs as if the upstream had timed out. *)
Theorem cap_pending_queries_evicts st pkey pq rest :
  handler_inv config st →
  max_waiting_clients config <= waiting_clients_count st →
  map_to_list (pending_queries st) = (pkey, pq) :: rest →
  chans st !! done_tx pq = Some ChanOpen →
  wpt (cap_pending_queries config)
      (λ b st', b = true ∧ evicts pkey st st' ∧
                ∀ t, tm_rx t = done_tx pq → timer_ready st' t = true) st.
Proof.
  intros (Hcnt & _) Hw Hl Hc.
  assert (pending_queries st !! pkey = Some pq) as Hpq.
  { apply elem_of_map_to_list. rewrite Hl. by left. }
  pose proof (clients_total_lookup_le _ _ _ Hpq) as Hk.
  unfold cap_pending_queries. apply wpt_bind, wpt_get.
  rewrite bool_decide_eq_false_2 by lia. rewrite Hl, Hpq. hwpt; simpl.
  - split_and!; [done|by exists pq|]. intros t Ht. unfold timer_ready, drop_in. simpl.
    rewrite Ht, Hc, lookup_insert_eq. reflexivity.
  - apply bool_decide_eq_false_1 in E. lia.
Qed.
Lemma drop_in_ne m c c' : c ≠ c' → drop_in m c !! c' = m !! c'.
Proof. intros Hne. unfold drop_in. by destruct (m !! c) as [[]|]; rewrite ?lookup_insert_ne. Qed.

Lemma drop_in_not_open m c : drop_in m c !! c ≠ Some ChanOpen.
Proof. unfold drop_in. destruct (m !! c) as [[]|] eqn:E; rewrite ?lookup_insert_eq; congruence. Qed.

(** C10: when the first timer fires and a server is
    available, [fut_retry_query] re-targets the pending query: same
    clients, new sender, upstream and timestamp, the old sender dropped,
    the query sent to the new server and a retry timer armed. *)
Theorem fut_retry_query_retargets nq usfq rnd st pq u0 s0 pkt nqm idx port u s :
  pending_queries st !! query_key nq = Some pq →
  (done_tx pq < next_chan st)%nat →
  usfq !! upstream_server_idx pq = Some u0 →
  registry_get (upstream_servers st) (socket_addr u0) = Some s0 →
  new_pending_query nq (upstream_servers st) (upstream_servers_live st) net_ext_udp_sockets
    true (lbmode config) (rnd_tid rnd) (rnd_socket rnd) = Value (inr (pkt, nqm, idx, port)) →
  usfq !! idx = Some u →
  registry_get (upstream_servers st) (socket_addr u) = Some s →
  ∃ st', fut_retry_query config net_ext_udp_sockets nq usfq rnd st = Done tt st' ∧
         retried (query_key nq) idx (socket_addr u) st st'.
Proof.
  intros Hpq Hc Hu0 Hs0 Hn Hu Hs. eexists. split.
  - unfold fut_retry_query. exec_simpl. rewrite Hpq. exec_simpl. rewrite Hu0. exec_simpl.
    rewrite Hs0, Hn. exec_simpl. rewrite Hu. exec_simpl. rewrite Hs. reflexivity.
  - exists pq, (retarget nqm port (now st) idx (next_chan st) pq). simpl.
    split_and!; try done.
    + apply lookup_insert_eq.
    + rewrite drop_in_ne by lia. apply lookup_insert_eq.
    + apply drop_in_not_open.
    + by eexists.
    + eexists. split; [reflexivity|]. simpl. split_and!; try done. unfold UPSTREAM_QUERY_MAX_TIMEOUT_MS. case_bool_decide; lia.
Qed.
(** C9: below the admission limit, a query whose key is
    not pending, for which the load balancer picks a configured server,
    creates a pending query with the client, sends the query to that
    server (after at most one probe) and arms the first timer. *)
Theorem fut_process_client_query_sends cq rnd st pkt nqm idx port servers probe_dg probe_addr u s :
  upstream_servers_live st ≠ [] →
  waiting_clients_count st < max_waiting_clients config →
  pending_queries st !! query_key (normalized_question cq) = None →
  new_pending_query (normalized_question cq) (upstream_servers st) (upstream_servers_live st)
    net_ext_udp_sockets false (lbmode config) (rnd_tid rnd) (rnd_socket rnd)
    = Value (inr (pkt, nqm, idx, port)) →
  maybe_send_probe_to_offline_servers (now st) (rnd_probe rnd) (rnd_probe_ok rnd) pkt
    (upstream_servers_for_query cq) (upstream_servers st) port
    = Value (servers, probe_dg, probe_addr) →
  upstream_servers_for_query cq !! idx = Some u →
  registry_get servers (socket_addr u) = Some s →
  ∃ st', fut_process_client_query config net_ext_udp_sockets cq rnd st = Done tt st' ∧
         sent_new (query_key (normalized_question cq)) cq (socket_addr u) st st'.
Proof. apply fut_process_client_query_sent_new. Qed.

End HandlerSpec.

(** ** Concrete runs *)

#[local] Existing Instance example_codec.
#[local] Existing Instance example_hasher.

(** The state reached by a sequence of events, each run on the state the
    previous one left (a panicking event leaves the state unchanged). *)
Fixpoint run_events (st : HState) (evs : list Event) : HState :=
  match evs with
  | [] => st
  | ev :: evs =>
      match handle_event ex_config [4000] ev st with
      | Done _ st' => run_events st' evs
      | Panicked _ => run_events st evs
      end
  end.

Definition ex_q1 : ClientQuery := ex_query 1 "example.com".

(** Two questions pending: the admission limit (2) is reached. *)
Definition ex_state_full : HState :=
  run_events ex_state1 [ClientQueryIn (ex_query 2 "example.org") ex_rand].

(** The first timer has fired: the retry is in flight. *)
Definition ex_state_retry : HState :=
  run_events ex_state1 [ClockTick 6000; TimerFires 0 ex_rand].

(** The two-query state is reached from start-up, so the invariant holds
    there. *)
Lemma ex_state_full_inv : handler_inv ex_config ex_state_full.
Proof.
  apply (reachable_inv ex_config [4000] ltac:(split; vm_compute; discriminate) ex_registry ∅).
  - split.
    + apply NoDup_ListNoDup. repeat constructor; simpl; intuition discriminate.
    + repeat constructor; vm_compute; discriminate.
  - eapply rtc_l; [|eapply rtc_l; [|apply rtc_refl]].
    + apply (step_event _ _ _ (ClientQueryIn ex_q1 ex_rand)); [exact I|].
      vm_compute. reflexivity.
    + apply (step_event _ _ _ (ClientQueryIn (ex_query 2 "example.org") ex_rand)); [exact I|].
      vm_compute. reflexivity.
Qed.

Lemma on_retry_timeout_degrades_witness :
  ∃ t s pq, timers ex_state_retry = [t] ∧
    registry_get (upstream_servers ex_state_retry) (tm_addr t) = Some s ∧
    pending_queries ex_state_retry !! tm_key t = Some pq ∧
    client_queries pq = [ex_q1] ∧
    wpt (on_retry_timeout ex_config t)
      (λ _ st',
         pending_queries st' = delete (tm_key t) (pending_queries ex_state_retry) ∧
         client_out st' = client_out ex_state_retry ++
                            stale_responses (cache ex_state_retry) (client_queries pq) ∧
         waiting_clients_count st' =
           (waiting_clients_count ex_state_retry -w Z.of_nat (length (client_queries pq)))%edns ∧
         chans st' !! done_tx pq = Some ChanSent ∧
         upstream_servers st' =
           registry_alter (record_failure (upstream_max_failures ex_config) ∘ decr_pending)
             (tm_addr t) (upstream_servers ex_state_retry)) ex_state_retry.
Proof.
  do 3 eexists. split_and!; [vm_compute; reflexivity|vm_compute; reflexivity
                             |vm_compute; reflexivity|reflexivity|].
  eapply on_retry_timeout_degrades; vm_compute; reflexivity.
Defined.

Lemma fut_process_client_query_all_down_witness :
  wpt (fut_process_client_query ex_config [4000] ex_q1 ex_rand)
      (λ _ st', answered (set_upstream_servers_live [] ex_state1) st'
                  (stale_responses (cache (set_upstream_servers_live [] ex_state1)) [ex_q1]))
      (set_upstream_servers_live [] ex_state1).
Proof. apply fut_process_client_query_all_down. reflexivity. Defined.

Lemma fut_process_client_query_coalesces_witness :
  ∃ st', fut_process_client_query ex_config [4000] (ex_query 2 "example.com") ex_rand ex_state1
           = Done tt st' ∧
         coalesced (query_key (normalized_question (ex_query 2 "example.com")))
           (ex_query 2 "example.com") ex_state1 st'.
Proof.
  apply fut_process_client_query_coalesces; [vm_compute; discriminate|vm_compute; reflexivity|].
  vm_compute. by eexists.
Defined.

(** Every server down when the first timer of [example.com] fires. *)
Definition ex_state_down : HState := set_upstream_servers_live [] ex_state1.

Lemma first_timeout_all_down_abandons_witness :
  ∃ t, timers ex_state_down !! 0%nat = Some t ∧
    ∃ st', handle_event ex_config [4000] (TimerFires 0 ex_rand) ex_state_down = Done tt st' ∧
      abandoned st' (query_key (tm_question t)) ∧
      pending_queries st' = pending_queries ex_state_down ∧
      client_out st' = client_out ex_state_down.
Proof.
  eexists. split; [vm_compute; reflexivity|].
  eapply first_timeout_all_down_abandons; vm_compute; try reflexivity; try discriminate.
  constructor.
Defined.

Lemma cap_pending_queries_evicts_witness :
  ∃ pkey pq rest,
    map_to_list (pending_queries ex_state_full) = (pkey, pq) :: rest ∧
    chans ex_state_full !! done_tx pq = Some ChanOpen ∧
    wpt (cap_pending_queries ex_config)
      (λ b st', b = true ∧ evicts pkey ex_state_full st' ∧
                ∀ t, tm_rx t = done_tx pq → timer_ready st' t = true) ex_state_full.
Proof.
  do 3 eexists. split_and!; [vm_compute; reflexivity..|].
  eapply cap_pending_queries_evicts; [apply ex_state_full_inv|vm_compute; discriminate
                                     |vm_compute; reflexivity..].
Defined.

Lemma fut_retry_query_retargets_witness :
  ∃ idx u st',
    fut_retry_query ex_config [4000] (normalized_question ex_q1) (upstream_servers_for_query ex_q1)
      ex_rand ex_state1 = Done tt st' ∧
    retried (query_key (normalized_question ex_q1)) idx (socket_addr u) ex_state1 st'.
Proof.
  do 2 eexists.
  eapply fut_retry_query_retargets;
    [vm_compute; reflexivity|apply Nat.ltb_lt; vm_compute; reflexivity|vm_compute; reflexivity..].
Defined.

Lemma fut_process_client_query_sends_witness :
  ∃ u st',
    fut_process_client_query ex_config [4000] ex_q1 ex_rand (initial_state ex_registry ∅)
      = Done tt st' ∧
    sent_new (query_key (normalized_question ex_q1)) ex_q1 (socket_addr u)
      (initial_state ex_registry ∅) st'.
Proof.
  eexists.
  eapply fut_process_client_query_sends;
    [vm_compute; discriminate|vm_compute; reflexivity..].
Defined.
