(* ===== verification/Timeouts.v ===== *)
(** * Termination of the timeout chains

    Each upstream attempt is raced by one timeout future: the first
    attempt's future ([fut_process_client_query], lines 297-331) may start
    one retry ([fut_retry_query]), whose own future (lines 429-467) starts
    nothing.  So, without new client queries, the timeouts of the handler
    run out: weighing a first-attempt timer 2 and a retry timer 1, every
    timer that fires lowers the total weight of the armed timers, so no
    more timers than that weight fire in a row. *)

From S2P Require Import Prelude Dns Upstream LoadBalancer PendingQuery Probe HandlerState Handler Step.
From stdpp Require Import base gmap list strings relations.
Open Scope Z_scope.

(** The weight of a timer: the number of timeouts it can still cause. *)
Definition stage_weight (t : Timer) : nat :=
  match tm_stage t with
  | FirstAttempt => 2
  | RetryAttempt => 1
  end.

Definition timer_weight (st : HState) : nat := sum_list_with stage_weight (timers st).

Section Timeouts.
Context `{DnsCodec} `{JumpHasher}.
Context (config : Config) (net_ext_udp_sockets : list Z).

(** One timer fires: the event is enabled (its deadline passed or its
    channel settled) and runs without panicking. *)
Definition timer_step (st st' : HState) : Prop :=
  ∃ i rnd, event_enabled st (TimerFires i rnd) ∧
           handle_event config net_ext_udp_sockets (TimerFires i rnd) st = Done tt st'.

Lemma sum_list_with_delete {A} (f : A → nat) l i x :
  l !! i = Some x → sum_list_with f l = (f x + sum_list_with f (delete i l))%nat.
Proof.
  revert i. induction l as [|y l IH]; intros [|i] Hi; simplify_eq/=; [lia|].
  rewrite (IH i Hi). lia.
Qed.

Lemma sum_list_with_app {A} (f : A → nat) l1 l2 :
  sum_list_with f (l1 ++ l2) = (sum_list_with f l1 + sum_list_with f l2)%nat.
Proof. induction l1; simpl; lia. Qed.

(** The stale answers arm no timer and send nothing upstream. *)
Definition keeps_upstream (st st' : HState) : Prop :=
  timers st' = timers st ∧ upstream_out st' = upstream_out st.

Lemma maybe_respond_with_stale_entry_timers cq st :
  wp (maybe_respond_with_stale_entry cq) (λ _ st', keeps_upstream st st') st.
Proof. unfold maybe_respond_with_stale_entry, keeps_upstream. by hwp. Qed.

Lemma respond_all_with_stale_entry_timers cqs st :
  wp (respond_all_with_stale_entry cqs) (λ _ st', keeps_upstream st st') st.
Proof.
  revert st. induction cqs as [|cq cqs IH]; intros st; simpl; [by apply wp_ret|].
  apply wp_bind. eapply wp_mono; [apply maybe_respond_with_stale_entry_timers|].
  intros ? st1 [H1 H1']. eapply wp_mono; [apply IH|]. intros ? st2 [H2 H2'].
  split; congruence.
Qed.

(** The retry arms at most one timer, a retry timer: for a weight [f]
    of at most [b] on retry timers, the total grows by at most [b]. *)
Lemma fut_retry_query_timers (f : Timer → nat) b nq usfq rnd st :
  (∀ t, tm_stage t = RetryAttempt → (f t ≤ b)%nat) →
  wp (fut_retry_query config net_ext_udp_sockets nq usfq rnd)
     (λ _ st', (sum_list_with f (timers st') ≤ sum_list_with f (timers st) + b)%nat) st.
Proof.
  intros Hf. unfold fut_retry_query. hwp; simpl; try lia.
  rewrite sum_list_with_app. simpl.
  match goal with |- context [f ?t] => specialize (Hf t eq_refl) end. lia.
Qed.

Lemma on_retry_timeout_timers t st :
  wp (on_retry_timeout config t) (λ _ st', keeps_upstream st st') st.
Proof.
  unfold on_retry_timeout, keeps_upstream. hwp; try done.
  eapply wp_mono; [apply respond_all_with_stale_entry_timers|].
  intros ? st' Ht. hwp. exact Ht.
Qed.

(** The closure of a timer's stage costs at least one unit of weight. *)
Lemma stage_closure_weight t rnd st :
  wp (match tm_stage t with
      | FirstAttempt => on_first_timeout config net_ext_udp_sockets t rnd
      | RetryAttempt => on_retry_timeout config t
      end)
     (λ _ st', (timer_weight st' + 1 ≤ timer_weight st + stage_weight t)%nat) st.
Proof.
  unfold stage_weight. destruct (tm_stage t).
  - unfold on_first_timeout, modify_registry. apply wp_bind, wp_modify.
    eapply wp_mono; [apply (fut_retry_query_timers stage_weight 1); intros ? Hs; unfold stage_weight; by rewrite Hs|].
    intros ? st'. unfold timer_weight. simpl. lia.
  - eapply wp_mono; [apply on_retry_timeout_timers|]. intros ? st' [Ht _].
    unfold timer_weight. rewrite Ht. lia.
Qed.

(** A timer that fires costs at least one unit of weight. *)
Lemma fire_timer_weight t rnd st :
  wp (fire_timer config net_ext_udp_sockets t rnd)
     (λ _ st', (timer_weight st' + 1 ≤ timer_weight st + stage_weight t)%nat) st.
Proof.
  unfold fire_timer. apply wp_bind, wp_get.
  destruct (chans st !! tm_rx t) as [[]|]; try apply stage_closure_weight.
  apply wp_ret. unfold stage_weight. destruct (tm_stage t); lia.
Qed.

Lemma timer_step_weight st st' : timer_step st st' → (timer_weight st' < timer_weight st)%nat.
Proof.
  intros (i & rnd & (t & Hi & _) & Hrun). simpl in Hrun. unfold mbind, exec_bind, get_st in Hrun.
  simpl in Hrun. rewrite Hi in Hrun. unfold put_st in Hrun. simpl in Hrun.
  pose proof (wp_run _ _ _ _ _ (fire_timer_weight t rnd _) Hrun) as Hw.
  unfold timer_weight in *. simpl in Hw. rewrite (sum_list_with_delete _ _ _ _ Hi). lia.
Qed.

(** C19: from a state, at most [timer_weight] timers fire
    in a row: twice the first-attempt timers plus the retry timers. *)
Theorem timer_firings_bounded n st st' :
  nsteps timer_step n st st' → (n ≤ timer_weight st)%nat.
Proof.
  induction 1 as [|n st1 st2 st3 Hs _ IH]; [lia|].
  pose proof (timer_step_weight _ _ Hs). lia.
Qed.

(** A timer becomes ready once the clock reaches its deadline: after a
    clock tick of [tm_deadline t - now st] (or none if it is due), its
    firing is enabled. *)
Lemma clock_tick_enables st i t rnd :
  timers st !! i = Some t →
  event_enabled (set_now (now st + Z.max 0 (tm_deadline t - now st)) st) (TimerFires i rnd).
Proof.
  intros Hi. exists t. split; [done|]. unfold timer_ready. simpl.
  destruct (chans st !! tm_rx t) as [[]|]; try done; apply bool_decide_eq_true_2; lia.
Qed.

End Timeouts.
