(* ===== verification/Safety.v ===== *)
(** * Absence of panics

    The handler panics where the Rust code would: an out-of-range index
    ([upstream_servers_for_query[idx]], lines 264 and 354/394), a failed
    packet build, an empty socket list ([Range::new], line 534), or the
    eviction's assertion (line 127).  Under the assumptions the rest of
    the resolver provides, none of them happens: the codec builds a packet
    for every question, there is an outbound socket, every client query
    lists the [n] configured servers, and the live list holds valid
    indices.  The proofs carry a well-formedness invariant of the state
    ([wf_state]): the registry keeps its [n] servers, the live list is
    valid, every pending query's upstream index is below [n], and every
    timer keeps the [n] servers of its query. *)

From S2P Require Import Prelude Dns Upstream LoadBalancer PendingQuery Probe HandlerState Handler Step HandlerInv HandlerSpec Timeouts.
From stdpp Require Import base gmap list strings.
Open Scope Z_scope.

(** The live list holds valid indices, fewer than [2^32] (the jump hash
    takes a [u32] count). *)
Definition live_ok (r : Registry) (live : list nat) : Prop :=
  live_in_range r live ∧ Z.of_nat (length live) < 2 ^ 32.

(** The well-formed states for [n] configured servers. *)
Definition wf_state (n : nat) (st : HState) : Prop :=
  length (upstream_servers st) = n ∧
  live_ok (upstream_servers st) (upstream_servers_live st) ∧
  map_Forall (λ _ pq, upstream_server_idx pq < n)%nat (pending_queries st) ∧
  Forall (λ t, length (tm_servers_for_query t) = n) (timers st).

(** The events the rest of the resolver produces: client queries listing
    the [n] servers, and live lists of valid indices. *)
Definition wf_event (n : nat) (ev : Event) : Prop :=
  match ev with
  | ClientQueryIn cq _ => length (upstream_servers_for_query cq) = n
  | LiveSetChange live => Forall (λ j, j < n)%nat live ∧ Z.of_nat (length live) < 2 ^ 32
  | _ => True
  end.

(** A change of the parts [wf_state] does not read keeps it. *)
Lemma wf_state_frame n st st' :
  upstream_servers st' = upstream_servers st →
  upstream_servers_live st' = upstream_servers_live st →
  pending_queries st' = pending_queries st → timers st' = timers st →
  wf_state n st → wf_state n st'.
Proof. intros E1 E2 E3 E4. unfold wf_state. by rewrite E1, E2, E3, E4. Qed.

Lemma wf_state_answered n st st' out : answered st st' out → wf_state n st → wf_state n st'.
Proof. intros [v ->]. by apply wf_state_frame. Qed.

Lemma live_ok_alter f a r live : live_ok r live → live_ok (registry_alter f a r) live.
Proof. intros [Hr Hl]. split; [|done]. unfold live_in_range in *. by rewrite length_registry_alter. Qed.

#[local] Hint Resolve live_ok_alter : edgedns.

(** [hwpt], with indexing left as a bound to prove. *)
Ltac hwpt_index :=
  repeat (match goal with
          | |- wpt (index_or_panic _ _) _ _ => apply wpt_index; [|intros ? ?]
          end || wpt_step || unfold_effects).

Section Safety.
Context `{DnsCodec} `{JumpHasher}.
Context (config : Config) (net_ext_udp_sockets : list Z) (n : nat).
Hypothesis codec_total : ∀ nq tid, is_Some (build_query_packet nq false tid).
Hypothesis sockets_nonempty : net_ext_udp_sockets ≠ [].
Hypothesis max_waiting_clients_u64 : in_u64 (max_waiting_clients config).

(** A step of the reactor on a well-formed event. *)
Inductive wf_step (st st' : HState) : Prop :=
| wf_step_event ev :
    event_enabled st ev → wf_event n ev →
    handle_event config net_ext_udp_sockets ev st = Done tt st' → wf_step st st'.

Definition wf_reachable (servers : Registry) (c : Cache) (st : HState) : Prop :=
  rtc wf_step (initial_state servers c) st.

Lemma cap_pending_queries_safe st :
  handler_inv config st → wf_state n st →
  wpt (cap_pending_queries config) (λ _ st', wf_state n st') st.
Proof.
  intros (Hw & _) Hwf. unfold cap_pending_queries. hwpt; try done.
  - destruct Hwf as (? & ? & ? & ?). unfold wf_state. simpl. split_and!; try done.
    by apply map_Forall_delete.
  - exfalso. apply bool_decide_eq_false in E3. pose proof (clients_total_lookup_le _ _ _ E2). lia.
Qed.

Lemma maybe_add_to_existing_pending_query_safe k cq st :
  wf_state n st →
  wpt (maybe_add_to_existing_pending_query k cq)
      (λ b st', wf_state n st' ∧ (b = false → st' = st)) st.
Proof.
  intros Hwf. unfold maybe_add_to_existing_pending_query.
  hwpt; (split; [|intros ?; first [discriminate | done]]); [|done].
  destruct Hwf as (? & ? & Hp & ?). unfold wf_state. simpl.
  split_and!; try done. apply map_Forall_insert_2; [|done]. exact (Hp k p E).
Qed.

Lemma fut_process_client_query_safe cq rnd st :
  handler_inv config st → wf_state n st → length (upstream_servers_for_query cq) = n →
  wpt (fut_process_client_query config net_ext_udp_sockets cq rnd) (λ _ st', wf_state n st') st.
Proof.
  intros Hinv Hwf Hq. unfold fut_process_client_query. apply wpt_bind, wpt_get. case_decide.
  { eapply wpt_mono; [apply maybe_respond_with_stale_entry_spec|].
    intros ? st' Ha. exact (wf_state_answered _ _ _ _ Ha Hwf). }
  apply wpt_bind. eapply wpt_mono; [by apply cap_pending_queries_safe|]. intros ? st1 Hwf1.
  apply wpt_bind. eapply wpt_mono; [by apply maybe_add_to_existing_pending_query_safe|].
  intros [] st2 [Hwf2 Heq]; [by apply wpt_ret|]. rewrite Heq by done. clear Heq Hwf2.
  apply wpt_bind, wpt_get.
  destruct (codec_total (normalized_question cq) (rnd_tid rnd)) as [pkt Hp].
  destruct Hwf1 as (Hn & [Hlive Hlen] & Hpend & Htim).
  destruct (new_pending_query_Value (normalized_question cq) (upstream_servers st1)
              (upstream_servers_live st1) net_ext_udp_sockets false (lbmode config)
              (rnd_tid rnd) (rnd_socket rnd) pkt Hp sockets_nonempty Hlen Hlive)
    as (res & Hres & Hin).
  apply wpt_bind. apply (wpt_lift res); [done|].
  destruct res as [e|[[[qp nqm] idx] port]]; [by apply wpt_ret|]. simpl.
  assert (idx < n)%nat as Hidx.
  { rewrite <- Hn. unfold live_in_range in Hlive. rewrite Forall_forall in Hlive. by apply Hlive. }
  destruct (maybe_send_probe_Value (now st1) (rnd_probe rnd) (rnd_probe_ok rnd) qp (upstream_servers_for_query cq)
              (upstream_servers st1) port) as [[[servers dg] a'] Hprobe].
  assert (length servers = n ∧ live_ok servers (upstream_servers_live st1)) as [Hsn Hslive].
  { apply maybe_send_probe_cases in Hprobe as [[= -> _ _]|(s & _ & _ & [= -> _ _])];
      [done|]. split; [by rewrite length_registry_alter|]. by apply live_ok_alter. }
  apply wpt_bind. apply (wpt_lift (servers, dg, a')); [done|]. simpl.
  hwpt_index.
  all: try lia.
  all: unfold wf_state; simpl; split_and!; try done.
  all: try (rewrite length_registry_alter; done).
  all: try (by apply live_ok_alter).
  all: first [ apply map_Forall_insert_2; [by destruct a'|done]
             | apply Forall_app_2; [done|by apply Forall_singleton] ].
Qed.
Lemma fut_retry_query_safe nq usfq rnd st :
  wf_state n st → length usfq = n →
  wpt (fut_retry_query config net_ext_udp_sockets nq usfq rnd) (λ _ st', wf_state n st') st.
Proof.
  intros Hwf Hq. pose proof Hwf as (Hn & [Hlive Hlen] & Hpend & Htim).
  destruct (codec_total nq (rnd_tid rnd)) as [pkt Hp].
  destruct (new_pending_query_Value nq (upstream_servers st) (upstream_servers_live st)
              net_ext_udp_sockets true (lbmode config) (rnd_tid rnd) (rnd_socket rnd)
              pkt Hp sockets_nonempty Hlen Hlive) as (res & Hres & Hin).
  unfold fut_retry_query. apply wpt_bind, wpt_get.
  destruct (pending_queries st !! query_key nq) as [pq|] eqn:Hpq; [|by apply wpt_ret].
  apply wpt_bind, wpt_index; [rewrite Hq; exact (Hpend _ _ Hpq)|]. intros u Hu.
  destruct (registry_get (upstream_servers st) (socket_addr u)); [|by apply wpt_ret].
  apply wpt_bind, (wpt_lift res); [done|].
  destruct res as [e|[[[qp nqm] idx] port]]; [by apply wpt_ret|]. simpl.
  assert (idx < n)%nat as Hidx.
  { rewrite <- Hn. unfold live_in_range in Hlive. rewrite Forall_forall in Hlive. by apply Hlive. }
  hwpt_index; try lia.
  all: unfold wf_state; simpl; split_and!; try done.
  all: try (rewrite length_registry_alter; done).
  all: try (by apply live_ok_alter).
  all: first [ apply map_Forall_insert_2; [done|done]
             | apply Forall_app_2; [done|by apply Forall_singleton] ].
Qed.

Lemma respond_all_with_stale_entry_safe cqs st :
  wf_state n st → wpt (respond_all_with_stale_entry cqs) (λ _ st', wf_state n st') st.
Proof.
  intros Hwf. eapply wpt_mono; [apply respond_all_with_stale_entry_spec|].
  intros ? st' Ha. exact (wf_state_answered _ _ _ _ Ha Hwf).
Qed.

Lemma respond_all_safe cqs p st :
  wf_state n st → wpt (respond_all cqs p) (λ _ st', wf_state n st') st.
Proof.
  revert st. induction cqs as [|cq cqs IH]; intros st Hwf; simpl; [by apply wpt_ret|].
  unfold response_send. apply wpt_bind, wpt_modify. by apply IH.
Qed.

Lemma on_first_timeout_safe t rnd st :
  wf_state n st → length (tm_servers_for_query t) = n →
  wpt (on_first_timeout config net_ext_udp_sockets t rnd) (λ _ st', wf_state n st') st.
Proof.
  intros (Hn & Hlive & Hpend & Htim) Hq. unfold on_first_timeout, modify_registry.
  apply wpt_bind, wpt_modify, fut_retry_query_safe; [|done].
  unfold wf_state. simpl. rewrite length_registry_alter. split_and!; auto with edgedns.
Qed.

Lemma on_retry_timeout_safe t st :
  wf_state n st → wpt (on_retry_timeout config t) (λ _ st', wf_state n st') st.
Proof.
  intros Hwf. unfold on_retry_timeout. hwpt; try done.
  all: try (destruct Hwf as (? & ? & ? & ?); unfold wf_state; simpl;
            rewrite ?length_registry_alter; split_and!; auto with edgedns; fail).
  destruct Hwf as (? & ? & ? & ?).
  eapply wpt_mono; [apply respond_all_with_stale_entry_safe|].
  - unfold wf_state. simpl. rewrite length_registry_alter.
    split_and!; auto with edgedns. by apply map_Forall_delete.
  - intros ? st' Hst'. hwpt. exact (wf_state_frame _ st' _ eq_refl eq_refl eq_refl eq_refl Hst').
Qed.
Lemma dispatch_upstream_response_safe pkey from packet rtt st :
  wf_state n st →
  wpt (dispatch_upstream_response pkey from packet rtt) (λ _ st', wf_state n st') st.
Proof.
  intros Hwf. unfold dispatch_upstream_response. hwpt; try done.
  destruct Hwf as (? & ? & ? & ?).
  eapply wpt_mono; [apply respond_all_safe|].
  - unfold wf_state. simpl. split_and!; auto. by apply map_Forall_delete.
  - intros ? st' (? & ? & ? & ?). hwpt. unfold wf_state. simpl.
    rewrite length_registry_alter. split_and!; auto with edgedns.
Qed.

Lemma fire_timer_safe t rnd st :
  wf_state n st → length (tm_servers_for_query t) = n →
  wpt (fire_timer config net_ext_udp_sockets t rnd) (λ _ st', wf_state n st') st.
Proof.
  intros Hwf Hq. unfold fire_timer. apply wpt_bind, wpt_get.
  destruct (chans st !! tm_rx t) as [[]|]; try (by apply wpt_ret);
    destruct (tm_stage t); auto using on_first_timeout_safe, on_retry_timeout_safe.
Qed.

(** Every well-formed event runs to completion from a well-formed state
    satisfying the counter invariant. *)
Lemma handle_event_safe ev st :
  handler_inv config st → wf_state n st → wf_event n ev →
  wpt (handle_event config net_ext_udp_sockets ev) (λ _ st', wf_state n st') st.
Proof.
  intros Hinv Hwf Hev. destruct ev as [cq rnd|i rnd|pkey from packet rtt|d|live]; simpl in Hev.
  - by apply fut_process_client_query_safe.
  - simpl. apply wpt_bind, wpt_get. destruct (timers st !! i) as [t|] eqn:Ht; [|by apply wpt_ret].
    destruct Hwf as (? & ? & ? & Htim). apply wpt_bind, wpt_put, fire_timer_safe.
    + unfold wf_state. simpl. split_and!; try done. by apply Forall_delete.
    + rewrite Forall_lookup in Htim. by apply (Htim i).
  - by apply dispatch_upstream_response_safe.
  - apply wpt_modify. exact (wf_state_frame _ st _ eq_refl eq_refl eq_refl eq_refl Hwf).
  - destruct Hwf as (Hn & ? & ? & ?). destruct Hev as [Hl Hlen]. apply wpt_modify.
    unfold wf_state. simpl. split_and!; try done. split; [|done]. unfold live_in_range. by rewrite Hn.
Qed.

Lemma wf_step_step st st' : wf_step st st' → step config net_ext_udp_sockets st st'.
Proof. intros [ev ? _ ?]. by eapply step_event. Qed.

Lemma initial_state_wf servers c :
  length servers = n → Z.of_nat n < 2 ^ 32 → wf_state n (initial_state servers c).
Proof.
  intros Hn Hlt. unfold wf_state, live_ok, live_in_range. simpl. rewrite length_seq, Hn.
  split_and!; try done. apply Forall_forall. intros j Hj. apply elem_of_seq in Hj. lia.
Qed.

(** The handler's invariant and well-formedness, together. *)
Lemma wf_step_safe st st' :
  handler_inv config st ∧ wf_state n st → wf_step st st' → handler_inv config st' ∧ wf_state n st'.
Proof.
  intros [Hinv Hwf] Hs. split.
  - eapply step_handler_inv; [done|done|by apply wf_step_step].
  - destruct Hs as [ev _ Hev Hrun]. exact (wpt_run _ _ _ _ _ (handle_event_safe ev st Hinv Hwf Hev) Hrun).
Qed.

Lemma wf_reachable_safe servers c st :
  registry_wf servers → length servers = n → Z.of_nat n < 2 ^ 32 →
  wf_reachable servers c st → handler_inv config st ∧ wf_state n st.
Proof.
  intros Hr Hn Hlt. unfold wf_reachable. revert st. apply rtc_ind_r.
  - split; [by apply initial_state_inv|by apply initial_state_wf].
  - intros st1 st2 _ Hs IH. by eapply wf_step_safe.
Qed.

(** From a safe state, the armed timers can all be run out: tick the
    clock to the first timer's deadline and fire it, which lowers the
    timers' weight. *)
Lemma timers_drain_from st :
  handler_inv config st → wf_state n st → ∃ st', rtc wf_step st st' ∧ timers st' = [].
Proof.
  remember (timer_weight st) as w eqn:Hw. revert st Hw.
  induction w as [w IH] using (well_founded_induction lt_wf). intros st -> Hinv Hwf.
  destruct (timers st) as [|t ts] eqn:Ht; [by exists st|].
  set (rnd := {| rnd_tid := 0; rnd_socket := 0; rnd_probe := 0; rnd_probe_ok := true |}).
  set (st1 := set_now (now st + Z.max 0 (tm_deadline t - now st)) st).
  assert (wf_step st st1) as Hs1.
  { apply (wf_step_event _ _ (ClockTick (Z.max 0 (tm_deadline t - now st)))); simpl; [lia|done|done]. }
  destruct (wf_step_safe _ _ (conj Hinv Hwf) Hs1) as [Hinv1 Hwf1].
  assert (event_enabled st1 (TimerFires 0 rnd)) as Hen.
  { apply clock_tick_enables. by rewrite Ht. }
  destruct (handle_event_safe (TimerFires 0 rnd) st1 Hinv1 Hwf1 I) as ([] & st2 & Hrun & _).
  assert (wf_step st1 st2) as Hs2 by (by eapply wf_step_event).
  destruct (wf_step_safe _ _ (conj Hinv1 Hwf1) Hs2) as [Hinv2 Hwf2].
  assert (timer_weight st2 < timer_weight st1)%nat as Hlt.
  { apply (timer_step_weight config net_ext_udp_sockets). by exists 0%nat, rnd. }
  destruct (IH (timer_weight st2) Hlt st2 eq_refl Hinv2 Hwf2) as (st' & Hst' & Hnil).
  exists st'. split; [|done]. eapply rtc_l; [exact Hs1|]. by eapply rtc_l.
Qed.

(** C2: in every state reached from start-up by
    well-formed events, every well-formed event runs to completion: no
    index is out of range, no packet build or socket draw fails, and the
    eviction's assertion holds, when the codec builds a packet for every
    question, an outbound socket exists, and the client queries and live
    lists name the [n] configured servers. *)
Theorem handle_event_never_panics servers c st ev :
  registry_wf servers → length servers = n → Z.of_nat n < 2 ^ 32 →
  wf_reachable servers c st → wf_event n ev →
  ∃ st', handle_event config net_ext_udp_sockets ev st = Done tt st'.
Proof.
  intros Hr Hn Hlt Hreach Hev.
  destruct (wf_reachable_safe _ _ _ Hr Hn Hlt Hreach) as [Hinv Hwf].
  destruct (handle_event_safe ev st Hinv Hwf Hev) as ([] & st' & Hrun & _). by exists st'.
Qed.

(** C11: every timeout is eventually processed: from every
    state reached from start-up by well-formed events, ticking the clock
    and firing timers reaches a state with no armed timer. *)
Theorem timers_eventually_drain servers c st :
  registry_wf servers → length servers = n → Z.of_nat n < 2 ^ 32 →
  wf_reachable servers c st → ∃ st', rtc wf_step st st' ∧ timers st' = [].
Proof.
  intros Hr Hn Hlt Hreach.
  destruct (wf_reachable_safe _ _ _ Hr Hn Hlt Hreach) as [Hinv Hwf].
  by apply timers_drain_from.
Qed.

(** C18: in every state reached from start-up by
    well-formed events, every index the handler reads is in range: the
    registry keeps its [n] servers, the live list holds fewer than [2^32]
    indices below [n], every pending query's upstream index is below [n],
    and every armed timer keeps the [n] servers of its query. *)
Theorem wf_reachable_indices_in_range servers c st :
  registry_wf servers → length servers = n → Z.of_nat n < 2 ^ 32 →
  wf_reachable servers c st → wf_state n st.
Proof. intros Hr Hn Hlt Hreach. apply (wf_reachable_safe _ _ _ Hr Hn Hlt Hreach). Qed.

End Safety.

(** ** Concrete runs *)

#[local] Existing Instance example_codec.
#[local] Existing Instance example_hasher.

Lemma ex_codec_total : ∀ nq tid, is_Some (build_query_packet nq false tid).
Proof. intros nq tid. by eexists. Qed.

Lemma ex_state1_wf_reachable : wf_reachable ex_config [4000] 3 ex_registry ∅ ex_state1.
Proof.
  eapply rtc_l; [|apply rtc_refl].
  apply (wf_step_event _ _ _ _ _ (ClientQueryIn ex_q1 ex_rand)); [exact I|reflexivity|].
  vm_compute. reflexivity.
Qed.

Lemma handle_event_never_panics_witness :
  ∃ st', handle_event ex_config [4000] (TimerFires 0 ex_rand) ex_state1 = Done tt st'.
Proof.
  apply (handle_event_never_panics ex_config [4000] 3 ex_codec_total ltac:(discriminate)
           ltac:(split; vm_compute; discriminate) ex_registry ∅).
  - exact ex_registry_wf.
  - reflexivity.
  - vm_compute. reflexivity.
  - exact ex_state1_wf_reachable.
  - exact I.
Defined.

Lemma timers_eventually_drain_witness :
  ∃ st', rtc (wf_step ex_config [4000] 3) ex_state1 st' ∧ timers st' = [].
Proof.
  apply (timers_eventually_drain ex_config [4000] 3 ex_codec_total ltac:(discriminate)
           ltac:(split; vm_compute; discriminate) ex_registry ∅).
  - exact ex_registry_wf.
  - reflexivity.
  - vm_compute. reflexivity.
  - exact ex_state1_wf_reachable.
Defined.

(** The clock is past the deadline of the first timer of [ex_state1]. *)
Definition ex_state_tick : HState := set_now 6000 ex_state1.

Lemma timer_firings_bounded_witness : (1 ≤ timer_weight ex_state_tick)%nat.
Proof.
  eapply (timer_firings_bounded ex_config [4000] 1 ex_state_tick).
  eapply nsteps_l; [|apply nsteps_O].
  exists 0%nat, ex_rand. split; [eexists; split; vm_compute; reflexivity|].
  vm_compute. reflexivity.
Defined.

Lemma wf_reachable_indices_in_range_witness : wf_state 3 ex_state1.
Proof.
  apply (wf_reachable_indices_in_range ex_config [4000] 3 ex_codec_total ltac:(discriminate)
           ltac:(split; vm_compute; discriminate) ex_registry ∅).
  - exact ex_registry_wf.
  - reflexivity.
  - vm_compute. reflexivity.
  - exact ex_state1_wf_reachable.
Defined.
