(* ===== verification/Refinement.v ===== *)
(** * The pending table refines its contract, event by event

    The specification (section 4.3) describes the pending table by what
    it does to the clients waiting on each fingerprint: [try_attach]
    appends a client to an existing entry, [insert] adds an entry with
    one client, and [remove] and [evict_one] drop an entry with all its
    clients.  This file states, for each event of the reactor, which of
    these moves the table may make ([PendingTableSpec.astep]): a client
    query may evict one entry and then attaches that very client under
    its own key or inserts it alone under that key (or leaves the table
    when no server takes it); a timer may remove one whole entry; an
    upstream response removes exactly the entry it answers; the clock and
    the live list leave the table alone.  The table is seen through [abs]
    (the clients of each pending query, in order), and every run of the
    handler, from any state, moves it as its event allows. *)

From S2P Require Import Prelude Dns Upstream LoadBalancer PendingQuery Probe HandlerState Handler Step HandlerInv.
From stdpp Require Import base gmap list strings relations.
Open Scope Z_scope.

Module PendingTableSpec.

(** The abstract table: the clients waiting on each key, in order. *)
Abbreviation ATable := (gmap PendingQueryKey (list ClientQuery)) (only parsing).

(** [evict_one], or nothing: an entry leaves with all its clients. *)
Inductive evict : ATable → ATable → Prop :=
| EvictNone m : evict m m
| EvictOne m k cs : m !! k = Some cs → evict m (delete k m).

(** The client [cq] under the key [k]: appended to the entry of [k]
    ([try_attach]), alone in a new entry ([insert]), or not admitted. *)
Inductive admit_client (k : PendingQueryKey) (cq : ClientQuery) : ATable → ATable → Prop :=
| AdmitNone m : admit_client k cq m m
| AdmitAttach m cs : m !! k = Some cs → admit_client k cq m (<[k := cs ++ [cq]]> m)
| AdmitInsert m : m !! k = None → admit_client k cq m (<[k := [cq]]> m).

(** The moves each event allows. *)
Inductive astep : Event → ATable → ATable → Prop :=
| AClientQuery cq rnd m m1 m2 :
    evict m m1 → admit_client (query_key (normalized_question cq)) cq m1 m2 →
    astep (ClientQueryIn cq rnd) m m2
| ATimer i rnd m m' : evict m m' → astep (TimerFires i rnd) m m'
| AResponse pkey from packet rtt m :
    astep (UpstreamResponse pkey from packet rtt) m (delete pkey m)
| AClock d m : astep (ClockTick d) m m
| ALive live m : astep (LiveSetChange live) m m.

End PendingTableSpec.

Import PendingTableSpec.

(** The abstraction of the handler's table. *)
Definition abs (m : PendingQueries) : ATable := client_queries <$> m.

Lemma abs_lookup m k : abs m !! k = client_queries <$> m !! k.
Proof. apply lookup_fmap. Qed.

Lemma abs_evict m k pq : m !! k = Some pq → evict (abs m) (abs (delete k m)).
Proof.
  intros Hk. unfold abs. rewrite fmap_delete.
  apply (EvictOne _ _ (client_queries pq)). by rewrite lookup_fmap, Hk.
Qed.

Lemma abs_attach m k pq cq :
  m !! k = Some pq → admit_client k cq (abs m) (abs (<[k := push_client cq pq]> m)).
Proof.
  intros Hk. unfold abs. rewrite fmap_insert. simpl.
  apply AdmitAttach. by rewrite lookup_fmap, Hk.
Qed.

Lemma abs_insert_new m k pq cq :
  m !! k = None → client_queries pq = [cq] → admit_client k cq (abs m) (abs (<[k := pq]> m)).
Proof.
  intros Hk Hc. unfold abs. rewrite fmap_insert, Hc.
  apply AdmitInsert. by rewrite lookup_fmap, Hk.
Qed.

Lemma abs_replace m k pq pq' :
  m !! k = Some pq → client_queries pq' = client_queries pq → abs (<[k := pq']> m) = abs m.
Proof.
  intros Hk Hc. unfold abs. rewrite fmap_insert, Hc. apply insert_id. by rewrite lookup_fmap, Hk.
Qed.


(** The table of [st'] as seen from that of [st]. *)
Definition table_moves (R : ATable → ATable → Prop) (st st' : HState) : Prop :=
  R (abs (pending_queries st)) (abs (pending_queries st')).

(** Close an [evict] goal of a handler path: no change, or one entry
    removed, or a retarget that keeps the clients. *)
Ltac evict_close :=
  unfold table_moves; simpl;
  first [ apply EvictNone
        | eapply abs_evict; eassumption
        | erewrite abs_replace; [apply EvictNone|eassumption|reflexivity] ].

Section Refinement.
Context `{DnsCodec} `{JumpHasher}.
Context (config : Config) (net_ext_udp_sockets : list Z).

Lemma cap_pending_queries_evict st :
  wp (cap_pending_queries config) (λ _ st', table_moves evict st st') st.
Proof. unfold cap_pending_queries. hwp; evict_close. Qed.

Lemma maybe_add_to_existing_pending_query_admit k cq st :
  wp (maybe_add_to_existing_pending_query k cq)
     (λ b st', if b then table_moves (admit_client k cq) st st'
               else st' = st ∧ pending_queries st !! k = None) st.
Proof. unfold maybe_add_to_existing_pending_query. hwp; [|done]. by apply abs_attach. Qed.

(** A client query evicts at most one entry, then admits its client under
    its own key, or not at all. *)
Lemma fut_process_client_query_contract cq rnd st :
  wp (fut_process_client_query config net_ext_udp_sockets cq rnd)
     (λ _ st', table_moves (astep (ClientQueryIn cq rnd)) st st') st.
Proof.
  unfold fut_process_client_query. apply wp_bind, wp_get. case_decide.
  { eapply wp_mono; [apply maybe_respond_with_stale_entry_core|]. intros ? st' (Hp & _).
    unfold table_moves. rewrite Hp. eapply AClientQuery; [apply EvictNone|apply AdmitNone]. }
  apply wp_bind. eapply wp_mono; [apply cap_pending_queries_evict|]. intros ? st1 Hev.
  apply wp_bind. eapply wp_mono; [apply maybe_add_to_existing_pending_query_admit|].
  intros [] st2 Hadm; [apply wp_ret; exact (AClientQuery _ _ _ _ _ Hev Hadm)|].
  destruct Hadm as [-> Hnone].
  hwp; (eapply AClientQuery; [exact Hev|]); simpl;
    first [ apply AdmitNone | apply abs_insert_new; [exact Hnone|by repeat case_match] ].
Qed.

Lemma fut_retry_query_contract nq usfq rnd st :
  wp (fut_retry_query config net_ext_udp_sockets nq usfq rnd) (λ _ st', table_moves evict st st') st.
Proof. unfold fut_retry_query. hwp; evict_close. Qed.

Lemma on_retry_timeout_contract t st :
  wp (on_retry_timeout config t) (λ _ st', table_moves evict st st') st.
Proof.
  unfold on_retry_timeout. hwp; try evict_close.
  eapply wp_mono; [apply respond_all_with_stale_entry_core|]. intros ? st' (Hp & _).
  hwp. unfold table_moves. simpl. rewrite Hp. simpl. evict_close.
Qed.

(** A timer that fires removes at most one whole entry: the first
    timeout retargets its entry, the second removes it. *)
Lemma fire_timer_contract t rnd st :
  wp (fire_timer config net_ext_udp_sockets t rnd) (λ _ st', table_moves evict st st') st.
Proof.
  unfold fire_timer. apply wp_bind, wp_get.
  destruct (chans st !! tm_rx t) as [[]|], (tm_stage t);
    first [ apply wp_ret; apply EvictNone
          | unfold on_first_timeout, modify_registry; apply wp_bind, wp_modify;
            eapply wp_mono; [apply fut_retry_query_contract|]; done
          | apply on_retry_timeout_contract ].
Qed.

(** A response removes the entry it answers, and nothing else. *)
Lemma dispatch_upstream_response_contract pkey from packet rtt st :
  wp (dispatch_upstream_response pkey from packet rtt)
     (λ _ st', abs (pending_queries st') = delete pkey (abs (pending_queries st))) st.
Proof.
  unfold dispatch_upstream_response. apply wp_bind, wp_get.
  destruct (pending_queries st !! pkey) as [pq|] eqn:Hk.
  - hwp. eapply wp_mono; [apply respond_all_core|]. intros ? st' (Hp & _).
    hwp. simpl. rewrite Hp. simpl. unfold abs. by rewrite fmap_delete.
  - apply wp_ret. symmetry. apply delete_id. by rewrite abs_lookup, Hk.
Qed.

Lemma handle_event_contract ev st :
  wp (handle_event config net_ext_udp_sockets ev) (λ _ st', table_moves (astep ev) st st') st.
Proof.
  destruct ev as [cq rnd|i rnd|pkey from packet rtt|d|live]; simpl.
  - apply fut_process_client_query_contract.
  - apply wp_bind, wp_get. destruct (timers st !! i) as [t|]; [|apply wp_ret, ATimer, EvictNone].
    apply wp_bind, wp_put. eapply wp_mono; [apply fire_timer_contract|]. intros. by apply ATimer.
  - eapply wp_mono; [apply dispatch_upstream_response_contract|]. intros ? st' Hd.
    unfold table_moves. rewrite Hd. apply AResponse.
  - apply wp_modify, AClock.
  - apply wp_modify, ALive.
Qed.

(** C3: the pending table follows its contract,
    event by event: whatever the state, when the handler runs an event
    without panicking, the clients waiting on each key change as that
    event allows and in no other way: a client query evicts at most one
    whole entry and then appends its own client to the entry of its key
    or creates that entry with it alone (or admits it nowhere); a timer
    removes at most one whole entry; a response removes exactly the entry
    of its key; the clock and the live list leave the table as it is.  No
    client is ever dropped from an entry on its own, moved, reordered, or
    added but by its own query. *)
Theorem step_refines_contract ev st st' :
  handle_event config net_ext_udp_sockets ev st = Done tt st' →
  astep ev (abs (pending_queries st)) (abs (pending_queries st')).
Proof. intros Hrun. exact (wp_run _ _ _ _ _ (handle_event_contract ev st) Hrun). Qed.

End Refinement.

(** ** Concrete runs *)

#[local] Existing Instance example_codec.
#[local] Existing Instance example_hasher.

Lemma step_refines_contract_witness :
  astep (ClientQueryIn (ex_query 1 "example.com") ex_rand)
    (abs (pending_queries (initial_state ex_registry ∅))) (abs (pending_queries ex_state1)).
Proof.
  apply (step_refines_contract ex_config [4000]). vm_compute. reflexivity.
Defined.
