(* ===== verification/Scenarios.v ===== *)
(** * The specification's end-to-end scenarios, evaluated

    Section 8 of the specification lists seed scenarios.  Each is run
    here on the model from start-up with the stand-in codec (the query
    packet is the upstream transaction id, a SERVFAIL is [[2]]) and hash
    (the name's length modulo the live count), and its expected outcome is
    checked by evaluation.  [run] plays a list of events through
    [handle_event] and fails on a panic, so every scenario also runs
    without panicking.  Two runs show where the code departs from the
    specification: the probe that goes with a happy-path query, and the
    per-server pending counter after a retry that finds every server
    down. *)

From S2P Require Import Prelude Dns Upstream LoadBalancer PendingQuery Probe HandlerState Handler Step.
From stdpp Require Import base gmap list strings.
Open Scope Z_scope.

#[local] Existing Instance example_codec.
#[local] Existing Instance example_hasher.

(** The events, in order, from [st]; [None] when one of them panics. *)
Fixpoint run (cfg : Config) (evs : list Event) (st : HState) : option HState :=
  match evs with
  | [] => Some st
  | ev :: evs =>
      match handle_event cfg [4000] ev st with
      | Done _ st' => run cfg evs st'
      | Panicked _ => None
      end
  end.

Definition sc_config (mode : LoadBalancingMode) (max_waiting : Z) : Config :=
  {| max_waiting_clients := max_waiting; max_active_queries := 128; lbmode := mode;
     upstream_max_failures := 3 |}.

(** A client query for [name] that may go to every server of [r]. *)
Definition sc_query (r : Registry) (id : nat) (name : string) : ClientQuery :=
  {| cq_id := id;
     normalized_question :=
       {| qname := name; tid := 7; flags := 0; payload_size := 512; qtype := 1; qclass := 1;
          dnssec := false |};
     upstream_servers_for_query := map (λ s, {| socket_addr := us_socket_addr s |}) r;
     cq_custom_hash := (0, 0) |}.

Definition sc_key (cq : ClientQuery) : PendingQueryKey := query_key (normalized_question cq).

(** The datagrams sent to [a]. *)
Definition sends_to (a : SocketAddr) (dgs : list Datagram) : nat :=
  length (filter (λ d, dg_to d = a) dgs).

(** The server at [a], if configured. *)
Definition server_at (st : HState) (a : SocketAddr) : option UpstreamServer :=
  registry_get (upstream_servers st) a.

Definition addr_A : SocketAddr := mkSocketAddr 1 53.
Definition addr_B : SocketAddr := mkSocketAddr 2 53.
Definition addr_C : SocketAddr := mkSocketAddr 3 53.

(** Two online servers [A] and [B]; [A] alone; [A] online and [C] offline. *)
Definition reg_AB : Registry := [ex_server 1 0; ex_server 2 0].
Definition reg_A : Registry := [ex_server 1 0].
Definition server_C_offline : UpstreamServer :=
  {| us_socket_addr := addr_C; pending_queries_count := 0; failures := 3; offline := true;
     last_probe_ts := None; rtt_est_ms := 100 |}.
Definition reg_AC : Registry := [ex_server 1 0; server_C_offline].

(** The random draws: probe the second candidate. *)
Definition sc_rand : Rand := {| rnd_tid := 12; rnd_socket := 0; rnd_probe := 1; rnd_probe_ok := true |}.


(** The run does not panic, and its final state satisfies [P]. *)
Definition ends_in (o : option HState) (P : HState → Prop) : Prop :=
  match o with Some st => P st | None => False end.

(** ** The scenarios *)

(** Scenario 1, happy path.  Live [[A; B]], policy
    [Fallback], one query, answered by [A]: the client receives [A]'s
    answer, the table is empty, [inflight_queries] is back to 0, and the
    query went to [A] once; the probe of the code also went to [B]. *)
Example scenario_happy_path :
  let q := sc_query reg_AB 1 "example.com" in
  ends_in (run (sc_config Fallback 100)
             [ClientQueryIn q sc_rand; UpstreamResponse (sc_key q) addr_A [9; 9] 20]
             (initial_state reg_AB ∅)) (λ st,
        client_out st = [(1%nat, [9; 9])] ∧ size (pending_queries st) = 0%nat ∧
        inflight_queries (varz st) = 0 ∧ waiting_clients_count st = 0 ∧
        sends_to addr_A (upstream_out st) = 1%nat ∧ sends_to addr_B (upstream_out st) = 1%nat).
Proof. intros. vm_compute. repeat split. Qed.

(** Scenario 2, coalescing, on one run (the general law is
    [Coalescing.coalescing_law]).  Live [[A]], three
    identical queries, then [A]'s answer: one query is sent upstream
    ([upstream_sent] is 1) and the three clients receive the same
    answer. *)
Example scenario_coalescing :
  let q id := sc_query reg_A id "example.com" in
  ends_in (run (sc_config Fallback 100)
             [ClientQueryIn (q 1%nat) sc_rand; ClientQueryIn (q 2%nat) sc_rand;
              ClientQueryIn (q 3%nat) sc_rand; UpstreamResponse (sc_key (q 1%nat)) addr_A [9; 9] 20]
             (initial_state reg_A ∅)) (λ st,
        upstream_sent (varz st) = 1 ∧
        client_out st = [(1%nat, [9; 9]); (2%nat, [9; 9]); (3%nat, [9; 9])] ∧
        size (pending_queries st) = 0%nat ∧ waiting_clients_count st = 0).
Proof. intros. vm_compute. repeat split. Qed.

(** Scenario 3, timeout and successful retry.  Live
    [[A; B]], policy [Uniform], the hash picks [A]; [A] times out, the
    retry goes to [B], [B] answers: the client receives [B]'s answer,
    [A] has one failure, and both pending counters are back to 0. *)
Example scenario_retry_succeeds :
  let q := sc_query reg_AB 1 "example.co" in
  ends_in (run (sc_config Uniform 100)
             [ClientQueryIn q sc_rand; ClockTick 100; TimerFires 0 sc_rand;
              UpstreamResponse (sc_key q) addr_B [7] 30]
             (initial_state reg_AB ∅)) (λ st,
        client_out st = [(1%nat, [7])] ∧ size (pending_queries st) = 0%nat ∧
        (failures <$> server_at st addr_A) = Some 1 ∧
        (pending_queries_count <$> server_at st addr_A) = Some 0 ∧
        (pending_queries_count <$> server_at st addr_B) = Some 0).
Proof. intros. vm_compute. repeat split. Qed.

(** The cache holding a stale answer for [example.com]. *)
Definition cache_stale : Cache :=
  <[(normalized_question_key (sc_key (sc_query reg_AB 1 "example.com")), (0, 0)) := [5; 5]]> ∅.

(** Scenario 4, double timeout and stale hit.  Live
    [[A; B]], a stale cache entry; the query and its retry both time
    out: the client receives the stale packet, [client_queries_offline]
    is 1, the entry is removed, the counter is back to 0, and each server
    has one failure. *)
Example scenario_double_timeout_stale :
  ends_in (run (sc_config Uniform 100)
             [ClientQueryIn (sc_query reg_AB 1 "example.com") sc_rand; ClockTick 100;
              TimerFires 0 sc_rand; ClockTick 5000; TimerFires 0 sc_rand]
             (initial_state reg_AB cache_stale)) (λ st,
    client_out st = [(1%nat, [5; 5])] ∧ client_queries_offline (varz st) = 1 ∧
    upstream_timeout (varz st) = 1 ∧
    size (pending_queries st) = 0%nat ∧ waiting_clients_count st = 0 ∧
    (failures <$> server_at st addr_A) = Some 1 ∧ (failures <$> server_at st addr_B) = Some 1).
Proof. vm_compute. repeat split. Qed.

(** Scenario 5, all servers down.  Live [[]], no cache
    entry: a SERVFAIL is returned at once, no pending query is created,
    nothing is sent upstream. *)
Example scenario_all_down_servfail :
  ends_in (run (sc_config Uniform 100)
             [LiveSetChange []; ClientQueryIn (sc_query reg_AB 1 "example.com") sc_rand]
             (initial_state reg_AB ∅)) (λ st,
    client_out st = [(1%nat, [2])] ∧ size (pending_queries st) = 0%nat ∧
    upstream_out st = [] ∧ timers st = []).
Proof. vm_compute. repeat split. Qed.

(** Scenario 6, probe rate limit.  Live [[A]], [C]
    offline; two queries naming [C] as a candidate, 10 ms apart, both
    drawing [C] for the probe: exactly one probe goes to [C]. *)
Example scenario_probe_rate_limit :
  ends_in (run (sc_config Fallback 100)
             [ClientQueryIn (sc_query reg_AC 1 "a.example") sc_rand; ClockTick 10;
              ClientQueryIn (sc_query reg_AC 2 "b.example") sc_rand]
             (set_upstream_servers_live [0%nat] (initial_state reg_AC ∅))) (λ st,
    sends_to addr_C (upstream_out st) = 1%nat ∧ sends_to addr_A (upstream_out st) = 2%nat ∧
    (last_probe_ts <$> server_at st addr_C) = Some (Some 0)).
Proof. vm_compute. repeat split. Qed.

(** Scenario 7, eviction.  [max_waiting_clients = 2],
    three distinct queries: the first entry is evicted, no client is
    answered, the counter is 2; the evicted query's timer is then ready
    at once (its sender was dropped) and firing it charges [B], which
    did not time out, one failure. *)
Example scenario_eviction :
  ends_in (run (sc_config Uniform 2)
             [ClientQueryIn (sc_query reg_AB 1 "a.example") sc_rand;
              ClientQueryIn (sc_query reg_AB 2 "b.example") sc_rand;
              ClientQueryIn (sc_query reg_AB 3 "c.example") sc_rand]
             (initial_state reg_AB ∅)) (λ st,
    client_out st = [] ∧ size (pending_queries st) = 2%nat ∧ waiting_clients_count st = 2 ∧
    (failures <$> server_at st addr_B) = Some 0 ∧
    ends_in (run (sc_config Uniform 2) [TimerFires 0 sc_rand] st) (λ st',
      client_out st' = [] ∧ (failures <$> server_at st' addr_B) = Some 1)).
Proof. vm_compute. repeat split. Qed.

(** The specification's invariant that a server's
    [pending_queries_count] equals the number of pending queries
    targeting it fails: after a query to [A] whose retry finds every
    server down, the query still targets [A] (and waits, unanswered)
    while [A]'s counter is 0. *)
Example scenario_pending_count_diverges :
  ends_in (run (sc_config Fallback 100)
             [ClientQueryIn (sc_query reg_AB 1 "example.com") sc_rand; LiveSetChange [];
              ClockTick 100; TimerFires 0 sc_rand]
             (initial_state reg_AB ∅)) (λ st,
    size (pending_queries st) = 1%nat ∧
    (upstream_server_idx <$> pending_queries st !! sc_key (sc_query reg_AB 1 "example.com"))
      = Some 0%nat ∧
    (pending_queries_count <$> server_at st addr_A) = Some 0 ∧
    client_out st = [] ∧ timers st = []).
Proof. vm_compute. repeat split. Qed.
