(* ===== verification/Sends.v ===== *)
(** * Upstream datagrams per client query

    Section 8 of the specification bounds the upstream sends of a query:
    one primary and at most one retry.  In the code a client query that
    creates a pending query sends the primary attempt (line 295) and, when
    a candidate server is not rate limited, a probe carrying the same
    packet (line 215); the retry of [fut_retry_query] (line 413) sends
    one more and probes nothing.  So
    the datagrams sent upstream are at most three per client query, and
    a run with a single query reaches three.

    The bound is stated over labelled runs ([trace]): the events played,
    in order, from a state.  Its invariant weighs an armed first-attempt
    timer 1, for the retry it may still cause. *)

From S2P Require Import Prelude Dns Upstream LoadBalancer PendingQuery Probe HandlerState Handler Step Timeouts Scenarios.
From stdpp Require Import base gmap list strings relations.
Open Scope Z_scope.

(** The retries an armed timer may still cause. *)
Definition first_weight (t : Timer) : nat :=
  match tm_stage t with
  | FirstAttempt => 1
  | RetryAttempt => 0
  end.

(** The datagrams sent upstream, and those the armed timers may add. *)
Definition send_weight (st : HState) : nat :=
  (length (upstream_out st) + sum_list_with first_weight (timers st))%nat.

(** The client queries among the events. *)
Fixpoint client_queries_in (evs : list Event) : nat :=
  match evs with
  | [] => 0
  | ClientQueryIn _ _ :: evs => S (client_queries_in evs)
  | _ :: evs => client_queries_in evs
  end.

(** Whether an event is enabled, as a boolean. *)
Definition event_enabled_b (st : HState) (ev : Event) : bool :=
  match ev with
  | TimerFires i _ =>
      match timers st !! i with Some t => timer_ready st t | None => false end
  | ClockTick d => bool_decide (0 <= d)
  | _ => true
  end.

Section Sends.
Context `{DnsCodec} `{JumpHasher}.
Context (config : Config) (net_ext_udp_sockets : list Z).

(** The events [evs], each enabled when it is played, lead from [st] to
    [st'] without a panic. *)
Inductive trace : HState → list Event → HState → Prop :=
| trace_nil st : trace st [] st
| trace_cons st ev st1 evs st2 :
    event_enabled st ev →
    handle_event config net_ext_udp_sockets ev st = Done tt st1 →
    trace st1 evs st2 → trace st (ev :: evs) st2.

(** [trace] run as a program: the events in order, [None] on a panic or
    a disabled event. *)
Fixpoint run_trace (evs : list Event) (st : HState) : option HState :=
  match evs with
  | [] => Some st
  | ev :: evs =>
      if event_enabled_b st ev then
        match handle_event config net_ext_udp_sockets ev st with
        | Done _ st' => run_trace evs st'
        | Panicked _ => None
        end
      else None
  end.

Lemma event_enabled_b_spec st ev : event_enabled_b st ev = true → event_enabled st ev.
Proof.
  destruct ev as [| i rnd | | d |]; simpl; try done.
  - destruct (timers st !! i) as [t|] eqn:Hi; [|done]. intros. by exists t.
  - apply bool_decide_eq_true_1.
Qed.

Lemma run_trace_sound evs st st' : run_trace evs st = Some st' → trace st evs st'.
Proof.
  revert st. induction evs as [|ev evs IH]; intros st; simpl; [intros [= ->]; constructor|].
  destruct (event_enabled_b st ev) eqn:He; [|done].
  destruct (handle_event _ _ ev st) as [[] st1|] eqn:Hev; [|done].
  intros Hrun. econstructor; eauto using event_enabled_b_spec.
Qed.

(** A run that does not fail is a trace to its final state. *)
Lemma run_trace_complete evs st :
  bool_decide (is_Some (run_trace evs st)) = true → trace st evs (default st (run_trace evs st)).
Proof.
  intros Hs%bool_decide_eq_true_1. destruct Hs as [st' Hr]. rewrite Hr. by apply run_trace_sound.
Qed.

(** A trace is a sequence of steps, and every sequence of steps is the
    trace of some events. *)
Lemma trace_rtc st evs st' : trace st evs st' → rtc (step config net_ext_udp_sockets) st st'.
Proof. induction 1; [apply rtc_refl|]. eapply rtc_l; [econstructor|]; eauto. Qed.

Lemma rtc_trace st st' : rtc (step config net_ext_udp_sockets) st st' → ∃ evs, trace st evs st'.
Proof.
  induction 1 as [|st1 st2 st3 [? ev ? Hen Hrun] _ [evs IH]]; [exists []; constructor|].
  exists (ev :: evs). econstructor; eauto.
Qed.

(** Close a [send_weight] goal after the effects ran. *)
Ltac send_weight_close :=
  unfold send_weight, keeps_upstream in *; simpl in *;
  repeat match goal with
    | H : _ ∧ _ |- _ => destruct H
    | H : timers _ = _ |- _ => rewrite H in *; clear H
    | H : upstream_out _ = _ |- _ => rewrite H in *; clear H
    end;
  rewrite ?length_app, ?sum_list_with_app in *; simpl in *; lia.

Lemma maybe_respond_with_stale_entry_send_weight cq st :
  wp (maybe_respond_with_stale_entry cq) (λ _ st', send_weight st' = send_weight st) st.
Proof.
  eapply wp_mono; [apply maybe_respond_with_stale_entry_timers|].
  intros ? st' [Ht Ho]. unfold send_weight. by rewrite Ht, Ho.
Qed.

(** The answers go to clients only. *)
Lemma respond_all_keeps cqs packet st :
  wp (respond_all cqs packet) (λ _ st', keeps_upstream st st') st.
Proof.
  revert st. induction cqs as [|cq cqs IH]; intros st; simpl; [by apply wp_ret|].
  unfold response_send. apply wp_bind, wp_modify. eapply wp_mono; [apply IH|].
  intros ? st' [Ht Ho]. by split.
Qed.

(** A client query sends at most a probe and a primary attempt, and arms
    at most one first-attempt timer. *)
Lemma fut_process_client_query_send_weight cq rnd st :
  wp (fut_process_client_query config net_ext_udp_sockets cq rnd)
     (λ _ st', (send_weight st' ≤ send_weight st + 3)%nat) st.
Proof.
  unfold fut_process_client_query. apply wp_bind, wp_get. case_decide.
  { eapply wp_mono; [apply maybe_respond_with_stale_entry_send_weight|]. intros ? ? ->. lia. }
  unfold cap_pending_queries, maybe_add_to_existing_pending_query. hwp; send_weight_close.
Qed.

(** The retry sends at most one datagram and arms no first-attempt
    timer. *)
Lemma fut_retry_query_send_weight nq usfq rnd st :
  wp (fut_retry_query config net_ext_udp_sockets nq usfq rnd)
     (λ _ st', (send_weight st' ≤ send_weight st + 1)%nat) st.
Proof. unfold fut_retry_query. hwp; send_weight_close. Qed.

(** A timer that fires adds at most what it weighed. *)
Lemma fire_timer_send_weight t rnd st :
  wp (fire_timer config net_ext_udp_sockets t rnd)
     (λ _ st', (send_weight st' ≤ send_weight st + first_weight t)%nat) st.
Proof.
  unfold fire_timer. apply wp_bind, wp_get. unfold first_weight.
  destruct (chans st !! tm_rx t) as [[]|], (tm_stage t);
    first [ apply wp_ret; simpl; lia
          | unfold on_first_timeout, modify_registry; apply wp_bind, wp_modify;
            eapply wp_mono; [apply fut_retry_query_send_weight|]; intros ? st'; send_weight_close
          | eapply wp_mono; [apply on_retry_timeout_timers|]; intros ? st' ?; send_weight_close ].
Qed.

(** One event adds at most three, and only a client query adds any. *)
Lemma handle_event_send_weight ev st :
  wp (handle_event config net_ext_udp_sockets ev)
     (λ _ st', (send_weight st' ≤ send_weight st + 3 * client_queries_in [ev])%nat) st.
Proof.
  destruct ev as [cq rnd|i rnd|pkey from packet rtt|d|live]; simpl.
  - eapply wp_mono; [apply fut_process_client_query_send_weight|]. simpl. lia.
  - apply wp_bind, wp_get. destruct (timers st !! i) as [t|] eqn:Hi; [|apply wp_ret; lia].
    apply wp_bind, wp_put. eapply wp_mono; [apply fire_timer_send_weight|]. intros ? st' Hw.
    unfold send_weight in *. simpl in Hw. rewrite (sum_list_with_delete _ _ _ _ Hi). lia.
  - unfold dispatch_upstream_response. hwp; try send_weight_close.
    eapply wp_mono; [apply respond_all_keeps|]. intros ? st' Hk. hwp. send_weight_close.
  - apply wp_modify. send_weight_close.
  - apply wp_modify. send_weight_close.
Qed.

(** The datagrams of a trace: the weight grows by at most three per
    client query. *)
Lemma trace_send_weight st evs st' :
  trace st evs st' → (send_weight st' ≤ send_weight st + 3 * client_queries_in evs)%nat.
Proof.
  induction 1 as [|st ev st1 evs st2 _ Hrun _ IH]; [lia|].
  pose proof (wp_run _ _ _ _ _ (handle_event_send_weight ev st) Hrun) as Hw. cbv beta in Hw.
  assert (client_queries_in (ev :: evs) = client_queries_in [ev] + client_queries_in evs)%nat
    by (destruct ev; reflexivity).
  lia.
Qed.

(** C13: every client query causes at most three
    datagrams upstream (the primary attempt, a probe of an offline server
    and the retry): in a run from start-up, the datagrams sent upstream
    are at most three times the client queries received.  The
    specification's bound is two sends per query. *)
Theorem upstream_sends_per_query servers c evs st :
  trace (initial_state servers c) evs st →
  (length (upstream_out st) ≤ 3 * client_queries_in evs)%nat.
Proof.
  intros Htr. pose proof (trace_send_weight _ _ _ Htr) as Hw.
  unfold send_weight in Hw. simpl in Hw. lia.
Qed.

End Sends.

(** ** A query that sends three datagrams *)

#[local] Existing Instance example_codec.
#[local] Existing Instance example_hasher.

(** [A] live, [C] offline; one query naming both, its first attempt
    times out and the retry goes out. *)
Definition three_sends_events : list Event :=
  [LiveSetChange [0%nat]; ClientQueryIn (sc_query reg_AC 1 "example.com") sc_rand;
   ClockTick 1000; TimerFires 0 sc_rand].

Definition three_sends_state : HState :=
  default (initial_state reg_AC ∅)
    (run_trace (sc_config Fallback 100) [4000] three_sends_events (initial_state reg_AC ∅)).

Lemma upstream_sends_per_query_witness :
  (length (upstream_out three_sends_state) ≤ 3 * client_queries_in three_sends_events)%nat ∧
  length (upstream_out three_sends_state) = 3%nat.
Proof.
  split; [|vm_compute; reflexivity].
  apply (upstream_sends_per_query (sc_config Fallback 100) [4000] reg_AC ∅).
  apply run_trace_complete. vm_compute. reflexivity.
Defined.
