(* ===== verification/Sharing.v ===== *)
(** * The handler's handles on shared state, and its clones

    [ClientQueriesHandler] (client_queries_handler.rs, lines 41-54) holds
    no data of its own: each field is a handle on an object shared through
    [Rc] or [Arc] (the cache, the configuration, the outbound sockets, the
    pending table, the registry and its live list, the waiting-client
    counter, the timer wheel, the metrics), a reactor handle, a socket
    descriptor, or the [Copy] jump hasher.  [Clone] (lines 56-73) copies
    every handle, so a clone reaches the same objects, and duplicates the
    inbound socket's descriptor with [try_clone], which names the same
    socket.  The handler clones itself for each future it spawns
    ([fut_process_stream] line 102, the closures of lines 302 and 429).

    This file models the heap those handles point into ([Store], one map
    of locations per type of object) and the struct as a record of
    locations; it shows that what an operation does through any clone is
    what the single state [HState] of the rest of the development records:
    a family of clones, operated on in any order, behaves as one state
    ([clones_run_as_one]). *)

From S2P Require Import Prelude Dns Upstream LoadBalancer PendingQuery Probe HandlerState Handler Step Scenarios.
From stdpp Require Import base gmap list strings.
Open Scope Z_scope.

(** A location in the heap. *)
Definition Loc := positive.

(** [Vec<net::UdpSocket>] of the outbound sockets: their local ports and
    the datagrams sent through them. *)
Record ExtSockets := { ext_ports : list Z; ext_sent : list Datagram }.

(** The objects the handles point to.  The one-shot channels and the
    coarse clock belong to the runtime, not to a handle. *)
Record Store := {
  caches : gmap Loc Cache;
  configs : gmap Loc Config;
  ext_sockets : gmap Loc ExtSockets;
  tables : gmap Loc PendingQueries;
  registries : gmap Loc Registry;
  lives : gmap Loc (list nat);
  counters : gmap Loc Z;
  wheels : gmap Loc (list Timer);
  varzs : gmap Loc Varz;
  fds : gmap Loc Loc;
  sockets : gmap Loc (list (nat * Packet));
  rt_chans : gmap Chan ChanState;
  rt_next_chan : Chan;
  clock : Z
}.

Definition set_fds (x : gmap Loc Loc) (s : Store) : Store :=
  {| caches := caches s; configs := configs s; ext_sockets := ext_sockets s; tables := tables s;
     registries := registries s; lives := lives s; counters := counters s; wheels := wheels s;
     varzs := varzs s; fds := x; sockets := sockets s; rt_chans := rt_chans s;
     rt_next_chan := rt_next_chan s; clock := clock s |}.

Definition set_wheels (x : gmap Loc (list Timer)) (s : Store) : Store :=
  {| caches := caches s; configs := configs s; ext_sockets := ext_sockets s; tables := tables s;
     registries := registries s; lives := lives s; counters := counters s; wheels := x;
     varzs := varzs s; fds := fds s; sockets := sockets s; rt_chans := rt_chans s;
     rt_next_chan := rt_next_chan s; clock := clock s |}.

(** The handles of [resolver::ResolverCore] that the handler takes. *)
Record CoreHandles := {
  rc_cache : Loc;
  rc_config : Loc;
  rc_handle : Loc;
  rc_net_udp_socket : Loc;
  rc_net_ext_udp_sockets_rc : Loc;
  rc_pending_queries : Loc;
  rc_upstream_servers_arc : Loc;
  rc_upstream_servers_live_arc : Loc;
  rc_waiting_clients_count : Loc;
  rc_jumphasher : JumpHasher;
  rc_varz : Loc
}.

Module Cqh.

(** [struct ClientQueriesHandler] (lines 41-54). *)
Record ClientQueriesHandler := {
  cache : Loc;
  config : Loc;
  handle : Loc;
  net_udp_socket : Loc;
  net_ext_udp_sockets_rc : Loc;
  pending_queries : Loc;
  upstream_servers_arc : Loc;
  upstream_servers_live_arc : Loc;
  waiting_clients_count : Loc;
  jumphasher : JumpHasher;
  timer : Loc;
  varz : Loc
}.

(** [impl Clone for ClientQueriesHandler] (lines 56-73): every handle is
    copied, the inbound socket is duplicated by [try_clone().unwrap()]
    (a fresh descriptor on the same socket; a panic when the descriptor
    is not open). *)
Definition clone (self : ClientQueriesHandler) (s : Store) : option (ClientQueriesHandler * Store) :=
  sock ← fds s !! net_udp_socket self;
  let fd := fresh (dom (fds s)) in
  Some ({| cache := cache self;
           config := config self;
           handle := handle self;
           net_udp_socket := fd;
           net_ext_udp_sockets_rc := net_ext_udp_sockets_rc self;
           pending_queries := pending_queries self;
           upstream_servers_arc := upstream_servers_arc self;
           upstream_servers_live_arc := upstream_servers_live_arc self;
           waiting_clients_count := waiting_clients_count self;
           jumphasher := jumphasher self;
           timer := timer self;
           varz := varz self |},
        set_fds (<[fd := sock]> (fds s)) s).

(** [ClientQueriesHandler::new] (lines 75-94): the handles of the
    resolver core are copied, the inbound socket is duplicated, and the
    timer is a new, empty wheel of its own (its capacity,
    [max_active_queries], is read from the configuration when a timer is
    armed). *)
Definition new (resolver_core : CoreHandles) (s : Store) : option (ClientQueriesHandler * Store) :=
  let timer := fresh (dom (wheels s)) in
  let s := set_wheels (<[timer := []]> (wheels s)) s in
  sock ← fds s !! rc_net_udp_socket resolver_core;
  let fd := fresh (dom (fds s)) in
  Some ({| cache := rc_cache resolver_core;
           config := rc_config resolver_core;
           handle := rc_handle resolver_core;
           net_udp_socket := fd;
           net_ext_udp_sockets_rc := rc_net_ext_udp_sockets_rc resolver_core;
           pending_queries := rc_pending_queries resolver_core;
           upstream_servers_arc := rc_upstream_servers_arc resolver_core;
           upstream_servers_live_arc := rc_upstream_servers_live_arc resolver_core;
           waiting_clients_count := rc_waiting_clients_count resolver_core;
           jumphasher := rc_jumphasher resolver_core;
           timer := timer;
           varz := rc_varz resolver_core |},
        set_fds (<[fd := sock]> (fds s)) s).

End Cqh.

Import Cqh (ClientQueriesHandler).

(** The handles of [h] with the descriptor [fd] for the inbound socket. *)
Definition with_socket (h : ClientQueriesHandler) (fd : Loc) : ClientQueriesHandler :=
  {| Cqh.cache := Cqh.cache h; Cqh.config := Cqh.config h; Cqh.handle := Cqh.handle h;
     Cqh.net_udp_socket := fd; Cqh.net_ext_udp_sockets_rc := Cqh.net_ext_udp_sockets_rc h;
     Cqh.pending_queries := Cqh.pending_queries h;
     Cqh.upstream_servers_arc := Cqh.upstream_servers_arc h;
     Cqh.upstream_servers_live_arc := Cqh.upstream_servers_live_arc h;
     Cqh.waiting_clients_count := Cqh.waiting_clients_count h;
     Cqh.jumphasher := Cqh.jumphasher h; Cqh.timer := Cqh.timer h; Cqh.varz := Cqh.varz h |}.

(** [h'] reaches the objects of [h]: the same handles, and a descriptor
    on the same socket. *)
Definition shares (s : Store) (h h' : ClientQueriesHandler) : Prop :=
  ∃ fd, h' = with_socket h fd ∧ fds s !! fd = fds s !! Cqh.net_udp_socket h.

(** What a handle sees: the configuration, the outbound ports, and the
    state of the handler. *)
Definition view (s : Store) (h : ClientQueriesHandler) : option (Config * list Z * HState) :=
  cfg ← configs s !! Cqh.config h;
  ext ← ext_sockets s !! Cqh.net_ext_udp_sockets_rc h;
  m ← tables s !! Cqh.pending_queries h;
  r ← registries s !! Cqh.upstream_servers_arc h;
  live ← lives s !! Cqh.upstream_servers_live_arc h;
  w ← counters s !! Cqh.waiting_clients_count h;
  c ← caches s !! Cqh.cache h;
  ts ← wheels s !! Cqh.timer h;
  sock ← fds s !! Cqh.net_udp_socket h;
  out ← sockets s !! sock;
  v ← varzs s !! Cqh.varz h;
  Some (cfg, ext_ports ext,
        {| pending_queries := m; upstream_servers := r; upstream_servers_live := live;
           waiting_clients_count := w; cache := c; timers := ts; chans := rt_chans s;
           next_chan := rt_next_chan s; now := clock s; upstream_out := ext_sent ext;
           client_out := out; varz := v |}).

(** Writing a new state back through a handle. *)
Definition write (h : ClientQueriesHandler) (st : HState) (s : Store) : Store :=
  {| caches := <[Cqh.cache h := cache st]> (caches s);
     configs := configs s;
     ext_sockets := alter (λ e, {| ext_ports := ext_ports e; ext_sent := upstream_out st |})
                      (Cqh.net_ext_udp_sockets_rc h) (ext_sockets s);
     tables := <[Cqh.pending_queries h := pending_queries st]> (tables s);
     registries := <[Cqh.upstream_servers_arc h := upstream_servers st]> (registries s);
     lives := <[Cqh.upstream_servers_live_arc h := upstream_servers_live st]> (lives s);
     counters := <[Cqh.waiting_clients_count h := waiting_clients_count st]> (counters s);
     wheels := <[Cqh.timer h := timers st]> (wheels s);
     varzs := <[Cqh.varz h := varz st]> (varzs s);
     fds := fds s;
     sockets := match fds s !! Cqh.net_udp_socket h with
                | Some sock => <[sock := client_out st]> (sockets s)
                | None => sockets s
                end;
     rt_chans := chans st;
     rt_next_chan := next_chan st;
     clock := now st |}.

Section Sharing.
Context `{DnsCodec}.

(** An operation of the handler run through a handle: it reads the
    objects the handle points to and writes them back. *)
Definition through {A} (h : ClientQueriesHandler)
    (m : JumpHasher → Config → list Z → Handler A) : Exec Store A :=
  λ s, match view s h with
       | None => Panicked "dangling handle"
       | Some (cfg, ports, st) =>
           match m (Cqh.jumphasher h) cfg ports st with
           | Done a st' => Done a (write h st' s)
           | Panicked msg => Panicked msg
           end
       end.

(** What the program does with its handles: clone one, or run the code
    of an event through one. *)
Inductive Act :=
| CloneOf (i : nat)
| RunOn (i : nat) (ev : Event).

Fixpoint run_acts (acts : list Act) (hs : list ClientQueriesHandler) (s : Store)
    : option (list ClientQueriesHandler * Store) :=
  match acts with
  | [] => Some (hs, s)
  | CloneOf i :: acts =>
      h ← hs !! i;
      '(h', s') ← Cqh.clone h s;
      run_acts acts (hs ++ [h']) s'
  | RunOn i ev :: acts =>
      h ← hs !! i;
      match through h (λ jh cfg ports, @handle_event _ jh cfg ports ev) s with
      | Done _ s' => run_acts acts hs s'
      | Panicked _ => None
      end
  end.

(** The events of the acts, in order. *)
Fixpoint events_of (acts : list Act) : list Event :=
  match acts with
  | [] => []
  | CloneOf _ :: acts => events_of acts
  | RunOn _ ev :: acts => ev :: events_of acts
  end.

(** Every act names a handle that exists when it runs. *)
Fixpoint acts_in_range (n : nat) (acts : list Act) : bool :=
  match acts with
  | [] => true
  | CloneOf i :: acts => bool_decide (i < n)%nat && acts_in_range (S n) acts
  | RunOn i _ :: acts => bool_decide (i < n)%nat && acts_in_range n acts
  end.

(** The events run on one state. *)
Fixpoint run_events `{JumpHasher} (cfg : Config) (ports : list Z) (evs : list Event) (st : HState)
    : option HState :=
  match evs with
  | [] => Some st
  | ev :: evs =>
      match handle_event cfg ports ev st with
      | Done _ st' => run_events cfg ports evs st'
      | Panicked _ => None
      end
  end.

(** The handles of a family: clones of [h0] that all see [st]. *)
Definition family (s : Store) (h0 : ClientQueriesHandler) (cfg : Config) (ports : list Z)
    (st : HState) (hs : list ClientQueriesHandler) : Prop :=
  view s h0 = Some (cfg, ports, st) ∧ Forall (shares s h0) hs.

End Sharing.

(** ** The store *)

Lemma with_socket_self h : with_socket h (Cqh.net_udp_socket h) = h.
Proof. by destruct h. Qed.

Lemma with_socket_twice h fd fd' : with_socket (with_socket h fd) fd' = with_socket h fd'.
Proof. done. Qed.

Lemma shares_refl s h : shares s h h.
Proof. exists (Cqh.net_udp_socket h). by rewrite with_socket_self. Qed.

(** Sharing depends on the descriptors only. *)
Lemma shares_fds s s' h h' : fds s' = fds s → shares s h h' → shares s' h h'.
Proof. intros Hfds (fd & -> & Hfd). exists fd. by rewrite Hfds. Qed.

Lemma view_fd s h cfg ports st :
  view s h = Some (cfg, ports, st) → is_Some (fds s !! Cqh.net_udp_socket h).
Proof. unfold view. intros Hv. destruct (fds s !! _); [done|]. by simplify_option_eq. Qed.

(** Handles that share see the same state, and write the same objects. *)
Lemma view_shares s h h' : shares s h h' → view s h' = view s h.
Proof. intros (fd & -> & Hfd). unfold view. simpl. by rewrite Hfd. Qed.

Lemma write_shares s h h' st : shares s h h' → write h' st s = write h st s.
Proof. intros (fd & -> & Hfd). unfold write. simpl. by rewrite Hfd. Qed.

(** What is written through a handle is what it then sees. *)
Lemma view_write s h cfg ports st st' :
  view s h = Some (cfg, ports, st) → view (write h st' s) h = Some (cfg, ports, st').
Proof.
  unfold view, write. intros Hv. simplify_option_eq. simpl.
  rewrite !lookup_insert_eq, lookup_alter. simplify_option_eq.
  rewrite ?lookup_insert_eq. simpl. by destruct st'.
Qed.

Lemma shares_jumphasher s h h' : shares s h h' → Cqh.jumphasher h' = Cqh.jumphasher h.
Proof. by intros (fd & -> & _). Qed.

Lemma clone_is_Some s h : is_Some (fds s !! Cqh.net_udp_socket h) → is_Some (Cqh.clone h s).
Proof. intros [sock Hs]. unfold Cqh.clone. rewrite Hs. by eexists. Qed.

(** A fresh descriptor is none of the open ones. *)
Lemma fresh_fd_ne s k : is_Some (fds s !! k) → fresh (dom (fds s)) ≠ k.
Proof. intros Hk <-. apply (is_fresh (dom (fds s))). by apply elem_of_dom. Qed.

(** A fresh descriptor changes no view of an open descriptor. *)
Lemma view_set_fds_fresh s h sock :
  is_Some (fds s !! Cqh.net_udp_socket h) →
  view (set_fds (<[fresh (dom (fds s)) := sock]> (fds s)) s) h = view s h.
Proof.
  intros Hfd. unfold view. simpl. by rewrite lookup_insert_ne; [|apply fresh_fd_ne].
Qed.

Lemma shares_set_fds_fresh s h h' sock :
  is_Some (fds s !! Cqh.net_udp_socket h) → shares s h h' →
  shares (set_fds (<[fresh (dom (fds s)) := sock]> (fds s)) s) h h'.
Proof.
  intros Hsome (fd & -> & Hfd). exists fd. split; [done|]. simpl.
  rewrite !lookup_insert_ne; [done|by apply fresh_fd_ne|apply fresh_fd_ne; by rewrite Hfd].
Qed.

(** At start-up (no channel, the clock at 0, nothing sent yet),
    [ClientQueriesHandler::new] sees the state [ClientQueriesHandler_new]
    builds from the values of the resolver core: the handle-level model
    of [new] refines the value-level one. *)
Lemma new_view rc s h s' cfg ext m r live w c sock v :
  Cqh.new rc s = Some (h, s') →
  configs s !! rc_config rc = Some cfg →
  ext_sockets s !! rc_net_ext_udp_sockets_rc rc = Some ext → ext_sent ext = [] →
  tables s !! rc_pending_queries rc = Some m →
  registries s !! rc_upstream_servers_arc rc = Some r →
  lives s !! rc_upstream_servers_live_arc rc = Some live →
  counters s !! rc_waiting_clients_count rc = Some w →
  caches s !! rc_cache rc = Some c →
  fds s !! rc_net_udp_socket rc = Some sock → sockets s !! sock = Some [] →
  varzs s !! rc_varz rc = Some v →
  rt_chans s = ∅ → rt_next_chan s = 0%nat → clock s = 0 →
  view s' h = Some (cfg, ext_ports ext,
    ClientQueriesHandler_new
      {| core_cache := c; core_pending_queries := m; core_upstream_servers := r;
         core_upstream_servers_live := live; core_waiting_clients_count := w;
         core_varz := v |}).
Proof.
  unfold Cqh.new. simpl. intros Hnew Hcfg Hext Hsent Hm Hr Hlive Hw Hc Hfd Hsock Hv Hch Hnc Hcl.
  rewrite Hfd in Hnew. simplify_eq/=. unfold view. simpl.
  rewrite Hcfg, Hext, Hm, Hr, Hlive, Hw, Hc, !lookup_insert_eq. simpl. rewrite Hsock, Hv. simpl.
  unfold ClientQueriesHandler_new. simpl. by rewrite Hsent, Hch, Hnc, Hcl.
Qed.

(** [Clone::clone] of a handle that shares with [h0] gives one more
    handle that shares with it, and changes no view. *)
Lemma clone_spec s h0 h h' s' :
  is_Some (fds s !! Cqh.net_udp_socket h0) → shares s h0 h →
  Cqh.clone h s = Some (h', s') →
  shares s' h0 h' ∧ (∀ h'', shares s h0 h'' → shares s' h0 h'') ∧ view s' h0 = view s h0.
Proof.
  intros Hsome Hsh Hcl. pose proof Hsh as (fd & -> & Hfd).
  unfold Cqh.clone in Hcl. simpl in Hcl. rewrite Hfd in Hcl.
  destruct Hsome as [sock Hsock]. rewrite Hsock in Hcl. simplify_eq/=.
  split_and!.
  - exists (fresh (dom (fds s))). split; [done|]. simpl.
    rewrite lookup_insert_eq, lookup_insert_ne; [done|]. apply fresh_fd_ne. by eexists.
  - intros h'' Hh''. by apply shares_set_fds_fresh.
  - by apply view_set_fds_fresh.
Qed.

Section Family.
Context `{DnsCodec}.

(** A family of clones stays one: whatever the acts, every handle sees
    the state that the events, run in order on one state, give. *)
Lemma run_acts_family acts hs s h0 cfg ports st :
  family s h0 cfg ports st hs → acts_in_range (length hs) acts = true →
  match run_acts acts hs s with
  | Some (hs', s') => ∃ st', @run_events _ (Cqh.jumphasher h0) cfg ports (events_of acts) st = Some st' ∧
                              family s' h0 cfg ports st' hs'
  | None => @run_events _ (Cqh.jumphasher h0) cfg ports (events_of acts) st = None
  end.
Proof.
  revert hs s st. induction acts as [|[i|i ev] acts IH]; intros hs s st [Hv Hsh] Hr; simpl in *.
  { exists st. split; [done|]. by split. }
  all: apply andb_prop in Hr as [Hi%bool_decide_eq_true_1 Hr].
  all: destruct (lookup_lt_is_Some_2 hs i Hi) as [hi Hhi]; rewrite Hhi; simpl.
  all: pose proof (Forall_lookup_1 _ _ _ _ Hsh Hhi) as Hshi.
  - pose proof (view_fd _ _ _ _ _ Hv) as Hsome.
    destruct (clone_is_Some s hi) as [[h' s'] Hcl]; [by rewrite <- (view_shares _ _ _ Hshi) in Hv;
      eapply view_fd|].
    rewrite Hcl. simpl. destruct (clone_spec _ _ _ _ _ Hsome Hshi Hcl) as (Hs1 & Hs2 & Hv').
    apply IH; [split; [by rewrite Hv'|]|by rewrite length_app, Nat.add_1_r].
    apply Forall_app_2; [by eapply Forall_impl|by constructor].
  - unfold through. rewrite (view_shares _ _ _ Hshi), Hv, (shares_jumphasher _ _ _ Hshi).
    destruct (handle_event cfg ports ev st) as [[] st'|msg]; [|done].
    rewrite (write_shares _ _ _ _ Hshi). apply IH; [|done]. split; [by eapply view_write|].
    eapply Forall_impl; [exact Hsh|]. intros h' Hh'. by eapply shares_fds; [|exact Hh'].
Qed.

(** C4: the handler and its clones behave as one
    state: from a handle that sees [st], any sequence of clonings and of
    events run through any of the clones either panics exactly when the
    same events run in order on [st] panic, or ends with every clone
    seeing the state those events give. *)
Theorem clones_run_as_one h s cfg ports st acts :
  view s h = Some (cfg, ports, st) → acts_in_range 1 acts = true →
  match run_acts acts [h] s with
  | Some (hs', s') => ∃ st', @run_events _ (Cqh.jumphasher h) cfg ports (events_of acts) st = Some st' ∧
                              Forall (λ h', view s' h' = Some (cfg, ports, st')) hs'
  | None => @run_events _ (Cqh.jumphasher h) cfg ports (events_of acts) st = None
  end.
Proof.
  intros Hv Hr. pose proof (run_acts_family acts [h] s h cfg ports st) as Hf.
  destruct (run_acts acts [h] s) as [[hs' s']|]; [|apply Hf; [split; [done|by constructor; [apply shares_refl|]]|done]].
  destruct Hf as (st' & Hrun & Hv' & Hsh); [split; [done|by constructor; [apply shares_refl|]]|done|].
  exists st'. split; [done|]. eapply Forall_impl; [exact Hsh|]. intros h' Hh'.
  by rewrite (view_shares _ _ _ Hh').
Qed.

End Family.

(** ** A handler and its clone, concretely *)

#[local] Existing Instance example_codec.

(** One object of each kind at location 1, the inbound socket 7 open
    on descriptor 1: the state at start-up with [A] and [B]. *)
Definition ex_store : Store :=
  {| caches := {[1%positive := ∅]}; configs := {[1%positive := sc_config Uniform 100]};
     ext_sockets := {[1%positive := {| ext_ports := [4000]; ext_sent := [] |}]};
     tables := {[1%positive := ∅]}; registries := {[1%positive := reg_AB]};
     lives := {[1%positive := [0; 1]%nat]}; counters := {[1%positive := 0]};
     wheels := {[1%positive := []]};
     varzs := {[1%positive := {| inflight_queries := 0; upstream_sent := 0; upstream_timeout := 0;
                                 client_queries_offline := 0 |}]};
     fds := {[1%positive := 7%positive]}; sockets := {[7%positive := []]};
     rt_chans := ∅; rt_next_chan := 0%nat; clock := 0 |}.

Definition ex_handler : ClientQueriesHandler :=
  {| Cqh.cache := 1%positive; Cqh.config := 1%positive; Cqh.handle := 1%positive; Cqh.net_udp_socket := 1%positive;
     Cqh.net_ext_udp_sockets_rc := 1%positive; Cqh.pending_queries := 1%positive; Cqh.upstream_servers_arc := 1%positive;
     Cqh.upstream_servers_live_arc := 1%positive; Cqh.waiting_clients_count := 1%positive;
     Cqh.jumphasher := example_hasher; Cqh.timer := 1%positive; Cqh.varz := 1%positive |}.

(** The query goes out through the handler, its timeout fires in a
    clone (the closure's [retry_query] of line 302), and the answer to
    the retry is dispatched through the handler. *)
Definition ex_acts : list Act :=
  let q := sc_query reg_AB 1 "example.co" in
  [RunOn 0 (ClientQueryIn q sc_rand); CloneOf 0; RunOn 1 (ClockTick 100);
   RunOn 1 (TimerFires 0 sc_rand); RunOn 0 (UpstreamResponse (sc_key q) addr_B [7] 30)].

Lemma clones_run_as_one_witness :
  match run_acts ex_acts [ex_handler] ex_store with
  | Some (hs', s') =>
      ∃ st', @run_events _ (Cqh.jumphasher ex_handler) (sc_config Uniform 100) [4000]
               (events_of ex_acts) (initial_state reg_AB ∅) = Some st' ∧
             Forall (λ h', view s' h' = Some (sc_config Uniform 100, [4000], st')) hs'
  | None => @run_events _ (Cqh.jumphasher ex_handler) (sc_config Uniform 100) [4000]
              (events_of ex_acts) (initial_state reg_AB ∅) = None
  end.
Proof.
  apply clones_run_as_one; vm_compute; reflexivity.
Defined.
