(* ===== verification/ProbeSpacing.v ===== *)
(** * Probes to a server are spaced by the probe delay

    Section 8 of the specification: probe sends to a given offline
    server are separated by at least [UPSTREAM_PROBES_DELAY_MS].  The
    probe sender stamps a server with the current time when it probes it
    and skips a server stamped less than the delay ago (Probe.v); nothing
    else of the handler writes or clears a stamp: the counter updates of
    lines 285-286, 320-324, 400-401 and 448-454 and the dispatcher's
    [record_success] keep it.  So along any run, the stamp of a server
    only ever moves forward, each time by the delay at least. *)

From S2P Require Import Prelude Dns Upstream LoadBalancer PendingQuery Probe HandlerState Handler Step HandlerInv Scenarios Sends.
From stdpp Require Import base gmap list strings relations.
Open Scope Z_scope.

(** The time of the last probe to the server at [a], if any. *)
Definition last_probe (st : HState) (a : SocketAddr) : option Z := stamp (upstream_servers st) a.

Section Spacing.
Context `{DnsCodec} `{JumpHasher}.
Context (config : Config) (net_ext_udp_sockets : list Z).

(** Close a [stamps_after] goal: peel the updates that keep the stamps,
    then the probe, then equality. *)
Ltac stamps_close :=
  simpl;
  repeat (apply stamps_after_alter; [auto with edgedns|auto with edgedns|]);
  first [ reflexivity
        | match goal with
          | Hp : maybe_send_probe_to_offline_servers _ _ _ _ _ _ _ = Value _ |- _ =>
              exact (maybe_send_probe_stamps _ _ _ _ _ _ _ _ _ _ Hp)
          end ].

(** The same registry after the answers to clients. *)
Lemma same_core_stamps st st' : same_core st st' → stamps_after (upstream_servers st) (upstream_servers st').
Proof. intros (_ & _ & ->). reflexivity. Qed.

Lemma fut_process_client_query_stamps cq rnd st :
  wp (fut_process_client_query config net_ext_udp_sockets cq rnd)
     (λ _ st', stamps_after (upstream_servers st) (upstream_servers st')) st.
Proof.
  unfold fut_process_client_query. apply wp_bind, wp_get. case_decide.
  { eapply wp_mono; [apply maybe_respond_with_stale_entry_core|]. intros ??. apply same_core_stamps. }
  unfold cap_pending_queries, maybe_add_to_existing_pending_query. hwp; stamps_close.
Qed.

Lemma fut_retry_query_stamps nq usfq rnd st :
  wp (fut_retry_query config net_ext_udp_sockets nq usfq rnd)
     (λ _ st', stamps_after (upstream_servers st) (upstream_servers st')) st.
Proof. unfold fut_retry_query. hwp; stamps_close. Qed.

(** No event moves a stamp but by a probe. *)
Lemma handle_event_stamps ev st :
  wp (handle_event config net_ext_udp_sockets ev)
     (λ _ st', stamps_after (upstream_servers st) (upstream_servers st')) st.
Proof.
  destruct ev as [cq rnd|i rnd|pkey from packet rtt|d|live]; simpl.
  - apply fut_process_client_query_stamps.
  - apply wp_bind, wp_get. destruct (timers st !! i) as [t|]; [|apply wp_ret; reflexivity].
    apply wp_bind, wp_put. unfold fire_timer. apply wp_bind, wp_get.
    destruct (chans _ !! tm_rx t) as [[]|], (tm_stage t); try (apply wp_ret; reflexivity).
    all: first
      [ unfold on_first_timeout, modify_registry; apply wp_bind, wp_modify;
        eapply wp_mono; [apply fut_retry_query_stamps|]; intros ? st' Hs;
        etransitivity; [|exact Hs]; stamps_close
      | unfold on_retry_timeout, maybe_respond_to_all_clients_with_stale_entry; hwp; try stamps_close;
        eapply wp_mono; [apply respond_all_with_stale_entry_core|]; intros ? st' Hc;
        cbv beta in Hc; hwp; simpl; etransitivity; [|apply same_core_stamps, Hc]; stamps_close ].
  - unfold dispatch_upstream_response. hwp; try stamps_close.
    eapply wp_mono; [apply respond_all_core|]. intros ? st' Hc. cbv beta in Hc. hwp. simpl.
    apply stamps_after_alter; [auto with edgedns..|].
    etransitivity; [|apply same_core_stamps, Hc]. stamps_close.
  - apply wp_modify. reflexivity.
  - apply wp_modify. reflexivity.
Qed.

Lemma step_stamps st st' :
  step config net_ext_udp_sockets st st' → stamps_after (upstream_servers st) (upstream_servers st').
Proof. intros [st0 ev st1 _ Hrun]. exact (wp_run _ _ _ _ _ (handle_event_stamps ev st0) Hrun). Qed.

Lemma rtc_stamps st st' :
  rtc (step config net_ext_udp_sockets) st st' →
  stamps_after (upstream_servers st) (upstream_servers st').
Proof.
  induction 1 as [|st1 st2 st3 Hs _ IH]; [reflexivity|].
  etransitivity; [apply step_stamps, Hs|exact IH].
Qed.

(** C12: probes to a server are at least
    [UPSTREAM_PROBES_DELAY_MS] apart: along any run of the handler, when
    the time of the last probe to a server changes from [t] to [t'], then
    [t'] is at least [t + UPSTREAM_PROBES_DELAY_MS]. *)
Theorem probes_spaced st st' a t t' :
  rtc (step config net_ext_udp_sockets) st st' →
  last_probe st a = Some t → last_probe st' a = Some t' → t' ≠ t →
  t + UPSTREAM_PROBES_DELAY_MS ≤ t'.
Proof.
  unfold last_probe. intros Hrun Ht Ht' Hne. pose proof (rtc_stamps _ _ Hrun a) as Hs. rewrite Ht, Ht' in Hs. simpl in Hs. lia.
Qed.

End Spacing.

(** ** Two probes to [C], a delay apart *)

#[local] Existing Instance example_codec.
#[local] Existing Instance example_hasher.

(** [C] offline and probed at 0 by a first query; a second query naming
    it arrives at 1000 and probes it again. *)
Definition probe_first : HState :=
  let st0 := initial_state reg_AC ∅ in
  default st0 (run_trace (sc_config Fallback 100) [4000]
                 [LiveSetChange [0%nat]; ClientQueryIn (sc_query reg_AC 1 "a.example") sc_rand] st0).

Definition probe_second_events : list Event :=
  [ClockTick 1000; ClientQueryIn (sc_query reg_AC 2 "b.example") sc_rand].

Definition probe_second : HState :=
  default probe_first (run_trace (sc_config Fallback 100) [4000] probe_second_events probe_first).

Lemma probes_spaced_witness :
  last_probe probe_first addr_C = Some 0 ∧
  last_probe probe_second addr_C = Some 1000 ∧
  0 + UPSTREAM_PROBES_DELAY_MS ≤ 1000.
Proof.
  split; [vm_compute; reflexivity|]. split; [vm_compute; reflexivity|].
  apply (probes_spaced (sc_config Fallback 100) [4000] probe_first probe_second addr_C 0 1000).
  - apply (trace_rtc _ _ _ probe_second_events), run_trace_complete. vm_compute. reflexivity.
  - vm_compute. reflexivity.
  - vm_compute. reflexivity.
  - lia.
Defined.
