(* ===== verification/Coalescing.v ===== *)
(** * The coalescing law

    Section 8 of the specification: N identical concurrent queries
    produce exactly one upstream send on the happy path, and all N
    clients receive the same response.  In the code the first query of
    the listeners' stream ([fut_process_stream], lines 96-111) creates the
    pending query and sends it ([fut_process_client_query], lines
    219-333); every later identical query finds the entry and joins it
    ([maybe_add_to_existing_pending_query], lines 132-146), which sends
    nothing; the response dispatcher then answers the clients of the entry
    in their order of arrival.  This file proves that law for any number
    of queries, with the one departure the code has: the attempt may be
    preceded by a probe. *)

From S2P Require Import Prelude Dns Upstream LoadBalancer PendingQuery Probe HandlerState Handler Step HandlerInv HandlerSpec Scenarios.
From stdpp Require Import base gmap list strings.
Open Scope Z_scope.

(** The answers the clients [cqs] receive when [packet] is dispatched to
    them, in order. *)
Definition answers (cqs : list ClientQuery) (packet : Packet) : list (nat * Packet) :=
  map (λ cq, (cq_id cq, packet)) cqs.

(** One upstream attempt to [addr], after at most one probe. *)
Definition one_attempt (addr : SocketAddr) (st st' : HState) : Prop :=
  ∃ probes dg, upstream_out st' = upstream_out st ++ probes ++ [dg] ∧
               (length probes ≤ 1)%nat ∧ dg_to dg = addr.

(** The pending query [pq] once the clients of [qs] joined it. *)
Definition join_all (pq : PendingQuery) (qs : list (ClientQuery * Rand)) : PendingQuery :=
  foldl (λ pq q, push_client q.1 pq) pq qs.

Lemma join_all_clients pq qs :
  client_queries (join_all pq qs) = client_queries pq ++ map fst qs.
Proof.
  revert pq. induction qs as [|q qs IH]; intros pq; simpl; [by rewrite app_nil_r|].
  unfold join_all in *. rewrite IH. simpl. by rewrite <- app_assoc.
Qed.

(** The answers go out in order, and nothing else changes. *)
Lemma respond_all_out cqs packet st :
  respond_all cqs packet st = Done tt (set_client_out (client_out st ++ answers cqs packet) st).
Proof.
  revert st. induction cqs as [|cq cqs IH]; intros st; simpl.
  - rewrite app_nil_r. by destruct st.
  - unfold mbind, exec_bind, response_send, modify_st. simpl. rewrite IH. simpl.
    by rewrite <- app_assoc.
Qed.

Section Coalescing.
Context `{DnsCodec} `{JumpHasher}.
Context (config : Config) (net_ext_udp_sockets : list Z).

(** The dispatcher answers every client of the entry with the packet,
    removes the entry and takes its clients off the counter. *)
Lemma dispatch_answers k pq st from packet rtt :
  pending_queries st !! k = Some pq →
  ∃ st'', dispatch_upstream_response k from packet rtt st = Done tt st'' ∧
    pending_queries st'' = delete k (pending_queries st) ∧
    waiting_clients_count st'' =
      (waiting_clients_count st -w Z.of_nat (length (client_queries pq)))%edns ∧
    client_out st'' = client_out st ++ answers (client_queries pq) packet.
Proof.
  intros Hk. unfold dispatch_upstream_response. exec_simpl. rewrite Hk. exec_simpl.
  rewrite respond_all_out. exec_simpl. by eexists.
Qed.

(** Below the admission limit, identical queries join the pending query
    one after the other: the state afterwards is the state before with
    the clients appended to the entry and added to the counter. *)
Lemma stream_coalesces k pq qs st :
  upstream_servers_live st ≠ [] →
  pending_queries st !! k = Some pq →
  Forall (λ q, query_key (normalized_question q.1) = k) qs →
  0 <= waiting_clients_count st →
  waiting_clients_count st + Z.of_nat (length qs) <= max_waiting_clients config →
  in_u64 (max_waiting_clients config) →
  fut_process_stream config net_ext_udp_sockets qs st =
    Done tt (set_waiting_clients_count (waiting_clients_count st + Z.of_nat (length qs))
               (set_pending_queries (<[k := join_all pq qs]> (pending_queries st)) st)).
Proof.
  intros Hl. revert pq st Hl. induction qs as [|[cq rnd] qs IH]; intros pq st Hl Hk Hqs Hw0 Hw Hm.
  { simpl. rewrite insert_id by done. rewrite Z.add_0_r. by destruct st. }
  apply Forall_cons in Hqs as [Hq Hqs]. simpl in Hq.
  destruct (fut_process_client_query_coalesced config net_ext_udp_sockets cq rnd st Hl)
    as (st1 & Hrun & pq1 & Hk1 & ->); [simpl in Hw; lia|rewrite Hq; by eexists|].
  rewrite Hq, Hk in Hk1. injection Hk1 as <-.
  simpl. unfold mbind, exec_bind. rewrite Hrun. simpl.
  rewrite wrapping_add_exact in * by (unfold in_u64 in Hm; simpl in Hw; lia).
  rewrite (IH (push_client cq pq)); simpl; try done.
  - unfold join_all. simpl. rewrite Hq, insert_insert_eq.
    match goal with
    | |- Done _ (set_waiting_clients_count ?a _) = Done _ (set_waiting_clients_count ?b _) =>
        replace a with b by lia
    end. reflexivity.
  - by rewrite Hq, lookup_insert_eq.
  - lia.
  - simpl in Hw. lia.
Qed.

(** C8: the coalescing law.  Below the admission limit,
    a query [cq] whose question is not pending, followed by any number of
    identical queries [qs], leads to exactly one upstream attempt (after
    at most one probe); the response to it then reaches every one of
    these clients, in their order of arrival, with the same packet, and
    the table and the counter are back to what they were. *)
Theorem coalescing_law cq rnd qs st pkt nqm idx port servers probe_dg probe_addr u s
    from packet rtt :
  in_u64 (max_waiting_clients config) →
  upstream_servers_live st ≠ [] →
  0 <= waiting_clients_count st →
  waiting_clients_count st + Z.of_nat (S (length qs)) <= max_waiting_clients config →
  pending_queries st !! query_key (normalized_question cq) = None →
  new_pending_query (normalized_question cq) (upstream_servers st) (upstream_servers_live st)
    net_ext_udp_sockets false (lbmode config) (rnd_tid rnd) (rnd_socket rnd)
    = Value (inr (pkt, nqm, idx, port)) →
  maybe_send_probe_to_offline_servers (now st) (rnd_probe rnd) (rnd_probe_ok rnd) pkt
    (upstream_servers_for_query cq) (upstream_servers st) port
    = Value (servers, probe_dg, probe_addr) →
  upstream_servers_for_query cq !! idx = Some u →
  registry_get servers (socket_addr u) = Some s →
  Forall (λ q, query_key (normalized_question q.1) = query_key (normalized_question cq)) qs →
  ∃ st' st'',
    fut_process_stream config net_ext_udp_sockets ((cq, rnd) :: qs) st = Done tt st' ∧
    one_attempt (socket_addr u) st st' ∧
    dispatch_upstream_response (query_key (normalized_question cq)) from packet rtt st'
      = Done tt st'' ∧
    client_out st'' = client_out st ++ answers (cq :: map fst qs) packet ∧
    pending_queries st'' = pending_queries st ∧
    waiting_clients_count st'' = waiting_clients_count st.
Proof.
  intros Hm Hl Hw0 Hw Hk Hn Hp Hu Hs Hqs.
  destruct (fut_process_client_query_sent_new config net_ext_udp_sockets cq rnd st pkt nqm idx
              port servers probe_dg probe_addr u s Hl ltac:(lia) Hk Hn Hp Hu Hs)
    as (st1 & Hrun & pq & Hpend & Hcl & _ & _ & Hw1 & Hout & _ & Hlive & Hco).
  rewrite wrapping_add_exact in Hw1 by (unfold in_u64 in Hm; lia).
  rewrite <- Hlive in Hl.
  pose proof (stream_coalesces _ pq qs st1 Hl ltac:(by rewrite Hpend, lookup_insert_eq) Hqs
                ltac:(lia) ltac:(lia) Hm) as Hstream.
  set (st' := set_waiting_clients_count _ _) in Hstream.
  destruct (dispatch_answers (query_key (normalized_question cq)) (join_all pq qs) st'
              from packet rtt) as (st'' & Hd & Hpd & Hwd & Hod); [apply lookup_insert_eq|].
  exists st', st''. split_and!; try done.
  - simpl. unfold mbind, exec_bind. rewrite Hrun. exact Hstream.
  - rewrite Hod. simpl. by rewrite join_all_clients, Hcl, Hco.
  - rewrite Hpd. simpl. rewrite Hpend, insert_insert_eq. by rewrite delete_insert_id.
  - rewrite Hwd. simpl. rewrite join_all_clients, Hcl, Hw1. simpl.
    rewrite length_map, wrapping_sub_exact; unfold in_u64 in Hm; lia.
Qed.

End Coalescing.

(** ** Three identical queries, one attempt *)

#[local] Existing Instance example_codec.
#[local] Existing Instance example_hasher.

Definition three_identical : list (ClientQuery * Rand) :=
  [(sc_query reg_A 2 "example.com", sc_rand); (sc_query reg_A 3 "example.com", sc_rand)].

Lemma coalescing_law_witness :
  ∃ u st' st'',
    fut_process_stream (sc_config Fallback 100) [4000]
      ((sc_query reg_A 1 "example.com", sc_rand) :: three_identical) (initial_state reg_A ∅)
      = Done tt st' ∧
    one_attempt (socket_addr u) (initial_state reg_A ∅) st' ∧
    dispatch_upstream_response (query_key (normalized_question (sc_query reg_A 1 "example.com")))
      addr_A [9; 9] 20 st' = Done tt st'' ∧
    client_out st'' = client_out (initial_state reg_A ∅) ++
      answers (sc_query reg_A 1 "example.com" :: map fst three_identical) [9; 9] ∧
    pending_queries st'' = pending_queries (initial_state reg_A ∅) ∧
    waiting_clients_count st'' = waiting_clients_count (initial_state reg_A ∅).
Proof.
  eexists.
  eapply coalescing_law;
    [split; vm_compute; discriminate|vm_compute; discriminate|vm_compute; discriminate
    |vm_compute; discriminate|vm_compute; reflexivity|vm_compute; reflexivity
    |vm_compute; reflexivity|vm_compute; reflexivity|vm_compute; reflexivity
    |repeat constructor].
Defined.
